(** * The temporal scroll-mapping engine of bible-timeline

    A shallow embedding of [buildYearMapping] (data-loader.js) and of the two
    query closures it returns, [scrollToYear] and [yearToScroll], together with
    the properties the specification states about them.

    Numbers.  A JavaScript number is an IEEE-754 double.  This development
    idealises the finite doubles as real numbers (no rounding, no overflow)
    and keeps the three non-finite values, because the code can produce them:
    [0 / 0] is [NaN] and [x / 0] is an infinity.  Signed zeros are not
    distinguished.  Years are integers in the data set and are typed [Z],
    or [option Z] where the code can hold a [null] in their place; they
    are injected into the reals with [IZR] where the code does arithmetic
    on them.  Quantities that are finite by construction (square
    roots of absolute values, sums and products of finite numbers) are typed
    [R]; everything downstream of a division is typed [number]. *)

From Stdlib Require Import ZArith List Reals Lra Lia Bool Sorted Permutation.
From Stdlib Require String DecimalString DecimalZ DecimalPos.
Import String.StringSyntax.
Import ListNotations.
Delimit Scope string_scope with string.

Local Open Scope Z_scope.

(** ** JavaScript numbers *)

Inductive number : Type :=
| Num (r : R)
| PInf
| NInf
| NaN.

Definition Rleb (a b : R) : bool := if Rle_dec a b then true else false.
Definition Rltb (a b : R) : bool := if Rlt_dec a b then true else false.
Definition Reqb (a b : R) : bool := if Req_dec_T a b then true else false.

(** [a <= b]; every comparison with [NaN] is false. *)
Definition js_le (a b : number) : bool :=
  match a, b with
  | NaN, _ | _, NaN => false
  | Num x, Num y => Rleb x y
  | NInf, _ => true
  | _, PInf => true
  | _, _ => false
  end.

(** [a < b]. *)
Definition js_lt (a b : number) : bool :=
  match a, b with
  | NaN, _ | _, NaN => false
  | Num x, Num y => Rltb x y
  | PInf, _ => false
  | _, NInf => false
  | _, _ => true
  end.

Definition js_ge (a b : number) : bool := js_le b a.
Definition js_gt (a b : number) : bool := js_lt b a.

Definition js_neg (a : number) : number :=
  match a with
  | Num x => Num (- x)
  | PInf => NInf
  | NInf => PInf
  | NaN => NaN
  end.

Definition js_add (a b : number) : number :=
  match a, b with
  | NaN, _ | _, NaN => NaN
  | Num x, Num y => Num (x + y)
  | PInf, NInf | NInf, PInf => NaN
  | PInf, _ | _, PInf => PInf
  | NInf, _ | _, NInf => NInf
  end.

Definition js_sub (a b : number) : number := js_add a (js_neg b).

(** An infinity scaled by the sign of a real factor. *)
Definition inf_times (pos : bool) (y : R) : number :=
  if Rltb 0 y then (if pos then PInf else NInf)
  else if Rltb y 0 then (if pos then NInf else PInf)
  else NaN.

Definition js_mul (a b : number) : number :=
  match a, b with
  | NaN, _ | _, NaN => NaN
  | Num x, Num y => Num (x * y)
  | PInf, Num y | Num y, PInf => inf_times true y
  | NInf, Num y | Num y, NInf => inf_times false y
  | PInf, PInf | NInf, NInf => PInf
  | PInf, NInf | NInf, PInf => NInf
  end.

(** Division.  A zero divisor is the [+0] that the subtractions of the code
    produce: [0 / 0] is [NaN], [x / 0] is an infinity with the sign of [x]. *)
Definition js_div (a b : number) : number :=
  match a, b with
  | NaN, _ | _, NaN => NaN
  | Num x, Num y =>
      if Reqb y 0 then
        (if Rltb 0 x then PInf else if Rltb x 0 then NInf else NaN)
      else Num (x / y)
  | Num _, _ => Num 0
  | PInf, Num y => if Rltb y 0 then NInf else PInf
  | NInf, Num y => if Rltb y 0 then PInf else NInf
  | _, _ => NaN
  end.

(** [Math.min] and [Math.max] of two arguments: [NaN] is contagious. *)
Definition js_min (a b : number) : number :=
  match a, b with
  | NaN, _ | _, NaN => NaN
  | _, _ => if js_le a b then a else b
  end.

Definition js_max (a b : number) : number :=
  match a, b with
  | NaN, _ | _, NaN => NaN
  | _, _ => if js_le a b then b else a
  end.

(** [Math.round]: the nearest integer, halves rounded towards [+Infinity]. *)
Definition js_round (a : number) : number :=
  match a with
  | Num x => Num (IZR (Zfloor (x + / 2)))
  | _ => a
  end.

(** A year read as a number. *)
Definition of_year (y : Z) : number := Num (IZR y).

(** [Math.round(n / 2)] for an integer [n], computed on the integers. *)
Definition round_half (n : Z) : Z := (n + 1) / 2.

(** ** Arrays, sets and maps *)

Section Containers.
Context {A : Type}.

(** [Array.prototype.sort(cmp)], a stable sort; [gtb a b] reads
    [cmp(a, b) > 0], the only outcome that moves [a] behind [b]. *)
Variable gtb : A -> A -> bool.

Fixpoint insert (x : A) (l : list A) : list A :=
  match l with
  | [] => [x]
  | y :: l' => if gtb x y then y :: insert x l' else x :: l
  end.

Fixpoint js_sort (l : list A) : list A :=
  match l with
  | [] => []
  | x :: l' => insert x (js_sort l')
  end.
End Containers.

(** ** Years as the code stores them

    The year of an event is a whole year or [null]: a book with a start
    date and no end date pushes an end event whose year is [null]
    ([None] here).  In arithmetic and in comparisons [null] is read as 0;
    as an element of a [Set] and as a key of a [Map] it is a value of its
    own, different from 0. *)

(** [null] read as a number in a comparison or in arithmetic. *)
Definition toNumber (x : option Z) : Z :=
  match x with
  | Some z => z
  | None => 0
  end.

(** The equality of [Set] and [Map] keys. *)
Definition sameValueZero (a b : option Z) : bool :=
  match a, b with
  | Some x, Some y => x =? y
  | None, None => true
  | _, _ => false
  end.

(** [new Set(iterable)] over years: insertion order, first occurrence kept. *)
Definition set_add (s : list (option Z)) (x : option Z) : list (option Z) :=
  if existsb (sameValueZero x) s then s else s ++ [x].

Definition new_Set (l : list (option Z)) : list (option Z) :=
  fold_left set_add l [].

(** A [Map] keyed by year, as its entries in insertion order. *)
Section YearMap.
Context {V : Type}.

Fixpoint map_set (k : option Z) (v : V) (m : list (option Z * V))
  : list (option Z * V) :=
  match m with
  | [] => [(k, v)]
  | (k', v') :: m' =>
      if sameValueZero k k' then (k, v) :: m' else (k', v') :: map_set k v m'
  end.

Fixpoint map_get (k : option Z) (m : list (option Z * V)) : option V :=
  match m with
  | [] => None
  | (k', v') :: m' => if sameValueZero k k' then Some v' else map_get k m'
  end.
End YearMap.

(** ** Input records *)

Module Book.
Record t : Type := mk {
  dateEventsStart : option Z;
  dateEventsEnd : option Z;
  dateWrittenStart : option Z;
  dateWrittenEnd : option Z
}.
End Book.

Module DisplayDate.
Record t : Type := mk {
  start : option Z;
  end_ : option Z;
  isWritingDate : bool
}.
End DisplayDate.

Module Milestone.
Record t : Type := mk {
  year : Z;
  displayStart : Z;
  displayEnd : Z
}.
End Milestone.

Inductive eventType : Type :=
| type_start
| type_end
| type_milestone_start
| type_milestone_end.

Module Event.
Record t : Type := mk {
  year : option Z;
  type : eventType
}.
End Event.

(** An entry of [bookRanges] or of [milestoneRanges] (whose extra [year]
    field is never read).  The [end] of a range is read in two places, the
    comparison [year <= r.end] and the difference [r.end - r.start], and
    both read a [null] end as 0: the end is stored here as that number. *)
Module Range.
Record t : Type := mk {
  start : Z;
  end_ : Z
}.
End Range.

(** [getDisplayDate]: the events date, or the writing date as fallback. *)
Definition getDisplayDate (book : Book.t) : DisplayDate.t :=
  match Book.dateEventsStart book with
  | Some _ =>
      DisplayDate.mk (Book.dateEventsStart book) (Book.dateEventsEnd book) false
  | None =>
      DisplayDate.mk (Book.dateWrittenStart book) (Book.dateWrittenEnd book) true
  end.

(** The MILESTONES table of the module, the default second argument. *)
Definition MILESTONES : list Milestone.t :=
  [ Milestone.mk 100 96 382;
    Milestone.mk 382 370 393;
    Milestone.mk 393 388 397;
    Milestone.mk 397 393 405;
    Milestone.mk 405 400 500;
    Milestone.mk 1546 1500 1650 ].

(** ** Collecting the events (first half of [buildYearMapping]) *)

(** What one book pushes: nothing without a start date; with one, a start
    event, an end event whose year is the end date, [null] or not, and a
    range. *)
Definition bookEvents (book : Book.t) : list Event.t :=
  let date := getDisplayDate book in
  match DisplayDate.start date with
  | Some s => [Event.mk (Some s) type_start;
               Event.mk (DisplayDate.end_ date) type_end]
  | None => []
  end.

Definition bookRange (book : Book.t) : list Range.t :=
  let date := getDisplayDate book in
  match DisplayDate.start date with
  | Some s => [Range.mk s (toNumber (DisplayDate.end_ date))]
  | None => []
  end.

Definition milestoneEvents (milestone : Milestone.t) : list Event.t :=
  [ Event.mk (Some (Milestone.displayStart milestone)) type_milestone_start;
    Event.mk (Some (Milestone.displayEnd milestone)) type_milestone_end ].

Definition milestoneRange (milestone : Milestone.t) : Range.t :=
  Range.mk (Milestone.displayStart milestone) (Milestone.displayEnd milestone).

Definition bookRanges (books : list Book.t) : list Range.t :=
  flat_map bookRange books.

Definition milestoneRanges (milestones : list Milestone.t) : list Range.t :=
  map milestoneRange milestones.

(** The events in push order: every book, then every milestone. *)
Definition pushedEvents (books : list Book.t) (milestones : list Milestone.t)
  : list Event.t :=
  flat_map bookEvents books ++ flat_map milestoneEvents milestones.

(** [events.sort((a, b) => a.year - b.year)]. *)
Definition sortedEvents (books : list Book.t) (milestones : list Milestone.t)
  : list Event.t :=
  js_sort (fun a b => toNumber (Event.year a) >? toNumber (Event.year b))
    (pushedEvents books milestones).

(** [[...new Set(events.map(e => e.year)), CURRENT_YEAR].sort((a, b) => a - b)]. *)
Definition uniqueYears (CURRENT_YEAR : Z) (events : list Event.t)
  : list (option Z) :=
  js_sort (fun a b => toNumber a >? toNumber b)
    (new_Set (map Event.year events) ++ [Some CURRENT_YEAR]).

(** ** Segment weights *)

Module ActiveBooks.
Record t : Type := mk {
  count : nat;
  books : list Range.t;
  minDuration : option Z   (* [None] is [Infinity] *)
}.
End ActiveBooks.

Module ActiveMilestones.
Record t : Type := mk {
  count : nat;
  milestones : list Range.t
}.
End ActiveMilestones.

Definition activeAt (year : Z) (r : Range.t) : bool :=
  (year >=? Range.start r) && (year <=? Range.end_ r).

(** [Math.min(...l)] of a non-empty list. *)
Definition Math_min (l : list Z) : option Z :=
  match l with
  | [] => None
  | x :: l' => Some (fold_left Z.min l' x)
  end.

Definition getActiveBooksInfo (bookRanges : list Range.t) (year : Z)
  : ActiveBooks.t :=
  let active := filter (activeAt year) bookRanges in
  ActiveBooks.mk (length active) active
    (if (0 <? length active)%nat
     then Math_min (map (fun r => Range.end_ r - Range.start r) active)
     else None).

Definition getActiveMilestonesInfo (milestoneRanges : list Range.t) (year : Z)
  : ActiveMilestones.t :=
  let active := filter (activeAt year) milestoneRanges in
  ActiveMilestones.mk (length active) active.

(** [minDuration < 100], false at [Infinity]. *)
Definition under100 (minDuration : option Z) : bool :=
  match minDuration with
  | Some d => d <? 100
  | None => false
  end.

(** [Math.max(1, 4 - minDuration / 33)] for a finite [minDuration]. *)
Definition durationBonus (minDuration : option Z) : R :=
  match minDuration with
  | Some d => Rmax 1 (4 - IZR d / 33)
  | None => 1
  end.

(** The body of the build loop for [i > 0]: the weight of the segment
    between [prevYear] and [year]. *)
Definition scrollWeight (bookRanges milestoneRanges : list Range.t)
    (prevYear year : Z) : R :=
  let gap := year - prevYear in
  let scrollWeight := sqrt (Rabs (IZR gap)) in
  let midYear := round_half (prevYear + year) in
  let activeInfo := getActiveBooksInfo bookRanges midYear in
  let activeMilestones := getActiveMilestonesInfo milestoneRanges midYear in
  if (0 <? ActiveBooks.count activeInfo)%nat then
    let densityMultiplier :=
      (4 + INR (ActiveBooks.count activeInfo) * 1.5)%R in
    let densityMultiplier :=
      if under100 (ActiveBooks.minDuration activeInfo)
      then (densityMultiplier * durationBonus (ActiveBooks.minDuration activeInfo))%R
      else densityMultiplier in
    (scrollWeight * densityMultiplier)%R
  else if (0 <? ActiveMilestones.count activeMilestones)%nat then
    let milestoneMultiplier :=
      (40 + INR (ActiveMilestones.count activeMilestones) * 20)%R in
    (scrollWeight * milestoneMultiplier)%R
  else scrollWeight.

(** ** Accumulation and normalisation *)

(** The build loop from index 1 on: [yearPositions] and
    [accumulatedPosition] threaded through the remaining grid years.  The
    loop body reads [prevYear] and [year] in arithmetic only
    ([year - prevYear] and [(prevYear + year) / 2]), so it gets them as
    numbers; the [Map] gets the year itself as key. *)
Fixpoint accumulate (bookRanges milestoneRanges : list Range.t)
    (prevYear : option Z) (rest : list (option Z))
    (accumulatedPosition : R) (yearPositions : list (option Z * R))
  : list (option Z * R) * R :=
  match rest with
  | [] => (yearPositions, accumulatedPosition)
  | year :: rest' =>
      let accumulatedPosition :=
        (accumulatedPosition
         + scrollWeight bookRanges milestoneRanges
             (toNumber prevYear) (toNumber year))%R in
      accumulate bookRanges milestoneRanges year rest' accumulatedPosition
        (map_set year accumulatedPosition yearPositions)
  end.

(** The whole loop: index 0 sets position 0. *)
Definition yearPositions (bookRanges milestoneRanges : list Range.t)
    (uniqueYears : list (option Z)) : list (option Z * R) * R :=
  match uniqueYears with
  | [] => ([], 0%R)
  | year :: rest =>
      accumulate bookRanges milestoneRanges year rest 0%R (map_set year 0%R [])
  end.

Definition marginStart : R := 0.02.
Definition marginEnd : R := 0.02.
Definition usableRange : R := 1 - marginStart - marginEnd.

Definition normalized (totalAccumulated pos : R) : number :=
  js_add (Num marginStart)
    (js_mul (js_div (Num pos) (Num totalAccumulated)) (Num usableRange)).

(** [for (const [year, pos] of yearPositions) normalizedPositions.set(...)]. *)
Definition normalizedPositions (totalAccumulated : R)
    (yearPositions : list (option Z * R)) : list (option Z * number) :=
  fold_left
    (fun m entry => map_set (fst entry) (normalized totalAccumulated (snd entry)) m)
    yearPositions [].

(** [[...normalizedPositions.entries()].sort((a, b) => a[1] - b[1])]. *)
Definition sortByPosition (entries : list (option Z * number))
  : list (option Z * number) :=
  js_sort (fun a b => js_gt (js_sub (snd a) (snd b)) (Num 0)) entries.

(** [[...normalizedPositions.entries()].sort((a, b) => a[0] - b[0])]. *)
Definition sortByYear (entries : list (option Z * number))
  : list (option Z * number) :=
  js_sort (fun a b => toNumber (fst a) >? toNumber (fst b)) entries.

(** ** The two query closures

    Both read the first and last entry of a table; on an empty array that
    read throws a [TypeError], which is the [None] of the result. *)

(** What [scrollToYear] returns: a number, or the [null] of a stored key. *)
Inductive returned : Type :=
| Null
| Number (n : number).

(** A key of the table, returned as it is stored. *)
Definition storedYear (year : option Z) : returned :=
  match year with
  | Some y => Number (of_year y)
  | None => Null
  end.

(** The scan loop of [scrollToYear]: [Some] is its [return]. *)
Fixpoint scanByPosition (sortedYears : list (option Z * number))
    (scrollPos : number) : option number :=
  match sortedYears with
  | (year1, pos1) :: (((year2, pos2) :: _) as tl) =>
      if js_ge scrollPos pos1 && js_le scrollPos pos2 then
        let t := js_div (js_sub scrollPos pos1) (js_sub pos2 pos1) in
        Some (js_round
                (js_add (of_year (toNumber year1))
                   (js_mul t (js_sub (of_year (toNumber year2))
                                     (of_year (toNumber year1))))))
      else scanByPosition tl scrollPos
  | _ => None
  end.

Definition scrollToYear (sortedYears : list (option Z * number))
    (scrollPos : number) : option returned :=
  let scrollPos := js_max (Num 0) (js_min (Num 1) scrollPos) in
  match sortedYears with
  | [] => None
  | first :: _ =>
      let final := last sortedYears first in
      if js_le scrollPos (snd first) then Some (storedYear (fst first))
      else if js_ge scrollPos (snd final) then Some (storedYear (fst final))
      else match scanByPosition sortedYears scrollPos with
           | Some year => Some (Number year)
           | None => Some (storedYear (fst final))
           end
  end.

(** The scan loop of [yearToScroll]. *)
Fixpoint scanByYear (sortedByYear : list (option Z * number)) (year : Z)
  : option number :=
  match sortedByYear with
  | (year1, pos1) :: (((year2, pos2) :: _) as tl) =>
      if (year >=? toNumber year1) && (year <=? toNumber year2) then
        let t := js_div (js_sub (of_year year) (of_year (toNumber year1)))
                        (js_sub (of_year (toNumber year2))
                                (of_year (toNumber year1))) in
        Some (js_add pos1 (js_mul t (js_sub pos2 pos1)))
      else scanByYear tl year
  | _ => None
  end.

(** [yearToScroll] of a whole year. *)
Definition yearToScroll (normalizedPositions : list (option Z * number))
    (year : Z) : option number :=
  match map_get (Some year) normalizedPositions with
  | Some pos => Some pos
  | None =>
      let sortedByYear := sortByYear normalizedPositions in
      match sortedByYear with
      | [] => None
      | first :: _ =>
          let final := last sortedByYear first in
          if year <=? toNumber (fst first) then Some (snd first)
          else if year >=? toNumber (fst final) then Some (snd final)
          else match scanByYear sortedByYear year with
               | Some pos => Some pos
               | None => Some (snd final)
               end
      end
  end.

(** ** [buildYearMapping] *)

(** The returned object.  The two debugging fields exist only on the
    object of the main path. *)
Module Mapping.
Record t : Type := mk {
  scrollToYear : number -> option returned;
  yearToScroll : Z -> option number;
  minYear : option Z;
  maxYear : Z;
  events : list Event.t;
  _yearPositions : option (list (option Z * number));
  _sortedYears : option (list (option Z * number))
}.
End Mapping.

(** The object returned when there is no event at all. *)
Definition identityMapping : Mapping.t :=
  Mapping.mk
    (fun scroll =>
       Some (Number (js_round (js_add (Num (-4000)) (js_mul scroll (Num 4100))))))
    (fun year => Some (js_div (of_year (year + 4000)) (Num 4100)))
    (Some (-4000)) 100 [] None None.

(** [CURRENT_YEAR] is [new Date().getFullYear()] at module load; it is the
    first argument here.  The local [lastBookYear] is computed by the code
    and never read, and is left out. *)
Definition buildYearMapping (CURRENT_YEAR : Z)
    (books : list Book.t) (milestones : list Milestone.t) : Mapping.t :=
  let bookRanges := bookRanges books in
  let milestoneRanges := milestoneRanges milestones in
  let events := sortedEvents books milestones in
  match events with
  | [] => identityMapping
  | first :: _ =>
      let minYear := Event.year first in
      let maxYear := CURRENT_YEAR in
      let uniqueYears := uniqueYears CURRENT_YEAR events in
      let '(yearPositions, totalAccumulated) :=
        yearPositions bookRanges milestoneRanges uniqueYears in
      let normalizedPositions :=
        normalizedPositions totalAccumulated yearPositions in
      let sortedYears := sortByPosition normalizedPositions in
      Mapping.mk (scrollToYear sortedYears) (yearToScroll normalizedPositions)
        minYear maxYear events (Some normalizedPositions) (Some sortedYears)
  end.

(** The grid of a build. *)
Definition gridYears (CURRENT_YEAR : Z)
    (books : list Book.t) (milestones : list Milestone.t) : list (option Z) :=
  uniqueYears CURRENT_YEAR (sortedEvents books milestones).

(** ** The data model of the specification

    An interval of the specification has a start and an end, and a book
    has its date pair or none: a book with a start date has an end date. *)
Definition hasEnd (book : Book.t) : bool :=
  match DisplayDate.start (getDisplayDate book),
        DisplayDate.end_ (getDisplayDate book) with
  | Some _, None => false
  | _, _ => true
  end.

Definition wellDated (books : list Book.t) : bool := forallb hasEnd books.

(** ** The engine on dated events

    [Dated.buildYearMapping] is the same engine with years typed [Z]: it
    takes its events and ranges from the books that have both a start and
    an end date, so that no year is [null].  It serves the proofs only:
    lemma [buildYearMapping_dated] shows that [buildYearMapping] computes
    the same object, year for year, on every list of books that is
    [wellDated], and every property below is stated about
    [buildYearMapping]. *)
Module Dated.

(** [new Set(iterable)] over years: insertion order, first occurrence kept. *)
Definition set_add (s : list Z) (x : Z) : list Z :=
  if existsb (Z.eqb x) s then s else s ++ [x].

Definition new_Set (l : list Z) : list Z := fold_left set_add l [].

(** A [Map] keyed by year, as its entries in insertion order. *)
Section YearMap.
Context {V : Type}.

Fixpoint map_set (k : Z) (v : V) (m : list (Z * V)) : list (Z * V) :=
  match m with
  | [] => [(k, v)]
  | (k', v') :: m' =>
      if k =? k' then (k, v) :: m' else (k', v') :: map_set k v m'
  end.

Fixpoint map_get (k : Z) (m : list (Z * V)) : option V :=
  match m with
  | [] => None
  | (k', v') :: m' => if k =? k' then Some v' else map_get k m'
  end.
End YearMap.

Module Event.
Record t : Type := mk {
  year : Z;
  type : eventType
}.
End Event.

(** What one book with both dates pushes. *)
Definition bookEvents (book : Book.t) : list Event.t :=
  let date := getDisplayDate book in
  match DisplayDate.start date, DisplayDate.end_ date with
  | Some s, Some e => [Event.mk s type_start; Event.mk e type_end]
  | _, _ => []
  end.

Definition bookRange (book : Book.t) : list Range.t :=
  let date := getDisplayDate book in
  match DisplayDate.start date, DisplayDate.end_ date with
  | Some s, Some e => [Range.mk s e]
  | _, _ => []
  end.

Definition milestoneEvents (milestone : Milestone.t) : list Event.t :=
  [ Event.mk (Milestone.displayStart milestone) type_milestone_start;
    Event.mk (Milestone.displayEnd milestone) type_milestone_end ].

Definition bookRanges (books : list Book.t) : list Range.t :=
  flat_map bookRange books.

(** The events in push order: every book, then every milestone. *)
Definition pushedEvents (books : list Book.t) (milestones : list Milestone.t)
  : list Event.t :=
  flat_map bookEvents books ++ flat_map milestoneEvents milestones.

(** [events.sort((a, b) => a.year - b.year)]. *)
Definition sortedEvents (books : list Book.t) (milestones : list Milestone.t)
  : list Event.t :=
  js_sort (fun a b => Event.year a >? Event.year b) (pushedEvents books milestones).

(** [[...new Set(events.map(e => e.year)), CURRENT_YEAR].sort((a, b) => a - b)]. *)
Definition uniqueYears (CURRENT_YEAR : Z) (events : list Event.t) : list Z :=
  js_sort Z.gtb (new_Set (map Event.year events) ++ [CURRENT_YEAR]).

(** The build loop from index 1 on: [yearPositions] and
    [accumulatedPosition] threaded through the remaining grid years. *)
Fixpoint accumulate (bookRanges milestoneRanges : list Range.t)
    (prevYear : Z) (rest : list Z)
    (accumulatedPosition : R) (yearPositions : list (Z * R))
  : list (Z * R) * R :=
  match rest with
  | [] => (yearPositions, accumulatedPosition)
  | year :: rest' =>
      let accumulatedPosition :=
        (accumulatedPosition + scrollWeight bookRanges milestoneRanges prevYear year)%R in
      accumulate bookRanges milestoneRanges year rest' accumulatedPosition
        (map_set year accumulatedPosition yearPositions)
  end.

(** The whole loop: index 0 sets position 0. *)
Definition yearPositions (bookRanges milestoneRanges : list Range.t)
    (uniqueYears : list Z) : list (Z * R) * R :=
  match uniqueYears with
  | [] => ([], 0%R)
  | year :: rest =>
      accumulate bookRanges milestoneRanges year rest 0%R (map_set year 0%R [])
  end.

(** [for (const [year, pos] of yearPositions) normalizedPositions.set(...)]. *)
Definition normalizedPositions (totalAccumulated : R)
    (yearPositions : list (Z * R)) : list (Z * number) :=
  fold_left
    (fun m entry => map_set (fst entry) (normalized totalAccumulated (snd entry)) m)
    yearPositions [].

(** [[...normalizedPositions.entries()].sort((a, b) => a[1] - b[1])]. *)
Definition sortByPosition (entries : list (Z * number)) : list (Z * number) :=
  js_sort (fun a b => js_gt (js_sub (snd a) (snd b)) (Num 0)) entries.

(** [[...normalizedPositions.entries()].sort((a, b) => a[0] - b[0])]. *)
Definition sortByYear (entries : list (Z * number)) : list (Z * number) :=
  js_sort (fun a b => fst a >? fst b) entries.

(** ** The two query closures

    Both read the first and last entry of a table; on an empty array that
    read throws a [TypeError], which is the [None] of the result. *)

(** The scan loop of [scrollToYear]: [Some] is its [return]. *)
Fixpoint scanByPosition (sortedYears : list (Z * number)) (scrollPos : number)
  : option number :=
  match sortedYears with
  | (year1, pos1) :: (((year2, pos2) :: _) as tl) =>
      if js_ge scrollPos pos1 && js_le scrollPos pos2 then
        let t := js_div (js_sub scrollPos pos1) (js_sub pos2 pos1) in
        Some (js_round
                (js_add (of_year year1)
                   (js_mul t (js_sub (of_year year2) (of_year year1)))))
      else scanByPosition tl scrollPos
  | _ => None
  end.

Definition scrollToYear (sortedYears : list (Z * number)) (scrollPos : number)
  : option number :=
  let scrollPos := js_max (Num 0) (js_min (Num 1) scrollPos) in
  match sortedYears with
  | [] => None
  | first :: _ =>
      let final := last sortedYears first in
      if js_le scrollPos (snd first) then Some (of_year (fst first))
      else if js_ge scrollPos (snd final) then Some (of_year (fst final))
      else match scanByPosition sortedYears scrollPos with
           | Some year => Some year
           | None => Some (of_year (fst final))
           end
  end.

(** The scan loop of [yearToScroll]. *)
Fixpoint scanByYear (sortedByYear : list (Z * number)) (year : Z)
  : option number :=
  match sortedByYear with
  | (year1, pos1) :: (((year2, pos2) :: _) as tl) =>
      if (year >=? year1) && (year <=? year2) then
        let t := js_div (js_sub (of_year year) (of_year year1))
                        (js_sub (of_year year2) (of_year year1)) in
        Some (js_add pos1 (js_mul t (js_sub pos2 pos1)))
      else scanByYear tl year
  | _ => None
  end.

Definition yearToScroll (normalizedPositions : list (Z * number)) (year : Z)
  : option number :=
  match map_get year normalizedPositions with
  | Some pos => Some pos
  | None =>
      let sortedByYear := sortByYear normalizedPositions in
      match sortedByYear with
      | [] => None
      | first :: _ =>
          let final := last sortedByYear first in
          if year <=? fst first then Some (snd first)
          else if year >=? fst final then Some (snd final)
          else match scanByYear sortedByYear year with
               | Some pos => Some pos
               | None => Some (snd final)
               end
      end
  end.

(** ** [buildYearMapping] *)

(** The returned object.  The two debugging fields exist only on the
    object of the main path. *)
Module Mapping.
Record t : Type := mk {
  scrollToYear : number -> option number;
  yearToScroll : Z -> option number;
  minYear : Z;
  maxYear : Z;
  events : list Event.t;
  _yearPositions : option (list (Z * number));
  _sortedYears : option (list (Z * number))
}.
End Mapping.

(** The object returned when there is no event at all. *)
Definition identityMapping : Mapping.t :=
  Mapping.mk
    (fun scroll => Some (js_round (js_add (Num (-4000)) (js_mul scroll (Num 4100)))))
    (fun year => Some (js_div (of_year (year + 4000)) (Num 4100)))
    (-4000) 100 [] None None.

(** [CURRENT_YEAR] is [new Date().getFullYear()] at module load; it is the
    first argument here.  The local [lastBookYear] is computed by the code
    and never read, and is left out. *)
Definition buildYearMapping (CURRENT_YEAR : Z)
    (books : list Book.t) (milestones : list Milestone.t) : Mapping.t :=
  let bookRanges := bookRanges books in
  let milestoneRanges := milestoneRanges milestones in
  let events := sortedEvents books milestones in
  match events with
  | [] => identityMapping
  | first :: _ =>
      let minYear := Event.year first in
      let maxYear := CURRENT_YEAR in
      let uniqueYears := uniqueYears CURRENT_YEAR events in
      let '(yearPositions, totalAccumulated) :=
        yearPositions bookRanges milestoneRanges uniqueYears in
      let normalizedPositions :=
        normalizedPositions totalAccumulated yearPositions in
      let sortedYears := sortByPosition normalizedPositions in
      Mapping.mk (scrollToYear sortedYears) (yearToScroll normalizedPositions)
        minYear maxYear events (Some normalizedPositions) (Some sortedYears)
  end.

(** The grid of a build. *)
Definition gridYears (CURRENT_YEAR : Z)
    (books : list Book.t) (milestones : list Milestone.t) : list Z :=
  uniqueYears CURRENT_YEAR (sortedEvents books milestones).

End Dated.

(** A dated event and a table of whole years, as the code stores them. *)
Definition yearEvent (e : Dated.Event.t) : Event.t :=
  Event.mk (Some (Dated.Event.year e)) (Dated.Event.type e).

Definition yearTable {V : Type} (T : list (Z * V)) : list (option Z * V) :=
  map (fun e => (Some (fst e), snd e)) T.

(** ** Predicates of the specification *)

(** The keys of a table increase strictly along its entries. *)
Definition keysIncreasing {V : Type} (m : list (Z * V)) : Prop :=
  StronglySorted (fun a b => fst a < fst b) m.

(** Year and (raw, accumulated) position both increase strictly. *)
Definition lt2 (a b : Z * R) : Prop := fst a < fst b /\ (snd a < snd b)%R.

Definition increasing (T : list (Z * R)) : Prop := StronglySorted lt2 T.

(** The same for a table of normalised positions. *)
Definition js_lt2 (a b : Z * number) : Prop :=
  fst a < fst b /\ js_lt (snd a) (snd b) = true.

Definition strictlyIncreasing (N : list (Z * number)) : Prop :=
  StronglySorted js_lt2 N.

(** A table all of whose positions are finite. *)
Definition finiteTable (P : list (Z * R)) : list (Z * number) :=
  map (fun e => (fst e, Num (snd e))) P.

(** What the engine stores for a grid of whole years: either the lone
    entry of a single-year grid, or a finite table from [marginStart] to
    [1 - marginEnd] in which consecutive grid years are apart by their
    segment weight times one common positive factor. *)
Definition builtTable (br mr : list Range.t) (grid : list Z)
    (N : list (Z * number)) : Prop :=
  (exists y, N = [(y, NaN)] /\ forall g, In g grid -> g = y)
  \/
  (exists (e : Z * R) (P : list (Z * R)) (c : R),
     N = finiteTable (e :: P) /\
     increasing (e :: P) /\
     e = (hd 0 grid, marginStart) /\
     last (e :: P) e = (last grid 0, (1 - marginEnd)%R) /\
     (forall x, In x (e :: P) -> (marginStart <= snd x <= 1 - marginEnd)%R) /\
     (forall g, In g grid -> exists p, In (g, p) (e :: P)) /\
     (0 < c)%R /\
     (forall l1 a b l2, grid = l1 ++ a :: b :: l2 ->
        exists pa, In (a, pa) (e :: P) /\
                   In (b, (pa + c * scrollWeight br mr a b)%R) (e :: P))).


(** ** Reference interpolations

    The piecewise-linear functions that the two scan loops compute on a
    finite table, written by recursion on the table; the query closures
    are proved equal to them below. *)

(** The position of a year. *)
Fixpoint positionOf (P : list (Z * R)) (y : Z) : R :=
  match P with
  | [] => 0
  | (k1, p1) :: tl =>
      match tl with
      | [] => p1
      | (k2, p2) :: _ =>
          if y <=? k1 then p1
          else if y <=? k2
               then (p1 + (IZR y - IZR k1) / (IZR k2 - IZR k1) * (p2 - p1))%R
               else positionOf tl y
      end
  end.

(** The year of a position. *)
Fixpoint yearOf (P : list (Z * R)) (s : R) : Z :=
  match P with
  | [] => 0
  | (k1, p1) :: tl =>
      match tl with
      | [] => k1
      | (k2, p2) :: _ =>
          if Rleb s p1 then k1
          else if Rleb s p2
               then Zfloor (IZR k1 + (s - p1) / (p2 - p1) * (IZR k2 - IZR k1) + / 2)
               else yearOf tl s
      end
  end.

(** ** Eras and year display (data-loader.js) *)

Module Era.
Record t : Type := mk {
  id : String.string;
  name : String.string;
  start : option Z;
  end_ : option Z
}.
End Era.

Definition PRIMEVAL : Era.t :=
  Era.mk "primeval"%string "Primeval History"%string (Some (-4000)) (Some (-2100)).
Definition PATRIARCHS : Era.t :=
  Era.mk "patriarchs"%string "Patriarchal Era"%string (Some (-2100)) (Some (-1450)).
Definition EXODUS : Era.t :=
  Era.mk "exodus"%string "Exodus & Conquest"%string (Some (-1450)) (Some (-1380)).
Definition JUDGES : Era.t :=
  Era.mk "judges"%string "Age of Judges"%string (Some (-1380)) (Some (-1050)).
Definition UNITED_KINGDOM : Era.t :=
  Era.mk "united-kingdom"%string "United Kingdom"%string (Some (-1050)) (Some (-930)).
Definition DIVIDED_KINGDOM : Era.t :=
  Era.mk "divided-kingdom"%string "Divided Kingdom"%string (Some (-930)) (Some (-586)).
Definition EXILE : Era.t :=
  Era.mk "exile"%string "Babylonian Exile"%string (Some (-586)) (Some (-538)).
Definition POST_EXILE : Era.t :=
  Era.mk "post-exile"%string "Post-Exile"%string (Some (-538)) (Some (-400)).
Definition INTERTESTAMENTAL : Era.t :=
  Era.mk "intertestamental"%string "Intertestamental"%string (Some (-400)) (Some (-5)).
Definition GOSPELS : Era.t :=
  Era.mk "gospels"%string "Life of Christ"%string (Some (-5)) (Some 33).
Definition APOSTOLIC : Era.t :=
  Era.mk "apostolic"%string "Apostolic Age"%string (Some 33) (Some 100).
Definition CHURCH_AGE (CURRENT_YEAR : Z) : Era.t :=
  Era.mk "church-age"%string "Age of the Church"%string (Some 100) (Some (CURRENT_YEAR + 1)).
Definition WISDOM : Era.t :=
  Era.mk "wisdom"%string "Wisdom Literature"%string None None.

(** [Object.values(ERAS)], in the order of the object literal. *)
Definition ERAS (CURRENT_YEAR : Z) : list Era.t :=
  [ PRIMEVAL; PATRIARCHS; EXODUS; JUDGES; UNITED_KINGDOM; DIVIDED_KINGDOM;
    EXILE; POST_EXILE; INTERTESTAMENTAL; GOSPELS; APOSTOLIC;
    CHURCH_AGE CURRENT_YEAR; WISDOM ].

(** The [for ... of] loop of [getEraForYear]: [Some] is its [return]. *)
Fixpoint findEra (eras : list Era.t) (year : Z) : option Era.t :=
  match eras with
  | [] => None
  | era :: eras' =>
      match Era.start era with
      | None => findEra eras' year
      | Some s =>
          if (year >=? s) && (year <? toNumber (Era.end_ era)) then Some era
          else findEra eras' year
      end
  end.

Definition getEraForYear (CURRENT_YEAR : Z) (year : option Z) : Era.t :=
  match year with
  | None => WISDOM
  | Some year =>
      match findEra (ERAS CURRENT_YEAR) year with
      | Some era => era
      | None =>
          if year <? -2100 then PRIMEVAL
          else if year >=? 100 then CHURCH_AGE CURRENT_YEAR
          else if year >=? 33 then APOSTOLIC
          else WISDOM
      end
  end.

(** [Number.prototype.toString] on a whole number (below 10^21, where
    JavaScript switches to exponent notation). *)
Definition toString (z : Z) : String.string :=
  DecimalString.NilZero.string_of_int (Z.to_int z).

Module YearParts.
Record t : Type := mk {
  number : String.string;
  suffix : String.string
}.
End YearParts.

(** [formatYearParts]; [None] is [null] or [undefined]. *)
Definition formatYearParts (year : option Z) : YearParts.t :=
  match year with
  | None => YearParts.mk "?"%string ""%string
  | Some year =>
      if year <? 0 then YearParts.mk (toString (Z.abs year)) "BC"%string
      else if year =? 0 then YearParts.mk "1"%string "BC"%string
      else YearParts.mk (toString year) "AD"%string
  end.

(** ** Grouping books and the waypoint helpers (data-loader.js) *)

Module Group.
Record t : Type := mk {
  books : list Book.t;
  startDate : option Z;
  endDate : option Z;
  centerDate : option Z;
  era : Era.t
}.
End Group.

(** The comparator of the first sort of [groupBooksByTime], read as
    "positive": undated books go last, dated ones by start. *)
Definition laterStart (a b : Book.t) : bool :=
  match DisplayDate.start (getDisplayDate a), DisplayDate.start (getDisplayDate b) with
  | None, None => false
  | None, Some _ => true
  | Some _, None => false
  | Some sa, Some sb => sa >? sb
  end.

(** The comparator of the sort inside a group: by the centre of the
    display date, [Infinity] for an undated book. *)
Definition laterCenter (a b : Book.t) : bool :=
  let dateA := getDisplayDate a in
  let dateB := getDisplayDate b in
  match DisplayDate.start dateA, DisplayDate.start dateB with
  | None, None => false
  | None, Some _ => true
  | Some _, None => false
  | Some sa, Some sb =>
      sa + toNumber (DisplayDate.end_ dateA) >? sb + toNumber (DisplayDate.end_ dateB)
  end.

(** [groups] and the index in it of the object [currentGroup] refers to. *)
Module Grouping.
Record t : Type := mk {
  groups : list Group.t;
  currentGroup : option nat
}.
End Grouping.

Fixpoint replaceAt {A : Type} (i : nat) (x : A) (l : list A) : list A :=
  match l, i with
  | [], _ => []
  | _ :: l', O => x :: l'
  | y :: l', S i' => y :: replaceAt i' x l'
  end.

(** The new group that a dated book starts. *)
Definition startGroup (CURRENT_YEAR : Z) (book : Book.t) (date : DisplayDate.t)
    (bookCenter : Z) : Group.t :=
  Group.mk [book] (DisplayDate.start date) (DisplayDate.end_ date)
    (Some bookCenter) (getEraForYear CURRENT_YEAR (Some bookCenter)).

(** The body of [sorted.forEach]. *)
Definition groupStep (CURRENT_YEAR : Z) (st : Grouping.t) (book : Book.t)
  : Grouping.t :=
  let date := getDisplayDate book in
  match DisplayDate.start date with
  | None =>
      Grouping.mk
        (Grouping.groups st ++ [Group.mk [book] None None None WISDOM])
        (Grouping.currentGroup st)
  | Some start =>
      let bookCenter := round_half (start + toNumber (DisplayDate.end_ date)) in
      let fresh :=
        Grouping.mk
          (Grouping.groups st ++ [startGroup CURRENT_YEAR book date bookCenter])
          (Some (length (Grouping.groups st))) in
      match Grouping.currentGroup st with
      | None => fresh
      | Some i =>
          match nth_error (Grouping.groups st) i with
          | None => fresh
          | Some currentGroup =>
              match Group.startDate currentGroup with
              | None => fresh
              | Some groupStart =>
                  let groupCenter := toNumber (Group.centerDate currentGroup) in
                  let overlap := Z.abs (bookCenter - groupCenter) <? 50 in
                  if overlap && (length (Group.books currentGroup) <? 4)%nat then
                    let endDate :=
                      Z.max (toNumber (Group.endDate currentGroup))
                            (toNumber (DisplayDate.end_ date)) in
                    Grouping.mk
                      (replaceAt i
                         (Group.mk (Group.books currentGroup ++ [book])
                            (Group.startDate currentGroup) (Some endDate)
                            (Some (round_half (groupStart + endDate)))
                            (Group.era currentGroup))
                         (Grouping.groups st))
                      (Some i)
                  else fresh
              end
          end
      end
  end.

(** The last loop: the books of a group of more than one are sorted. *)
Definition sortGroup (group : Group.t) : Group.t :=
  if (1 <? length (Group.books group))%nat
  then Group.mk (js_sort laterCenter (Group.books group))
         (Group.startDate group) (Group.endDate group)
         (Group.centerDate group) (Group.era group)
  else group.

Definition groupBooksByTime (CURRENT_YEAR : Z) (books : list Book.t)
  : list Group.t :=
  let sorted := js_sort laterStart books in
  let st := fold_left (groupStep CURRENT_YEAR) sorted (Grouping.mk [] None) in
  map sortGroup (Grouping.groups st).

(** A waypoint of [interpolateYear], at a finite position. *)
Module Waypoint.
Record t : Type := mk {
  scrollPosition : R;
  year : Z
}.
End Waypoint.

(** The scan loop of [interpolateYear]. *)
Fixpoint scanWaypoints (waypoints : list Waypoint.t) (scrollPosition : R)
  : option number :=
  match waypoints with
  | current :: ((next :: _) as tl) =>
      if Rleb (Waypoint.scrollPosition current) scrollPosition
         && Rleb scrollPosition (Waypoint.scrollPosition next)
      then
        let t := js_div (Num (scrollPosition - Waypoint.scrollPosition current))
                   (Num (Waypoint.scrollPosition next
                         - Waypoint.scrollPosition current)) in
        Some (js_round
                (js_add (of_year (Waypoint.year current))
                   (js_mul t (of_year (Waypoint.year next - Waypoint.year current)))))
      else scanWaypoints tl scrollPosition
  | _ => None
  end.

Definition interpolateYear (scrollPosition : R) (waypoints : list Waypoint.t)
  : number :=
  match waypoints with
  | [] => of_year (-4000)
  | first :: _ =>
      let final := last waypoints first in
      if Rleb scrollPosition (Waypoint.scrollPosition first)
      then of_year (Waypoint.year first)
      else if Rleb (Waypoint.scrollPosition final) scrollPosition
      then of_year (Waypoint.year final)
      else match scanWaypoints waypoints scrollPosition with
           | Some year => year
           | None => of_year (Waypoint.year final)
           end
  end.

(** ** Scroll positions of the groups (data-loader.js) *)

(** [Math.sqrt], [Math.abs] and [Math.sign] on the numbers of the model. *)
Definition Math_sqrt (a : number) : number :=
  match a with
  | Num x => if Rltb x 0 then NaN else Num (sqrt x)
  | PInf => PInf
  | NInf => NaN
  | NaN => NaN
  end.

Definition Math_abs (a : number) : number :=
  match a with
  | Num x => Num (Rabs x)
  | PInf => PInf
  | NInf => PInf
  | NaN => NaN
  end.

Definition Math_sign (a : number) : number :=
  match a with
  | Num x => if Rltb 0 x then Num 1 else if Rltb x 0 then Num (-1) else Num 0
  | PInf => Num 1
  | NInf => Num (-1)
  | NaN => NaN
  end.

(** [Math.max(...l)] of a list of numbers. *)
Definition Math_max (l : list number) : number := fold_left js_max l NInf.

(** [array.map((x, i) => f x i)], the index counted from [i]. *)
Fixpoint mapi_from {A B : Type} (f : A -> nat -> B) (i : nat) (l : list A)
  : list B :=
  match l with
  | [] => []
  | x :: l' => f x i :: mapi_from f (S i) l'
  end.

Definition mapi {A B : Type} (f : A -> nat -> B) (l : list A) : list B :=
  mapi_from f 0 l.

(** A group with the [scrollPosition] that [calculateScrollPositions]
    computes for it, whatever number that is. *)
Module Placed.
Record t : Type := mk {
  group : Group.t;
  scrollPosition : number
}.
End Placed.

Definition isDated (g : Group.t) : bool :=
  match Group.centerDate g with
  | Some _ => true
  | None => false
  end.

(** [maxDate - minDate] over the dated groups [first :: rest]. *)
Definition totalYears (first : Group.t) (rest : list Group.t) : Z :=
  let minDate :=
    fold_left Z.min (map (fun g => toNumber (Group.startDate g)) rest)
      (toNumber (Group.startDate first)) in
  let maxDate :=
    fold_left Z.max (map (fun g => toNumber (Group.endDate g)) rest)
      (toNumber (Group.endDate first)) in
  maxDate - minDate.

Definition compressedGap (gap totalYears : Z) : number :=
  let normalizedGap := js_div (of_year gap) (of_year totalYears) in
  js_mul (js_mul (Math_sqrt (Math_abs normalizedGap)) (Math_sign normalizedGap))
    (Num 0.5).

(** The loop of [calculateScrollPositions] from its second round on. *)
Fixpoint positionsFrom (totalYears : Z) (prevGroup : Group.t)
    (accumulatedPosition : number) (datedGroups : list Group.t) : list Placed.t :=
  match datedGroups with
  | [] => []
  | group :: rest =>
      let gap :=
        toNumber (Group.centerDate group) - toNumber (Group.centerDate prevGroup) in
      let accumulatedPosition :=
        js_add accumulatedPosition
          (js_max (Num 0.02) (compressedGap gap totalYears)) in
      Placed.mk group (js_min (Num 0.85) (js_add (Num 0.05) accumulatedPosition))
      :: positionsFrom totalYears group accumulatedPosition rest
  end.

Definition rescale (scale : number) (p : Placed.t) : Placed.t :=
  Placed.mk (Placed.group p)
    (js_add (Num 0.05) (js_mul (js_sub (Placed.scrollPosition p) (Num 0.05)) scale)).

Definition calculateScrollPositions (groups : list Group.t) : list Placed.t :=
  let datedGroups := filter isDated groups in
  let undatedGroups := filter (fun g => negb (isDated g)) groups in
  match datedGroups with
  | [] =>
      mapi (fun g i => Placed.mk g (js_div (Num (INR i)) (Num (INR (length groups)))))
        groups
  | first :: rest =>
      let positions :=
        Placed.mk first (Num 0.05)
        :: positionsFrom (totalYears first rest) first (Num 0) rest in
      let maxPos := Math_max (map Placed.scrollPosition positions) in
      let scale := js_div (Num 0.8) maxPos in
      map (rescale scale) positions
      ++ mapi (fun g i => Placed.mk g (Num (0.88 + INR i * 0.03))) undatedGroups
  end.

(** ** The waypoints of the groups (data-loader.js) *)

(** A waypoint as [buildScrollToYearMap] builds it: its position is the
    number that the group carries, whatever it is. *)
Module RawWaypoint.
Record t : Type := mk {
  scrollPosition : number;
  year : Z
}.
End RawWaypoint.

Definition groupWaypoint (group : Placed.t) : list RawWaypoint.t :=
  match Group.centerDate (Placed.group group) with
  | Some centerDate => [RawWaypoint.mk (Placed.scrollPosition group) centerDate]
  | None => []
  end.

(** [buildScrollToYearMap], on the groups that [calculateScrollPositions]
    returns.  With a [NaN] position the comparator of the sort is not
    consistent and the order that an engine produces is implementation
    defined; [js_sort] is then one possible order. *)
Definition buildScrollToYearMap (groups : list Placed.t) : list RawWaypoint.t :=
  js_sort
    (fun a b =>
       js_gt (js_sub (RawWaypoint.scrollPosition a) (RawWaypoint.scrollPosition b))
         (Num 0))
    ([RawWaypoint.mk (Num 0) (-4000)] ++ flat_map groupWaypoint groups
     ++ [RawWaypoint.mk (Num 1) 100]).

(** A waypoint at a finite position, as it is built. *)
Definition finiteWaypoint (w : Waypoint.t) : RawWaypoint.t :=
  RawWaypoint.mk (Num (Waypoint.scrollPosition w)) (Waypoint.year w).

(** The waypoint of a group whose position is finite. *)
Definition finiteGroupWaypoint (group : Placed.t) : list Waypoint.t :=
  match Group.centerDate (Placed.group group), Placed.scrollPosition group with
  | Some centerDate, Num x => [Waypoint.mk x centerDate]
  | _, _ => []
  end.

(** ** The book manager (book-manager.js) *)

(** A [Map] with keys of any type with a decidable equality, as its
    entries in insertion order. *)
Section Assoc.
Context {K V : Type} (eqb : K -> K -> bool).

Fixpoint assoc_get (k : K) (m : list (K * V)) : option V :=
  match m with
  | [] => None
  | (k', v') :: m' => if eqb k k' then Some v' else assoc_get k m'
  end.

Fixpoint assoc_set (k : K) (v : V) (m : list (K * V)) : list (K * V) :=
  match m with
  | [] => [(k, v)]
  | (k', v') :: m' =>
      if eqb k k' then (k, v) :: m' else (k', v') :: assoc_set k v m'
  end.

Definition assoc_delete (k : K) (m : list (K * V)) : list (K * V) :=
  filter (fun e => negb (eqb k (fst e))) m.

Definition assoc_has (k : K) (m : list (K * V)) : bool :=
  match assoc_get k m with
  | Some _ => true
  | None => false
  end.
End Assoc.

Definition LEAD_YEARS_MIN : Z := 1.
Definition LEAD_YEARS_MAX : Z := 20.
Definition SCROLL_RANGE_MIN : Z := 30.
Definition SCROLL_RANGE_MAX : Z := 120.
Definition GRID_COLUMNS : Z := 4.
Definition GRID_ROWS : Z := 3.
Definition TOTAL_CELLS : Z := GRID_COLUMNS * GRID_ROWS.

(** A book object with its identifier. *)
Module IdBook.
Record t : Type := mk {
  id : String.string;
  dates : Book.t
}.
End IdBook.

(** An element of the first-pass array [bookRanges] of [preprocessBooks]. *)
Module DatedBook.
Record t : Type := mk {
  book : IdBook.t;
  start : Z;
  end_ : option Z;
  isWritingDate : bool
}.
End DatedBook.

Module BookEntry.
Record t : Type := mk {
  book : IdBook.t;
  start : Z;
  end_ : option Z;
  isWritingDate : bool;
  era : Era.t;
  leadYears : Z;
  scrollRange : Z;
  entryStart : Z;
  exitEnd : Z
}.
End BookEntry.

Definition datedBook (book : IdBook.t) : list DatedBook.t :=
  let date := getDisplayDate (IdBook.dates book) in
  match DisplayDate.start date with
  | Some start =>
      [DatedBook.mk book start (DisplayDate.end_ date) (DisplayDate.isWritingDate date)]
  | None => []
  end.

(** [Math.min(1, overlapCount / 8)]. *)
Definition overlapFactor (overlapCount : nat) : R :=
  Rmin 1 (INR overlapCount / 8).

(** [Math.round(MAX - overlapFactor * (MAX - MIN))]. *)
Definition scaledByOverlap (lo hi : Z) (overlapCount : nat) : Z :=
  Zfloor (IZR hi - overlapFactor overlapCount * (IZR hi - IZR lo) + / 2).

Definition overlaps (entry other : DatedBook.t) : bool :=
  negb (String.eqb (IdBook.id (DatedBook.book other))
          (IdBook.id (DatedBook.book entry)))
  && (DatedBook.start other <=? toNumber (DatedBook.end_ entry))
  && (toNumber (DatedBook.end_ other) >=? DatedBook.start entry).

Definition processBook (CURRENT_YEAR : Z) (bookRanges : list DatedBook.t)
    (entry : DatedBook.t) : BookEntry.t :=
  let start := DatedBook.start entry in
  let end_ := DatedBook.end_ entry in
  let centerYear := round_half (start + toNumber end_) in
  let era := getEraForYear CURRENT_YEAR (Some centerYear) in
  let overlapCount := length (filter (overlaps entry) bookRanges) in
  let leadYears := scaledByOverlap LEAD_YEARS_MIN LEAD_YEARS_MAX overlapCount in
  let scrollRange := scaledByOverlap SCROLL_RANGE_MIN SCROLL_RANGE_MAX overlapCount in
  BookEntry.mk (DatedBook.book entry) start end_ (DatedBook.isWritingDate entry)
    era leadYears scrollRange (start - leadYears) (toNumber end_ + leadYears).

Definition preprocessBooks (CURRENT_YEAR : Z) (books : list IdBook.t)
  : list BookEntry.t :=
  let bookRanges := flat_map datedBook books in
  js_sort (fun a b => BookEntry.start a >? BookEntry.start b)
    (map (processBook CURRENT_YEAR bookRanges) bookRanges).

Inductive phase : Type :=
| entering
| visible
| exiting.

Module Position.
Record t : Type := mk {
  translateY : number;
  opacity : number;
  phase_ : phase
}.
End Position.

Definition calculatePosition (year : Z) (entry : BookEntry.t) : Position.t :=
  let start := BookEntry.start entry in
  let end_ := toNumber (BookEntry.end_ entry) in
  let leadYears := BookEntry.leadYears entry in
  let scrollRange := BookEntry.scrollRange entry in
  if year <? start then
    let progress := js_div (of_year (year - (start - leadYears))) (of_year leadYears) in
    Position.mk (js_mul (js_sub (Num 1) progress) (of_year scrollRange))
      (js_min (Num 1) (js_mul progress (Num 1.5)))
      entering
  else if (year >=? start) && (year <=? end_) then
    Position.mk (Num 0) (Num 1) visible
  else if year >? end_ then
    let progress := js_div (of_year (year - end_)) (of_year leadYears) in
    Position.mk (js_mul (js_neg progress) (of_year scrollRange))
      (js_max (Num 0) (js_sub (Num 1) (js_mul progress (Num 1.5))))
      exiting
  else Position.mk (Num 0) (Num 1) visible.

(** The two maps of the manager; of a [visibleBooks] entry only the cell
    is kept (the DOM element, the book and the era play no role in the
    bookkeeping). *)
Module Manager.
Record t : Type := mk {
  visibleBooks : list (String.string * Z);
  occupiedCells : list (Z * String.string)
}.
End Manager.

(** The cell indices [0 .. TOTAL_CELLS - 1] that the loop of
    [findAvailableCell] visits. *)
Definition cellIndices : list Z :=
  map Z.of_nat (seq 0 (Z.to_nat TOTAL_CELLS)).

Definition findAvailableCell (st : Manager.t) : option Z :=
  find (fun i => negb (assoc_has Z.eqb i (Manager.occupiedCells st))) cellIndices.

Module GridPosition.
Record t : Type := mk {
  row : Z;
  column : Z
}.
End GridPosition.

(** [Math.floor(cellIndex / GRID_COLUMNS) + 1] and
    [(cellIndex % GRID_COLUMNS) + 1]; the remainder of JavaScript takes
    the sign of the dividend. *)
Definition cellToGridPosition (cellIndex : Z) : GridPosition.t :=
  GridPosition.mk (cellIndex / GRID_COLUMNS + 1) (Z.rem cellIndex GRID_COLUMNS + 1).

Definition addBook (st : Manager.t) (bookId : String.string) : Manager.t :=
  match findAvailableCell st with
  | None => st
  | Some cell =>
      Manager.mk (assoc_set String.eqb bookId cell (Manager.visibleBooks st))
        (assoc_set Z.eqb cell bookId (Manager.occupiedCells st))
  end.

Definition removeBook (st : Manager.t) (bookId : String.string) : Manager.t :=
  match assoc_get String.eqb bookId (Manager.visibleBooks st) with
  | None => st
  | Some cell =>
      Manager.mk (assoc_delete String.eqb bookId (Manager.visibleBooks st))
        (assoc_delete Z.eqb cell (Manager.occupiedCells st))
  end.

Definition inRange (year : Z) (entry : BookEntry.t) : bool :=
  (year >=? BookEntry.entryStart entry) && (year <=? BookEntry.exitEnd entry).

(** The set [shouldBeVisible]. *)
Definition shouldBeVisible (booksByDate : list BookEntry.t) (year : Z)
  : list String.string :=
  map (fun entry => IdBook.id (BookEntry.book entry))
    (filter (inRange year) booksByDate).

Definition setHas (s : list String.string) (x : String.string) : bool :=
  existsb (String.eqb x) s.

(** The last loop of [updateForYear], without the styling of the card. *)
Definition showEntry (should : list String.string) (st : Manager.t)
    (entry : BookEntry.t) : Manager.t :=
  let bookId := IdBook.id (BookEntry.book entry) in
  if negb (setHas should bookId) then st
  else if negb (assoc_has String.eqb bookId (Manager.visibleBooks st))
       then addBook st bookId
       else st.

Definition updateForYear (booksByDate : list BookEntry.t) (year : Z)
    (st : Manager.t) : Manager.t :=
  let should := shouldBeVisible booksByDate year in
  let toRemove :=
    filter (fun bookId => negb (setHas should bookId))
      (map fst (Manager.visibleBooks st)) in
  let st := fold_left removeBook toRemove st in
  fold_left (showEntry should) booksByDate st.

(** The two maps of the manager mirror each other, and every occupied
    cell is a cell of the grid. *)
Definition consistent (st : Manager.t) : Prop :=
  (forall bookId cell,
      assoc_get String.eqb bookId (Manager.visibleBooks st) = Some cell <->
      assoc_get Z.eqb cell (Manager.occupiedCells st) = Some bookId) /\
  (forall cell bookId,
      assoc_get Z.eqb cell (Manager.occupiedCells st) = Some bookId ->
      0 <= cell < TOTAL_CELLS).

(** What every group of [groupBooksByTime] satisfies: one to four
    books; an undated group (null [centerDate]) is a single undated book,
    a dated group holds dated books only. *)
Definition groupOK (g : Group.t) : Prop :=
  (1 <= length (Group.books g) <= 4)%nat /\
  match Group.centerDate g with
  | None =>
      Group.startDate g = None /\
      exists b, Group.books g = [b] /\ DisplayDate.start (getDisplayDate b) = None
  | Some _ =>
      Group.startDate g <> None /\
      forall b, In b (Group.books g) -> DisplayDate.start (getDisplayDate b) <> None
  end.

(** ** The milestone cards (milestone-card-manager.js) *)

(** A milestone object with its identifier. *)
Module IdMilestone.
Record t : Type := mk {
  id : String.string;
  milestone : Milestone.t
}.
End IdMilestone.

(** The MILESTONES table with the identifiers of its objects. *)
Definition MILESTONE_CARDS : list IdMilestone.t :=
  [ IdMilestone.mk "living-tradition"%string (Milestone.mk 100 96 382);
    IdMilestone.mk "rome-382"%string (Milestone.mk 382 370 393);
    IdMilestone.mk "hippo-393"%string (Milestone.mk 393 388 397);
    IdMilestone.mk "carthage-397"%string (Milestone.mk 397 393 405);
    IdMilestone.mk "innocent-405"%string (Milestone.mk 405 400 500);
    IdMilestone.mk "trent-1546"%string (Milestone.mk 1546 1500 1650) ].

Module MilestoneCardManager.

Definition LEAD_YEARS : Z := 15.

(** [visibleMilestones]: of an entry the milestone and its index are kept. *)
Definition cards : Type := list (String.string * (IdMilestone.t * nat)).

Definition addMilestoneCard (milestone : IdMilestone.t) (index : nat)
    (visibleMilestones : cards) : cards :=
  assoc_set String.eqb (IdMilestone.id milestone) (milestone, index)
    visibleMilestones.

Definition removeMilestoneCard (milestoneId : String.string)
    (visibleMilestones : cards) : cards :=
  match assoc_get String.eqb milestoneId visibleMilestones with
  | None => visibleMilestones
  | Some _ => assoc_delete String.eqb milestoneId visibleMilestones
  end.

(** One round of the loop of [updateForYear]. *)
Definition checkMilestone (year : Z) (visibleMilestones : cards)
    (milestone : IdMilestone.t) (i : nat) : cards :=
  let entryStart := Milestone.year (IdMilestone.milestone milestone) - LEAD_YEARS in
  let shouldBeVisible := year >=? entryStart in
  let isCurrentlyVisible :=
    assoc_has String.eqb (IdMilestone.id milestone) visibleMilestones in
  if shouldBeVisible && negb isCurrentlyVisible
  then addMilestoneCard milestone i visibleMilestones
  else if negb shouldBeVisible && isCurrentlyVisible
  then removeMilestoneCard (IdMilestone.id milestone) visibleMilestones
  else visibleMilestones.

Fixpoint checkFrom (year : Z) (i : nat) (milestones : list IdMilestone.t)
    (visibleMilestones : cards) : cards :=
  match milestones with
  | [] => visibleMilestones
  | milestone :: rest =>
      checkFrom year (S i) rest (checkMilestone year visibleMilestones milestone i)
  end.

(** The bookkeeping of [updateForYear]; the styles that
    [updateAllPositions] then writes do not change the map. *)
Definition updateForYear (milestones : list IdMilestone.t) (year : Z)
    (visibleMilestones : cards) : cards :=
  checkFrom year 0 milestones visibleMilestones.

End MilestoneCardManager.

(** ** The timeline dot (timeline-renderer.js) *)

Module TimelineRenderer.

(** The [topPercent] that [updateDotPosition] writes, for a renderer whose
    range was set to [minYear] and [maxYear]. *)
Definition updateDotPosition (minYear maxYear : Z) (year : number) : number :=
  let progress :=
    js_div (js_sub year (of_year minYear))
      (js_sub (of_year maxYear) (of_year minYear)) in
  let clampedProgress := js_max (Num 0) (js_min (Num 1) progress) in
  js_add (Num 15) (js_mul clampedProgress (Num 70)).

End TimelineRenderer.

(** * Properties of the engine on dated events *)

(** ** Sorting *)

Section SortFacts.
Context {A : Type} (gtb : A -> A -> bool).

Lemma insert_perm (x : A) (l : list A) :
  Permutation (insert gtb x l) (x :: l).
Proof.
  induction l as [|y l IH]; simpl; [reflexivity|].
  destruct (gtb x y); [|reflexivity].
  rewrite IH. apply perm_swap.
Qed.

Lemma js_sort_perm (l : list A) : Permutation (js_sort gtb l) l.
Proof.
  induction l as [|x l IH]; simpl; [reflexivity|].
  rewrite insert_perm. now constructor.
Qed.

(** Sorting an array that no comparison wants to reorder leaves it as is. *)
Lemma js_sort_sorted (l : list A) :
  StronglySorted (fun a b => gtb a b = false) l -> js_sort gtb l = l.
Proof.
  induction 1 as [|x l Hs IH Hx]; simpl; [reflexivity|].
  rewrite IH. destruct l as [|y l]; simpl; [reflexivity|].
  inversion Hx as [|? ? Hxy _]; subst. now rewrite Hxy.
Qed.

Lemma js_sort_nil (l : list A) : js_sort gtb l = [] -> l = [].
Proof.
  intros H. apply Permutation_nil. rewrite <- H. apply js_sort_perm.
Qed.
End SortFacts.

Section KeySort.
Context {A : Type} (key : A -> Z).

Lemma insert_key_sorted (x : A) (l : list A) :
  StronglySorted (fun a b => key a <= key b) l ->
  StronglySorted (fun a b => key a <= key b)
    (insert (fun a b => key a >? key b) x l).
Proof.
  induction 1 as [|y l Hs IH Hy]; cbn [insert].
  - repeat constructor.
  - destruct (Z.gtb_spec (key x) (key y)) as [Hgt|Hle].
    + constructor; [exact IH|].
      rewrite insert_perm.
      constructor; [lia | exact Hy].
    + constructor; [now constructor|].
      constructor; [exact Hle|].
      eapply Forall_impl; [|exact Hy]. cbv beta. intros; lia.
Qed.

Lemma js_sort_key_sorted (l : list A) :
  StronglySorted (fun a b => key a <= key b)
    (js_sort (fun a b => key a >? key b) l).
Proof.
  induction l as [|x l IH]; cbn [js_sort]; [constructor|].
  now apply insert_key_sorted.
Qed.
End KeySort.



Lemma last_In {A : Type} (x : A) (l : list A) (d : A) : In (last (x :: l) d) (x :: l).
Proof.
  revert x. induction l as [|y l IH]; intros x; [now left|].
  right. apply (IH y).
Qed.

(** ** The year grid *)

Lemma set_add_In (s : list Z) (x y : Z) :
  In y (Dated.set_add s x) <-> In y s \/ y = x.
Proof.
  unfold Dated.set_add. destruct (existsb (Z.eqb x) s) eqn:E.
  - apply existsb_exists in E as (z & Hz & Hxz). apply Z.eqb_eq in Hxz. subst z.
    split; [tauto|]. intros [H| ->]; assumption.
  - rewrite in_app_iff. simpl. intuition congruence.
Qed.

Lemma new_Set_In (l : list Z) (y : Z) : In y (Dated.new_Set l) <-> In y l.
Proof.
  unfold Dated.new_Set.
  assert (G : forall s, In y (fold_left Dated.set_add l s) <-> In y s \/ In y l).
  { induction l as [|x l IH]; intros s; simpl; [tauto|].
    rewrite IH, set_add_In. intuition congruence. }
  rewrite G. simpl. tauto.
Qed.

Lemma uniqueYears_In (CURRENT_YEAR : Z) (events : list Dated.Event.t) (y : Z) :
  In y (Dated.uniqueYears CURRENT_YEAR events) <->
  In y (map Dated.Event.year events) \/ y = CURRENT_YEAR.
Proof.
  unfold Dated.uniqueYears. split.
  - intros H. apply (Permutation_in _ (js_sort_perm _ _)) in H.
    rewrite in_app_iff, new_Set_In in H. simpl in H. intuition congruence.
  - intros H. apply (Permutation_in _ (Permutation_sym (js_sort_perm _ _))).
    rewrite in_app_iff, new_Set_In. simpl. intuition congruence.
Qed.

Lemma uniqueYears_sorted (CURRENT_YEAR : Z) (events : list Dated.Event.t) :
  StronglySorted Z.le (Dated.uniqueYears CURRENT_YEAR events).
Proof. apply (js_sort_key_sorted (fun y : Z => y)). Qed.

Lemma uniqueYears_not_nil (CURRENT_YEAR : Z) (events : list Dated.Event.t) :
  Dated.uniqueYears CURRENT_YEAR events <> [].
Proof.
  intros H. apply js_sort_nil in H. now destruct (Dated.new_Set _).
Qed.

Lemma sortedEvents_sorted (books : list Book.t) (milestones : list Milestone.t) :
  StronglySorted (fun a b => Dated.Event.year a <= Dated.Event.year b)
    (Dated.sortedEvents books milestones).
Proof. apply (js_sort_key_sorted Dated.Event.year). Qed.

(** ** Sorted lists and year-keyed maps *)

Section SortedFacts.
Context {A : Type} (R : A -> A -> Prop).

Lemma SSorted_app_inv (l1 l2 : list A) :
  StronglySorted R (l1 ++ l2) ->
  StronglySorted R l1 /\ StronglySorted R l2 /\
  (forall x y, In x l1 -> In y l2 -> R x y).
Proof.
  induction l1 as [|a l1 IH]; simpl; intros H.
  - repeat split; [constructor | exact H | contradiction].
  - inversion H as [|? ? Hs Ha]; subst.
    destruct (IH Hs) as (H1 & H2 & H3).
    rewrite Forall_app in Ha. destruct Ha as [Ha1 Ha2].
    repeat split; [now constructor | exact H2 |].
    intros x y [<-|Hx] Hy; [|now apply H3].
    rewrite Forall_forall in Ha2. now apply Ha2.
Qed.

Lemma SSorted_app (l1 l2 : list A) :
  StronglySorted R l1 -> StronglySorted R l2 ->
  (forall x y, In x l1 -> In y l2 -> R x y) ->
  StronglySorted R (l1 ++ l2).
Proof.
  induction 1 as [|a l1 Hs IH Ha]; simpl; intros H2 H3; [exact H2|].
  constructor.
  - apply IH; [exact H2|]. intros x y Hx Hy. apply H3; [now right | exact Hy].
  - rewrite Forall_app. split; [exact Ha|].
    rewrite Forall_forall. intros y Hy. apply H3; [now left | exact Hy].
Qed.

Lemma SSorted_In (l : list A) (x y : A) :
  StronglySorted R l -> In x l -> In y l -> x = y \/ R x y \/ R y x.
Proof.
  induction 1 as [|a l Hs IH Ha]; intros Hx Hy; [contradiction|].
  rewrite Forall_forall in Ha.
  destruct Hx as [<-|Hx], Hy as [<-|Hy]; auto.
Qed.
End SortedFacts.

Lemma SSorted_weaken {A : Type} (R1 R2 : A -> A -> Prop) (l : list A) :
  (forall x y, R1 x y -> R2 x y) -> StronglySorted R1 l -> StronglySorted R2 l.
Proof.
  intros HR. induction 1 as [|a l Hs IH Ha]; constructor; [exact IH|].
  eapply Forall_impl; [|exact Ha]. intros; now apply HR.
Qed.

Section MapFacts.
Context {V : Type}.

Lemma map_set_fresh (k : Z) (v : V) (m : list (Z * V)) :
  (forall e, In e m -> fst e <> k) -> Dated.map_set k v m = m ++ [(k, v)].
Proof.
  induction m as [|[k' v'] m IH]; simpl; intros H; [reflexivity|].
  destruct (Z.eqb_spec k k') as [->|_].
  - exfalso. now apply (H (k', v')); [left|].
  - f_equal. apply IH. intros e He. apply H. now right.
Qed.

Lemma map_set_last (k : Z) (v v0 : V) (m : list (Z * V)) :
  (forall e, In e m -> fst e <> k) ->
  Dated.map_set k v (m ++ [(k, v0)]) = m ++ [(k, v)].
Proof.
  induction m as [|[k' v'] m IH]; simpl; intros H.
  - now rewrite Z.eqb_refl.
  - destruct (Z.eqb_spec k k') as [->|_].
    + exfalso. now apply (H (k', v')); [left|].
    + f_equal. apply IH. intros e He. apply H. now right.
Qed.

Lemma map_get_In (k : Z) (v : V) (m : list (Z * V)) :
  keysIncreasing m -> In (k, v) m -> Dated.map_get k m = Some v.
Proof.
  induction 1 as [|[k' v'] m Hs IH Ha]; intros Hin; [contradiction|].
  simpl. destruct Hin as [E|Hin].
  - inversion E; subst. now rewrite Z.eqb_refl.
  - rewrite Forall_forall in Ha. specialize (Ha _ Hin). simpl in Ha.
    destruct (Z.eqb_spec k k'); [lia | now apply IH].
Qed.

End MapFacts.

(** ** Segment weights *)

Lemma fold_min_spec (l : list Z) (x : Z) :
  (fold_left Z.min l x = x \/ In (fold_left Z.min l x) l) /\
  fold_left Z.min l x <= x /\
  (forall z, In z l -> fold_left Z.min l x <= z).
Proof.
  revert x. induction l as [|y l IH]; intros x; simpl.
  - split; [now left|]. split; [lia | contradiction].
  - destruct (IH (Z.min x y)) as (Hin & Hle & Hall).
    split; [|split].
    + destruct Hin as [Hin|Hin]; [|now right; right].
      rewrite Hin. destruct (Z.min_spec x y) as [[_ E]|[_ E]]; rewrite E; auto.
    + lia.
    + intros z [<-|Hz]; [lia | now apply Hall].
Qed.

Lemma Math_min_spec (l : list Z) (d : Z) :
  Math_min l = Some d -> In d l /\ forall x, In x l -> d <= x.
Proof.
  destruct l as [|x l]; simpl; [discriminate|].
  intros E. inversion E as [E']. clear E.
  destruct (fold_min_spec l x) as (Hin & Hle & Hall).
  split.
  - destruct Hin as [->|Hin]; [now left | now right].
  - intros z [<-|Hz]; [exact Hle | now apply Hall].
Qed.

Lemma durationBonus_ge_1 (d : option Z) : (1 <= durationBonus d)%R.
Proof. destruct d; simpl; [apply Rmax_l | lra]. Qed.

(** Every branch of the loop body multiplies the base weight by at least 1. *)
Lemma scrollWeight_factor (br mr : list Range.t) (prevYear year : Z) :
  exists M : R, (1 <= M)%R /\
    scrollWeight br mr prevYear year =
    (sqrt (Rabs (IZR (year - prevYear))) * M)%R.
Proof.
  unfold scrollWeight.
  set (info := getActiveBooksInfo br _). set (ms := getActiveMilestonesInfo mr _).
  destruct (0 <? ActiveBooks.count info)%nat.
  - assert (Hn := pos_INR (ActiveBooks.count info)).
    destruct (under100 _).
    + eexists; split; [|reflexivity].
      assert (Hd := durationBonus_ge_1 (ActiveBooks.minDuration info)). nra.
    + eexists; split; [|reflexivity]. lra.
  - destruct (0 <? ActiveMilestones.count ms)%nat.
    + assert (Hn := pos_INR (ActiveMilestones.count ms)).
      eexists; split; [|reflexivity]. lra.
    + exists 1%R. split; [lra | ring].
Qed.

Lemma scrollWeight_same (br mr : list Range.t) (year : Z) :
  scrollWeight br mr year year = 0%R.
Proof.
  destruct (scrollWeight_factor br mr year year) as (M & _ & ->).
  rewrite Z.sub_diag, Rabs_R0, sqrt_0. ring.
Qed.

Lemma sqrt_gap_pos (prevYear year : Z) :
  prevYear <> year -> (0 < sqrt (Rabs (IZR (year - prevYear))))%R.
Proof.
  intros H. apply sqrt_lt_R0. apply Rabs_pos_lt.
  apply not_0_IZR. lia.
Qed.

Lemma scrollWeight_pos (br mr : list Range.t) (prevYear year : Z) :
  prevYear < year -> (0 < scrollWeight br mr prevYear year)%R.
Proof.
  intros H. destruct (scrollWeight_factor br mr prevYear year) as (M & HM & ->).
  assert (Hs := sqrt_gap_pos prevYear year ltac:(lia)). nra.
Qed.

(** ** The accumulated table *)

Lemma increasing_keys (T : list (Z * R)) : increasing T -> keysIncreasing T.
Proof. apply SSorted_weaken. now intros x y [H _]. Qed.

Lemma lt2_trans (a b c : Z * R) : lt2 a b -> lt2 b c -> lt2 a c.
Proof. unfold lt2. intros [H1 H2] [H3 H4]. split; [lia | lra]. Qed.

Lemma increasing_snoc (T0 : list (Z * R)) (e e' : Z * R) :
  increasing (T0 ++ [e]) -> lt2 e e' -> increasing ((T0 ++ [e]) ++ [e']).
Proof.
  intros H He. apply SSorted_app; [exact H | repeat constructor |].
  intros x y Hx [<-|[]]. apply SSorted_app_inv in H as (_ & _ & H3).
  apply in_app_iff in Hx as [Hx|[<-|[]]]; [|exact He].
  eapply lt2_trans; [|exact He]. apply H3; [exact Hx | now left].
Qed.

Lemma increasing_last_fresh (T0 : list (Z * R)) (k : Z) (v : R) :
  increasing (T0 ++ [(k, v)]) -> forall e, In e T0 -> fst e <> k.
Proof.
  intros H e He. apply SSorted_app_inv in H as (_ & _ & H3).
  destruct (H3 e (k, v) He (or_introl eq_refl)) as [Hlt _]. simpl in Hlt. lia.
Qed.

Lemma last_cons {A : Type} (x d : A) (l : list A) : last (x :: l) d = last l x.
Proof.
  revert x d. induction l as [|y l IH]; intros x d; [reflexivity|].
  change (last (x :: y :: l) d) with (last (y :: l) d).
  change (last (y :: l) x) with (last (y :: l) x). now rewrite !IH.
Qed.

(** The loop invariant: the table ends with the entry of [prevYear], grows
    only at its end, and stays strictly increasing in year and position;
    every later grid year gets an entry, and consecutive grid years differ
    in position by the weight of their segment. *)
Lemma accumulate_spec (br mr : list Range.t) (rest : list Z) :
  forall (prev : Z) (acc : R) (T0 : list (Z * R)),
    increasing (T0 ++ [(prev, acc)]) ->
    StronglySorted Z.le (prev :: rest) ->
    exists (T1 ext : list (Z * R)) (total : R),
      let T' := T1 ++ [(last rest prev, total)] in
      Dated.accumulate br mr prev rest acc (T0 ++ [(prev, acc)]) = (T', total) /\
      increasing T' /\
      T' = (T0 ++ [(prev, acc)]) ++ ext /\
      (forall y, In y rest -> exists p, In (y, p) T') /\
      (forall l1 a b l2, prev :: rest = l1 ++ a :: b :: l2 ->
         exists pa, In (a, pa) T' /\ In (b, (pa + scrollWeight br mr a b)%R) T').
Proof.
  induction rest as [|year rest IH]; intros prev acc T0 Hinc Hs.
  - exists T0, [], acc. simpl. rewrite app_nil_r.
    repeat split; [exact Hinc | contradiction |].
    intros [|x [|z l1]] a b l2 E; discriminate E.
  - inversion Hs as [|? ? Hs' Hall]; subst.
    assert (Hle : prev <= year) by (inversion Hall; assumption).
    simpl Dated.accumulate.
    destruct (Z.eq_dec prev year) as [->|Hne].
    + rewrite scrollWeight_same, Rplus_0_r.
      rewrite (map_set_last _ _ _ _ (increasing_last_fresh _ _ _ Hinc)).
      destruct (IH year acc T0 Hinc Hs') as (T1 & ext & total & Hacc & Hinc' & Hpre & Hkeys & Hseg).
      exists T1, ext, total. rewrite last_cons.
      split; [exact Hacc|]. split; [exact Hinc'|]. split; [exact Hpre|]. split.
      * intros y [<-|Hy]; [|now apply Hkeys].
        exists acc. rewrite Hpre, !in_app_iff. left. right. now left.
      * intros [|x l1] a b l2 E.
        -- inversion E; subst. exists acc. rewrite scrollWeight_same, Rplus_0_r.
           split; rewrite Hpre, !in_app_iff; left; right; now left.
        -- inversion E; subst. now apply (Hseg l1 a b l2).
    + set (acc' := (acc + scrollWeight br mr prev year)%R).
      assert (Hw : (acc < acc')%R).
      { unfold acc'. assert (H := scrollWeight_pos br mr prev year). lapply H; [lra | lia]. }
      assert (Hfresh : forall e, In e (T0 ++ [(prev, acc)]) -> fst e <> year).
      { intros e He. apply in_app_iff in He as [He|[<-|[]]]; [|simpl; lia].
        apply SSorted_app_inv in Hinc as (_ & _ & H3).
        destruct (H3 e (prev, acc) He (or_introl eq_refl)) as [Hlt _].
        simpl in Hlt. lia. }
      rewrite (map_set_fresh _ _ _ Hfresh).
      assert (Hinc1 : increasing ((T0 ++ [(prev, acc)]) ++ [(year, acc')])).
      { apply increasing_snoc; [exact Hinc|]. split; simpl; [lia | exact Hw]. }
      destruct (IH year acc' (T0 ++ [(prev, acc)]) Hinc1 Hs')
        as (T1 & ext & total & Hacc & Hinc' & Hpre & Hkeys & Hseg).
      exists T1, ((year, acc') :: ext), total. rewrite last_cons.
      split; [exact Hacc|]. split; [exact Hinc'|]. split.
      * rewrite Hpre, <- app_assoc. reflexivity.
      * split.
        -- intros y [<-|Hy]; [|now apply Hkeys].
           exists acc'. rewrite Hpre, !in_app_iff. left. right. now left.
        -- intros [|x l1] a b l2 E.
           ++ inversion E; subst. exists acc.
              split; rewrite Hpre, !in_app_iff.
              ** left. left. right. now left.
              ** left. right. now left.
           ++ inversion E; subst. now apply (Hseg l1 a b l2).
Qed.

(** ** Comparisons and rounding on finite numbers *)

Lemma Rleb_true (a b : R) : Rleb a b = true <-> (a <= b)%R.
Proof. unfold Rleb. destruct (Rle_dec a b); split; intros; auto; discriminate. Qed.

Lemma Rleb_false (a b : R) : Rleb a b = false <-> (b < a)%R.
Proof.
  unfold Rleb. destruct (Rle_dec a b); split; intros; auto; try discriminate; lra.
Qed.

Lemma Rltb_true (a b : R) : Rltb a b = true <-> (a < b)%R.
Proof. unfold Rltb. destruct (Rlt_dec a b); split; intros; auto; discriminate. Qed.

Lemma Rltb_false (a b : R) : Rltb a b = false <-> (b <= a)%R.
Proof.
  unfold Rltb. destruct (Rlt_dec a b); split; intros; auto; try discriminate; lra.
Qed.

Lemma Reqb_true (a b : R) : Reqb a b = true <-> a = b.
Proof. unfold Reqb. destruct (Req_dec_T a b); split; intros; auto; discriminate. Qed.

Lemma Reqb_false (a b : R) : Reqb a b = false <-> a <> b.
Proof.
  unfold Reqb. destruct (Req_dec_T a b); split; intros; auto; try discriminate.
  contradiction.
Qed.

Lemma js_div_finite (x y : R) : y <> 0%R -> js_div (Num x) (Num y) = Num (x / y).
Proof. intros H. simpl. apply Reqb_false in H. now rewrite H. Qed.

Lemma js_div_zero_zero : js_div (Num 0) (Num 0) = NaN.
Proof.
  simpl. replace (Reqb 0 0) with true by (symmetry; now apply Reqb_true).
  replace (Rltb 0 0) with false by (symmetry; apply Rltb_false; lra).
  reflexivity.
Qed.

Lemma js_round_year (y : Z) : js_round (of_year y) = of_year y.
Proof.
  unfold js_round, of_year. do 2 f_equal. apply Zfloor_eq. lra.
Qed.

(** Rounding keeps a value between two integers between them. *)
Lemma js_round_between (x : R) (lo hi : Z) :
  (IZR lo <= x <= IZR hi)%R ->
  exists y, js_round (Num x) = of_year y /\ lo <= y <= hi.
Proof.
  intros [Hlo Hhi]. exists (Zfloor (x + / 2)). split; [reflexivity|].
  destruct (Zfloor_bound (x + / 2)) as [H1 H2]. split.
  - apply Zfloor_lub. lra.
  - assert (H : (IZR (Zfloor (x + / 2)) < IZR (hi + 1))%R) by (rewrite plus_IZR; lra).
    apply lt_IZR in H. lia.
Qed.

(** The integer shortcut taken for the midpoint agrees with the code's
    [Math.round((prevYear + year) / 2)]. *)
Lemma round_half_spec (n : Z) :
  js_round (js_div (of_year n) (Num 2)) = of_year (round_half n).
Proof.
  unfold of_year. rewrite js_div_finite by lra.
  unfold js_round, round_half. do 2 f_equal.
  apply Zfloor_eq.
  assert (H := Z.div_mod (n + 1) 2 ltac:(lia)).
  assert (Hm := Z.mod_pos_bound (n + 1) 2 ltac:(lia)).
  set (q := (n + 1) / 2) in *. set (r := (n + 1) mod 2) in *.
  assert (E : IZR n = (2 * IZR q + IZR r - 1)%R).
  { replace n with (2 * q + r - 1) at 1 by lia.
    rewrite minus_IZR, plus_IZR, mult_IZR. reflexivity. }
  assert (Hr0 : (0 <= IZR r)%R) by (apply IZR_le; lia).
  assert (Hr1 : (IZR r <= 1)%R) by (apply IZR_le; lia).
  rewrite E. split; lra.
Qed.

(** The clamp of [Dated.scrollToYear]. *)
Lemma clamp_cases (x : number) :
  js_max (Num 0) (js_min (Num 1) x) = NaN \/
  exists c, js_max (Num 0) (js_min (Num 1) x) = Num c /\ (0 <= c <= 1)%R.
Proof.
  destruct x as [r| | |]; simpl; auto.
  - right. destruct (Rle_dec 1 r) as [H|H].
    + replace (Rleb 1 r) with true by (symmetry; now apply Rleb_true).
      simpl. replace (Rleb 0 1) with true by (symmetry; apply Rleb_true; lra).
      exists 1%R. split; [reflexivity | lra].
    + replace (Rleb 1 r) with false by (symmetry; apply Rleb_false; lra).
      simpl. destruct (Rle_dec 0 r) as [H0|H0].
      * replace (Rleb 0 r) with true by (symmetry; now apply Rleb_true).
        exists r. split; [reflexivity | lra].
      * replace (Rleb 0 r) with false by (symmetry; apply Rleb_false; lra).
        exists 0%R. split; [reflexivity | lra].
  - right. replace (Rleb 0 1) with true by (symmetry; apply Rleb_true; lra).
    exists 1%R. split; [reflexivity | lra].
  - right. exists 0%R. split; [reflexivity | lra].
Qed.

Lemma clamp_inside (p : R) :
  (0 <= p <= 1)%R -> js_max (Num 0) (js_min (Num 1) (Num p)) = Num p.
Proof.
  intros [H0 H1]. simpl. destruct (Rle_dec 1 p) as [H|H].
  - replace (Rleb 1 p) with true by (symmetry; now apply Rleb_true).
    simpl. replace (Rleb 0 1) with true by (symmetry; apply Rleb_true; lra).
    f_equal. lra.
  - replace (Rleb 1 p) with false by (symmetry; apply Rleb_false; lra).
    simpl. replace (Rleb 0 p) with true by (symmetry; now apply Rleb_true).
    reflexivity.
Qed.

(** ** [Dated.scrollToYear] on a finite, strictly increasing table *)


Lemma increasing_hd_last (P : list (Z * R)) (e d : Z * R) :
  increasing (e :: P) ->
  fst e <= fst (last (e :: P) d) /\ (snd e <= snd (last (e :: P) d))%R.
Proof.
  intros H. destruct P as [|e' P]; [simpl; split; [lia | lra]|].
  inversion H as [|? ? _ Hall]; subst. rewrite Forall_forall in Hall.
  rewrite last_cons.
  destruct (Hall (last (e' :: P) e)) as [H1 H2].
  - apply last_In.
  - split; [lia | lra].
Qed.




Lemma last_finiteTable (P : list (Z * R)) (d : Z * R) :
  last (finiteTable P) (fst d, Num (snd d))
  = (fst (last P d), Num (snd (last P d))).
Proof.
  revert d. induction P as [|e P IH]; intros d; [reflexivity|].
  unfold finiteTable. cbn [map]. rewrite !last_cons. apply (IH e).
Qed.

(** The shape of [Dated.scrollToYear] once the table is known to be non-empty
    and finite, and the clamped position is [c]. *)
Lemma scrollToYear_unfold (e : Z * R) (P : list (Z * R)) (x : number) :
  Dated.scrollToYear (finiteTable (e :: P)) x =
  let c := js_max (Num 0) (js_min (Num 1) x) in
  let final := last (e :: P) e in
  if js_le c (Num (snd e)) then Some (of_year (fst e))
  else if js_ge c (Num (snd final)) then Some (of_year (fst final))
  else match Dated.scanByPosition (finiteTable (e :: P)) c with
       | Some year => Some year
       | None => Some (of_year (fst final))
       end.
Proof.
  pose proof (last_finiteTable (e :: P) e) as L.
  unfold Dated.scrollToYear, finiteTable in *. cbn [map] in *.
  rewrite L. reflexivity.
Qed.

Lemma last_app_cons {A : Type} (l1 l2 : list A) (x d : A) :
  last (l1 ++ x :: l2) d = last (x :: l2) d.
Proof.
  induction l1 as [|a l1 IH]; [reflexivity|].
  rewrite <- IH. cbn [app]. destruct (l1 ++ x :: l2) eqn:E; [|reflexivity].
  now destruct l1.
Qed.


(** The table of a single grid year, whose position is [NaN]. *)
Lemma scrollToYear_single (y : Z) (x : number) :
  Dated.scrollToYear [(y, NaN)] x = Some (of_year y).
Proof.
  unfold Dated.scrollToYear.
  destruct (clamp_cases x) as [->|(c & -> & Hc)]; reflexivity.
Qed.


(** Position 0 is at or before the first entry. *)
Lemma scrollToYear_zero (e : Z * R) (P : list (Z * R)) :
  (0 <= snd e)%R ->
  Dated.scrollToYear (finiteTable (e :: P)) (Num 0) = Some (of_year (fst e)).
Proof.
  intros H. rewrite scrollToYear_unfold. cbv zeta.
  rewrite (clamp_inside 0) by lra. cbn [js_le].
  replace (Rleb 0 (snd e)) with true by (symmetry; now apply Rleb_true).
  reflexivity.
Qed.

(** Position 1 is at or beyond the last entry. *)
Lemma scrollToYear_one (e : Z * R) (P : list (Z * R)) :
  increasing (e :: P) -> (snd (last (e :: P) e) <= 1)%R ->
  Dated.scrollToYear (finiteTable (e :: P)) (Num 1)
  = Some (of_year (fst (last (e :: P) e))).
Proof.
  intros Hinc H. rewrite scrollToYear_unfold. cbv zeta.
  rewrite (clamp_inside 1) by lra. cbn [js_le js_ge].
  replace (Rleb (snd (last (e :: P) e)) 1) with true
    by (symmetry; now apply Rleb_true).
  destruct P as [|e' P]; [now destruct (Rleb 1 (snd e))|].
  inversion Hinc as [|? ? _ Hall]; subst. rewrite Forall_forall in Hall.
  destruct (Hall (last (e :: e' :: P) e)) as [_ Hlt].
  { change (last (e :: e' :: P) e) with (last (e' :: P) e). apply last_In. }
  replace (Rleb 1 (snd e)) with false by (symmetry; apply Rleb_false; lra).
  reflexivity.
Qed.

(** ** The table that [Dated.buildYearMapping] stores *)

Lemma yearPositions_spec (br mr : list Range.t) (u0 : Z) (rest : list Z) :
  StronglySorted Z.le (u0 :: rest) ->
  exists (ext : list (Z * R)) (total : R),
    let T' := (u0, 0%R) :: ext in
    Dated.yearPositions br mr (u0 :: rest) = (T', total) /\
    increasing T' /\
    last T' (u0, 0%R) = (last rest u0, total) /\
    (forall y, In y (u0 :: rest) -> exists p, In (y, p) T') /\
    (forall l1 a b l2, u0 :: rest = l1 ++ a :: b :: l2 ->
       exists pa, In (a, pa) T' /\ In (b, (pa + scrollWeight br mr a b)%R) T').
Proof.
  intros Hs. unfold Dated.yearPositions. cbn [Dated.map_set].
  destruct (accumulate_spec br mr rest u0 0%R [] ltac:(repeat constructor) Hs)
    as (T1 & ext & total & Hacc & Hinc & Hpre & Hkeys & Hseg).
  cbn [app] in *. exists ext, total. cbv zeta.
  rewrite Hacc. rewrite <- Hpre.
  split; [reflexivity|]. split; [exact Hinc|]. split; [apply last_last|].
  split; [|exact Hseg].
  intros y [<-|Hy]; [|now apply Hkeys].
  exists 0%R. rewrite Hpre. now left.
Qed.

Lemma normalizedPositions_map (total : R) (T : list (Z * R)) :
  keysIncreasing T ->
  Dated.normalizedPositions total T
  = map (fun e => (fst e, normalized total (snd e))) T.
Proof.
  unfold Dated.normalizedPositions.
  set (f := fun (m : list (Z * number)) (entry : Z * R) =>
              Dated.map_set (fst entry) (normalized total (snd entry)) m).
  set (g := fun e : Z * R => (fst e, normalized total (snd e))).
  assert (G : forall (acc : list (Z * number)),
             (forall a e, In a acc -> In e T -> fst a < fst e) ->
             keysIncreasing T ->
             fold_left f T acc = acc ++ map g T).
  { induction T as [|e T IH]; intros acc Hacc Hs; simpl.
    - now rewrite app_nil_r.
    - inversion Hs as [|? ? Hs' Hall]; subst. rewrite Forall_forall in Hall.
      unfold f at 2. rewrite map_set_fresh.
      + rewrite IH; [now rewrite <- app_assoc | | exact Hs'].
        intros a e' Ha He'. apply in_app_iff in Ha as [Ha|[<-|[]]].
        * apply Hacc; [exact Ha | now right].
        * now apply Hall.
      + intros a Ha E. specialize (Hacc a e Ha (or_introl eq_refl)). lia. }
  intros Hs. now rewrite G.
Qed.

Lemma normalized_finite (total pos : R) :
  total <> 0%R ->
  normalized total pos = Num (marginStart + pos / total * usableRange).
Proof. intros H. unfold normalized. now rewrite js_div_finite. Qed.

Lemma normalized_zero : normalized 0 0 = NaN.
Proof. unfold normalized. now rewrite js_div_zero_zero. Qed.

Lemma last_map {A B : Type} (f : A -> B) (l : list A) (d : A) :
  last (map f l) (f d) = f (last l d).
Proof.
  revert d. induction l as [|a l IH]; intros d; [reflexivity|].
  cbn [map]. rewrite !last_cons. apply IH.
Qed.

Lemma increasing_range (e : Z * R) (P : list (Z * R)) (x : Z * R) :
  increasing (e :: P) -> In x (e :: P) ->
  (snd e <= snd x <= snd (last (e :: P) e))%R.
Proof.
  intros Hinc Hx. split.
  - destruct Hx as [<-|Hx]; [lra|].
    inversion Hinc as [|? ? _ Hall]; subst. rewrite Forall_forall in Hall.
    destruct (Hall _ Hx). lra.
  - destruct (in_split _ _ Hx) as (l1 & l2 & E). rewrite E in Hinc |- *.
    rewrite last_app_cons.
    apply SSorted_app_inv in Hinc as (_ & Hinc & _).
    now destruct (increasing_hd_last l2 x e Hinc).
Qed.

Lemma increasing_scale (total : R) (T : list (Z * R)) :
  (0 < total)%R -> increasing T ->
  increasing (map (fun e => (fst e, (marginStart + snd e / total * usableRange)%R)) T).
Proof.
  intros Ht. induction 1 as [|e T Hs IH Hall]; cbn [map]; constructor; [exact IH|].
  rewrite Forall_map. eapply Forall_impl; [|exact Hall].
  intros a [H1 H2]. split; [exact H1|]. cbn [snd].
  assert (Hi := Rinv_0_lt_compat _ Ht).
  unfold usableRange, marginStart, marginEnd, Rdiv. nra.
Qed.

Lemma table_built (br mr : list Range.t) (grid : list Z) :
  grid <> [] -> StronglySorted Z.le grid ->
  exists T total,
    Dated.yearPositions br mr grid = (T, total) /\
    builtTable br mr grid (Dated.normalizedPositions total T).
Proof.
  intros Hne Hs. destruct grid as [|u0 rest]; [contradiction|]. clear Hne.
  destruct (yearPositions_spec br mr u0 rest Hs)
    as (ext & total & Hyp & Hinc & Hlast & Hkeys & Hseg).
  cbv zeta in *. exists ((u0, 0%R) :: ext), total. split; [exact Hyp|].
  assert (Htot : (0 <= total)%R).
  { destruct (increasing_hd_last ext (u0, 0%R) (u0, 0%R) Hinc) as [_ H].
    rewrite Hlast in H. exact H. }
  destruct (Req_dec_T total 0) as [E0|Hpos].
  - (* a single grid year *)
    left. subst total. exists u0.
    assert (Eext : ext = []).
    { destruct ext as [|e' ext]; [reflexivity|]. exfalso.
      inversion Hinc as [|? ? _ Hall]; subst. rewrite Forall_forall in Hall.
      destruct (Hall (last (e' :: ext) (u0, 0%R))) as [_ Hlt]; [apply last_In|].
      change (last ((u0, 0%R) :: e' :: ext) (u0, 0%R))
        with (last (e' :: ext) (u0, 0%R)) in Hlast.
      rewrite Hlast in Hlt. cbn [snd] in Hlt. lra. }
    subst ext. split.
    + unfold Dated.normalizedPositions. cbn [fold_left Dated.map_set fst snd].
      now rewrite normalized_zero.
    + intros g Hg. destruct (Hkeys g Hg) as (p & [E|[]]). now inversion E.
  - (* at least two distinct grid years *)
    right. assert (Ht : (0 < total)%R) by lra.
    set (f := fun e : Z * R => (fst e, (marginStart + snd e / total * usableRange)%R)).
    exists (f (u0, 0%R)), (map f ext), (usableRange / total)%R.
    change (f (u0, 0%R) :: map f ext) with (map f ((u0, 0%R) :: ext)).
    split; [|split; [|split; [|split; [|split; [|split; [|split]]]]]].
    + rewrite normalizedPositions_map by now apply increasing_keys.
      unfold finiteTable. rewrite map_map. apply map_ext.
      intros a. unfold f. cbn [fst snd]. now rewrite normalized_finite.
    + now apply increasing_scale.
    + unfold f. cbn [fst snd hd]. f_equal. unfold Rdiv. ring.
    + rewrite last_map, Hlast. unfold f. cbn [fst snd].
      rewrite last_cons. f_equal.
      unfold usableRange, marginStart, marginEnd. field. lra.
    + intros x Hx. apply in_map_iff in Hx as (a & <- & Ha).
      destruct (increasing_range _ _ a Hinc Ha) as [H1 H2].
      rewrite Hlast in H2. cbn [snd] in H1, H2. unfold f. cbn [snd].
      assert (Hi := Rinv_0_lt_compat _ Ht).
      assert (Hq : (0 <= snd a / total <= 1)%R).
      { split.
        - apply Rmult_le_pos; lra.
        - apply Rmult_le_reg_r with total; [exact Ht|].
          unfold Rdiv. rewrite Rmult_assoc, Rinv_l by lra. lra. }
      unfold usableRange, marginStart, marginEnd. nra.
    + intros g Hg. destruct (Hkeys g Hg) as (p & Hp).
      exists (snd (f (g, p))). now apply (in_map f) in Hp.
    + apply Rmult_lt_0_compat; [|now apply Rinv_0_lt_compat].
      unfold usableRange, marginStart, marginEnd. lra.
    + intros l1 a b l2 E. destruct (Hseg l1 a b l2 E) as (pa & Ha & Hb).
      exists (snd (f (a, pa))). split; [now apply (in_map f) in Ha|].
      apply (in_map f) in Hb. unfold f in *. cbn [fst snd] in *.
      replace (marginStart + pa / total * usableRange
               + usableRange / total * scrollWeight br mr a b)%R
        with (marginStart + (pa + scrollWeight br mr a b) / total * usableRange)%R
        by (field; lra).
      exact Hb.
Qed.

Lemma finiteTable_strictlyIncreasing (P : list (Z * R)) :
  increasing P -> strictlyIncreasing (finiteTable P).
Proof.
  induction 1 as [|e P Hs IH Hall]; cbn [finiteTable map]; constructor; [exact IH|].
  rewrite Forall_map. eapply Forall_impl; [|exact Hall].
  intros a [H1 H2]. split; [exact H1|]. cbn [snd js_lt]. now apply Rltb_true.
Qed.

Lemma builtTable_strictlyIncreasing (br mr : list Range.t) (grid : list Z)
    (N : list (Z * number)) :
  builtTable br mr grid N -> strictlyIncreasing N.
Proof.
  intros [(y & -> & _)|(e & P & c & -> & Hinc & _)].
  - repeat constructor.
  - now apply finiteTable_strictlyIncreasing.
Qed.

Lemma strictlyIncreasing_keys (N : list (Z * number)) :
  strictlyIncreasing N -> keysIncreasing N.
Proof. apply SSorted_weaken. now intros x y [H _]. Qed.

(** Sorting the stored table by position leaves it in grid order. *)
Lemma sortByPosition_built (br mr : list Range.t) (grid : list Z)
    (N : list (Z * number)) :
  builtTable br mr grid N -> Dated.sortByPosition N = N.
Proof.
  intros [(y & -> & _)|(e & P & c & -> & Hinc & _)]; [reflexivity|].
  apply js_sort_sorted.
  induction Hinc as [|a T Hs IH Hall]; cbn [finiteTable map]; constructor; [exact IH|].
  rewrite Forall_map. eapply Forall_impl; [|exact Hall].
  intros b [_ H]. cbn [snd js_sub js_neg js_add js_gt js_lt].
  apply Rltb_false. lra.
Qed.

(** The main path of [Dated.buildYearMapping], with its table characterised. *)
Lemma build_unfold (CURRENT_YEAR : Z) (books : list Book.t)
    (milestones : list Milestone.t) :
  Dated.sortedEvents books milestones <> [] ->
  exists first rest N,
    Dated.sortedEvents books milestones = first :: rest /\
    builtTable (Dated.bookRanges books) (milestoneRanges milestones)
      (Dated.gridYears CURRENT_YEAR books milestones) N /\
    Dated.buildYearMapping CURRENT_YEAR books milestones
    = Dated.Mapping.mk (Dated.scrollToYear N) (Dated.yearToScroll N) (Dated.Event.year first)
        CURRENT_YEAR (first :: rest) (Some N) (Some N).
Proof.
  intros Hne. unfold Dated.buildYearMapping, Dated.gridYears.
  destruct (Dated.sortedEvents books milestones) as [|first rest] eqn:E; [contradiction|].
  destruct (table_built (Dated.bookRanges books) (milestoneRanges milestones)
              (Dated.uniqueYears CURRENT_YEAR (first :: rest))
              (uniqueYears_not_nil _ _) (uniqueYears_sorted _ _))
    as (T & total & Hyp & Hb).
  exists first, rest, (Dated.normalizedPositions total T).
  split; [reflexivity|]. split; [exact Hb|].
  rewrite Hyp. now rewrite (sortByPosition_built _ _ _ _ Hb).
Qed.

Lemma grid_hd_In (CURRENT_YEAR : Z) (books : list Book.t)
    (milestones : list Milestone.t) :
  In (hd 0 (Dated.gridYears CURRENT_YEAR books milestones))
     (Dated.gridYears CURRENT_YEAR books milestones) /\
  In (last (Dated.gridYears CURRENT_YEAR books milestones) 0)
     (Dated.gridYears CURRENT_YEAR books milestones).
Proof.
  unfold Dated.gridYears.
  destruct (Dated.uniqueYears CURRENT_YEAR _) as [|u0 rest] eqn:E;
    [now apply uniqueYears_not_nil in E|].
  split; [now left | apply last_In].
Qed.


(** ** Monotonicity, the round trip and the ends of the table *)



(** What [Dated.scrollToYear] returns at the two ends of the scroll range, and
    the two year fields of the object, on the main path. *)
Lemma build_boundaries (CURRENT_YEAR : Z) (books : list Book.t)
    (milestones : list Milestone.t) :
  Dated.sortedEvents books milestones <> [] ->
  let m := Dated.buildYearMapping CURRENT_YEAR books milestones in
  let grid := Dated.gridYears CURRENT_YEAR books milestones in
  Dated.Mapping.scrollToYear m (Num 0) = Some (of_year (hd 0 grid)) /\
  Dated.Mapping.scrollToYear m (Num 1) = Some (of_year (last grid 0)) /\
  Dated.Mapping.maxYear m = CURRENT_YEAR /\
  exists first rest,
    Dated.sortedEvents books milestones = first :: rest /\
    Dated.Mapping.minYear m = Dated.Event.year first.
Proof.
  intros Hne m grid. subst m grid.
  destruct (build_unfold CURRENT_YEAR books milestones Hne)
    as (first & rest & N & Eev & Hb & ->).
  cbn [Dated.Mapping.scrollToYear Dated.Mapping.maxYear Dated.Mapping.minYear].
  destruct (grid_hd_In CURRENT_YEAR books milestones) as [Hhd Hlast].
  assert (G : Dated.scrollToYear N (Num 0)
              = Some (of_year (hd 0 (Dated.gridYears CURRENT_YEAR books milestones))) /\
              Dated.scrollToYear N (Num 1)
              = Some (of_year (last (Dated.gridYears CURRENT_YEAR books milestones) 0))).
  { destruct Hb as [(y0 & -> & Hall)|(e & P & c & -> & Hinc & He & Hl & _)].
    - rewrite (Hall _ Hhd), (Hall _ Hlast). split; apply scrollToYear_single.
    - split.
      + rewrite scrollToYear_zero; [now rewrite He|].
        rewrite He. unfold marginStart. cbn [snd]. lra.
      + rewrite scrollToYear_one; [now rewrite Hl | exact Hinc|].
        rewrite Hl. unfold marginEnd. cbn [snd]. lra. }
  destruct G as [G0 G1].
  split; [exact G0|]. split; [exact G1|]. split; [reflexivity|].
  now exists first, rest.
Qed.



Lemma yearToScroll_entry (N : list (Z * number)) (x : Z * number) :
  keysIncreasing N -> In x N -> Dated.yearToScroll N (fst x) = Some (snd x).
Proof.
  intros Hk Hx. destruct x as [k v]. unfold Dated.yearToScroll. cbn [fst snd].
  now rewrite (map_get_In k v N Hk Hx).
Qed.

(** The stored table starts at the first grid year and ends at the last. *)
Lemma builtTable_ends (br mr : list Range.t) (grid : list Z)
    (N : list (Z * number)) :
  builtTable br mr grid N -> In (hd 0 grid) grid -> In (last grid 0) grid ->
  exists first,
    hd_error N = Some first /\
    fst first = hd 0 grid /\
    fst (last N first) = last grid 0.
Proof.
  intros [(y0 & -> & Hall)|(e & P & c & -> & _ & He & Hl & _)] Hhd Hlast.
  - exists (y0, NaN). cbn. now rewrite (Hall _ Hhd), (Hall _ Hlast).
  - exists (fst e, Num (snd e)). split; [reflexivity|].
    rewrite (last_finiteTable (e :: P) e), Hl, He. now cbn.
Qed.



(** ** Out-of-range queries on the main path *)

Lemma scrollToYear_below (N : list (Z * number)) :
  Dated.scrollToYear N (Num (-1)) = Dated.scrollToYear N (Num 0).
Proof.
  unfold Dated.scrollToYear.
  assert (E : js_max (Num 0) (js_min (Num 1) (Num (-1))) = Num 0).
  { cbn [js_min js_le].
    replace (Rleb 1 (-1)) with false by (symmetry; apply Rleb_false; lra).
    cbn [js_max js_le].
    replace (Rleb 0 (-1)) with false by (symmetry; apply Rleb_false; lra).
    reflexivity. }
  now rewrite E, (clamp_inside 0) by lra.
Qed.

Lemma scrollToYear_above (N : list (Z * number)) :
  Dated.scrollToYear N (Num 2) = Dated.scrollToYear N (Num 1).
Proof.
  unfold Dated.scrollToYear.
  assert (E : js_max (Num 0) (js_min (Num 1) (Num 2)) = Num 1).
  { cbn [js_min js_le].
    replace (Rleb 1 2) with true by (symmetry; apply Rleb_true; lra).
    cbn [js_max js_le].
    replace (Rleb 0 1) with true by (symmetry; apply Rleb_true; lra).
    reflexivity. }
  now rewrite E, (clamp_inside 1) by lra.
Qed.

Lemma sortByYear_sorted (N : list (Z * number)) :
  keysIncreasing N -> Dated.sortByYear N = N.
Proof.
  intros H. apply js_sort_sorted.
  eapply SSorted_weaken; [|exact H].
  intros x y Hxy. cbv beta in *. rewrite Z.gtb_ltb. apply Z.ltb_ge. lia.
Qed.

Lemma map_get_absent {V : Type} (k : Z) (m : list (Z * V)) :
  (forall e, In e m -> fst e <> k) -> Dated.map_get k m = None.
Proof.
  induction m as [|[k' v'] m IH]; intros H; [reflexivity|].
  cbn [Dated.map_get]. destruct (Z.eqb_spec k k') as [->|_].
  - exfalso. now apply (H (k', v')); [left|].
  - apply IH. intros e He. apply H. now right.
Qed.

Lemma keys_between (first : Z * number) (rest : list (Z * number)) (e : Z * number) :
  keysIncreasing (first :: rest) -> In e (first :: rest) ->
  fst first <= fst e <= fst (last (first :: rest) first).
Proof.
  intros Hk He. split.
  - destruct He as [<-|He]; [lia|].
    inversion Hk as [|? ? _ Hall]; subst. rewrite Forall_forall in Hall.
    specialize (Hall _ He). lia.
  - destruct (in_split _ _ He) as (l1 & l2 & E). rewrite E in Hk |- *.
    rewrite last_app_cons. apply SSorted_app_inv in Hk as (_ & Hk & _).
    destruct l2 as [|e2 l2]; [cbn; lia|].
    inversion Hk as [|? ? _ Hall]; subst. rewrite Forall_forall in Hall.
    change (last (e :: e2 :: l2) first) with (last (e2 :: l2) first).
    specialize (Hall (last (e2 :: l2) first) (last_In _ _ _)). lia.
Qed.

(** A year before the first entry gets the first position, a year after
    the last entry the last position. *)
Lemma yearToScroll_outside (first : Z * number) (rest : list (Z * number)) (y : Z) :
  keysIncreasing (first :: rest) ->
  (y < fst first -> Dated.yearToScroll (first :: rest) y = Some (snd first)) /\
  (fst (last (first :: rest) first) < y ->
   Dated.yearToScroll (first :: rest) y = Some (snd (last (first :: rest) first))).
Proof.
  intros Hk. split; intros Hy; unfold Dated.yearToScroll.
  - rewrite map_get_absent.
    + rewrite (sortByYear_sorted _ Hk).
      now replace (y <=? fst first) with true by (symmetry; apply Z.leb_le; lia).
    + intros e He. destruct (keys_between first rest e Hk He). lia.
  - rewrite map_get_absent.
    + rewrite (sortByYear_sorted _ Hk).
      assert (H0 := keys_between first rest first Hk (or_introl eq_refl)).
      replace (y <=? fst first) with false by (symmetry; apply Z.leb_gt; lia).
      now replace (y >=? fst (last (first :: rest) first)) with true
        by (symmetry; apply Z.geb_le; lia).
    + intros e He. destruct (keys_between first rest e Hk He). lia.
Qed.

(** On the main path positions below 0 and above 1 are answered as 0
    and 1. *)
Lemma build_clamped_ends (CURRENT_YEAR : Z) (books : list Book.t)
    (milestones : list Milestone.t) :
  Dated.sortedEvents books milestones <> [] ->
  let m := Dated.buildYearMapping CURRENT_YEAR books milestones in
  Dated.Mapping.scrollToYear m (Num (-1)) = Dated.Mapping.scrollToYear m (Num 0) /\
  Dated.Mapping.scrollToYear m (Num 2) = Dated.Mapping.scrollToYear m (Num 1).
Proof.
  intros Hne m. subst m.
  destruct (build_unfold CURRENT_YEAR books milestones Hne)
    as (first & rest & N & _ & _ & ->).
  cbn [Dated.Mapping.scrollToYear].
  split; [apply scrollToYear_below | apply scrollToYear_above].
Qed.

(** ** The range of [Dated.scrollToYear] and the single-year table *)

Lemma js_round_eq (x : R) (z : Z) : x = IZR z -> js_round (Num x) = of_year z.
Proof. intros ->. apply js_round_year. Qed.


(** All-zero total weight.  When every event lies in the current
    year the grid has a single year, the total weight is 0, and the
    normaliser stores [0 / 0], that is [NaN], for that year (not 0);
    [Dated.yearToScroll] of that year returns the [NaN]. *)
Lemma dated_single_year_position_NaN (CURRENT_YEAR : Z) (books : list Book.t)
    (milestones : list Milestone.t) :
  Dated.sortedEvents books milestones <> [] ->
  (forall ev, In ev (Dated.sortedEvents books milestones) ->
              Dated.Event.year ev = CURRENT_YEAR) ->
  let m := Dated.buildYearMapping CURRENT_YEAR books milestones in
  Dated.Mapping._yearPositions m = Some [(CURRENT_YEAR, NaN)] /\
  Dated.Mapping.yearToScroll m CURRENT_YEAR = Some NaN.
Proof.
  intros Hne Hall m. subst m.
  destruct (build_unfold CURRENT_YEAR books milestones Hne)
    as (first & rest & N & _ & Hb & ->).
  cbn [Dated.Mapping._yearPositions Dated.Mapping.yearToScroll].
  assert (Hgrid : forall g, In g (Dated.gridYears CURRENT_YEAR books milestones) ->
                            g = CURRENT_YEAR).
  { intros g Hg. apply uniqueYears_In in Hg as [Hg|Hg]; [|exact Hg].
    apply in_map_iff in Hg as (ev & <- & Hev). now apply Hall. }
  destruct (grid_hd_In CURRENT_YEAR books milestones) as [Hhd Hlast].
  assert (EN : N = [(CURRENT_YEAR, NaN)]).
  { destruct Hb as [(y0 & -> & Hy0)|(e & P & c & _ & Hinc & He & Hl & _)].
    - now rewrite <- (Hy0 _ Hhd), (Hgrid _ Hhd).
    - exfalso. rewrite (Hgrid _ Hhd) in He. rewrite (Hgrid _ Hlast) in Hl.
      destruct P as [|e' P].
      + cbn [last] in Hl. rewrite He in Hl. injection Hl as Hl.
        unfold marginStart, marginEnd in Hl. lra.
      + inversion Hinc as [|? ? _ Hf]; subst. rewrite Forall_forall in Hf.
        destruct (Hf (last (e' :: P) (CURRENT_YEAR, marginStart))) as [Hlt _];
          [apply last_In|].
        change (last ((CURRENT_YEAR, marginStart) :: e' :: P) (CURRENT_YEAR, marginStart))
          with (last (e' :: P) (CURRENT_YEAR, marginStart)) in Hl.
        rewrite Hl in Hlt. cbn [fst] in Hlt. lia. }
  subst N. split; [reflexivity|].
  unfold Dated.yearToScroll. cbn [Dated.map_get]. now rewrite Z.eqb_refl.
Qed.

(** ** Dense and empty segments *)

Lemma activeAt_spec (year : Z) (r : Range.t) :
  activeAt year r = (Range.start r <=? year) && (year <=? Range.end_ r).
Proof. unfold activeAt. now rewrite Z.geb_leb. Qed.



Lemma increasing_functional (P : list (Z * R)) (k : Z) (v v' : R) :
  increasing P -> In (k, v) P -> In (k, v') P -> v = v'.
Proof.
  intros Hinc H1 H2.
  destruct (SSorted_In _ _ _ _ Hinc H1 H2) as [E|[[H _]|[H _]]].
  - now inversion E.
  - cbn [fst] in H. lia.
  - cbn [fst] in H. lia.
Qed.

(** ** [Dated.yearToScroll] on every year *)

Lemma map_get_Some_In {V : Type} (k : Z) (v : V) (m : list (Z * V)) :
  Dated.map_get k m = Some v -> In (k, v) m.
Proof.
  induction m as [|[k' v'] m IH]; cbn [Dated.map_get]; [discriminate|].
  destruct (Z.eqb_spec k k') as [->|_].
  - intros [= ->]. now left.
  - intros E. right. now apply IH.
Qed.

Lemma positionOf_cons2 (k1 k2 : Z) (p1 p2 : R) (tl : list (Z * R)) (y : Z) :
  positionOf ((k1, p1) :: (k2, p2) :: tl) y =
  if y <=? k1 then p1
  else if y <=? k2
       then (p1 + (IZR y - IZR k1) / (IZR k2 - IZR k1) * (p2 - p1))%R
       else positionOf ((k2, p2) :: tl) y.
Proof. reflexivity. Qed.

Lemma lerp_at_right (k1 k2 : Z) (p1 p2 : R) :
  k1 < k2 ->
  (p1 + (IZR k2 - IZR k1) / (IZR k2 - IZR k1) * (p2 - p1))%R = p2.
Proof. intros H. apply IZR_lt in H. field. lra. Qed.

Lemma lerp_between (k1 k2 y : Z) (p1 p2 : R) :
  k1 < y <= k2 -> (p1 < p2)%R ->
  (p1 <= p1 + (IZR y - IZR k1) / (IZR k2 - IZR k1) * (p2 - p1) <= p2)%R.
Proof.
  intros [H1 H2] Hp. apply IZR_lt in H1. apply IZR_le in H2.
  set (t := ((IZR y - IZR k1) / (IZR k2 - IZR k1))%R).
  assert (Hd : (0 < IZR k2 - IZR k1)%R) by lra.
  assert (Ht0 : (0 <= t)%R).
  { unfold t. apply Rmult_le_pos; [lra|]. left. now apply Rinv_0_lt_compat. }
  assert (Ht1 : (t <= 1)%R).
  { unfold t. apply Rmult_le_reg_r with (IZR k2 - IZR k1)%R; [exact Hd|].
    unfold Rdiv. rewrite Rmult_assoc, Rinv_l by lra. lra. }
  split; nra.
Qed.

Lemma lerp_mono (k1 k2 y y' : Z) (p1 p2 : R) :
  k1 < k2 -> y <= y' -> (p1 < p2)%R ->
  (p1 + (IZR y - IZR k1) / (IZR k2 - IZR k1) * (p2 - p1)
   <= p1 + (IZR y' - IZR k1) / (IZR k2 - IZR k1) * (p2 - p1))%R.
Proof.
  intros Hk Hy Hp. apply IZR_lt in Hk. apply IZR_le in Hy.
  assert (Hi : (0 < / (IZR k2 - IZR k1))%R) by (apply Rinv_0_lt_compat; lra).
  unfold Rdiv. apply Rplus_le_compat_l. apply Rmult_le_compat_r; [lra|].
  apply Rmult_le_compat_r; lra.
Qed.

Lemma positionOf_bounds (e : Z * R) (P : list (Z * R)) (y : Z) :
  increasing (e :: P) ->
  (snd e <= positionOf (e :: P) y <= snd (last (e :: P) e))%R.
Proof.
  revert e. induction P as [|[k2 p2] P IH]; intros [k1 p1] Hinc.
  - cbn. lra.
  - rewrite positionOf_cons2. cbn [snd].
    inversion Hinc as [|? ? Hs Hall]; subst.
    assert (H12 : lt2 (k1, p1) (k2, p2)) by (inversion Hall; assumption).
    destruct H12 as [Hk Hp]. cbn [fst snd] in Hk, Hp.
    change (last ((k1, p1) :: (k2, p2) :: P) (k1, p1))
      with (last ((k2, p2) :: P) (k1, p1)).
    rewrite (last_cons (k2, p2) (k1, p1)), <- (last_cons (k2, p2) (k2, p2)).
    destruct (increasing_hd_last P (k2, p2) (k2, p2) Hs) as [_ Hl]. cbn [snd] in Hl.
    destruct (Z.leb_spec y k1); [lra|].
    destruct (Z.leb_spec y k2).
    + destruct (lerp_between k1 k2 y p1 p2 ltac:(lia) Hp). lra.
    + specialize (IH (k2, p2) Hs). cbn [snd] in IH. lra.
Qed.

(** The reference position is monotone in the year. *)
Lemma positionOf_mono (P : list (Z * R)) (y y' : Z) :
  increasing P -> y <= y' -> (positionOf P y <= positionOf P y')%R.
Proof.
  intros Hinc Hy. induction Hinc as [|[k1 p1] P Hs IH Hall]; [cbn; lra|].
  destruct P as [|[k2 p2] P]; [cbn; lra|].
  assert (H12 : lt2 (k1, p1) (k2, p2)) by (inversion Hall; assumption).
  destruct H12 as [Hk Hp]. cbn [fst snd] in Hk, Hp.
  rewrite !positionOf_cons2.
  assert (Hlow : forall z, (p2 <= positionOf ((k2, p2) :: P) z)%R).
  { intros z. now destruct (positionOf_bounds (k2, p2) P z Hs). }
  destruct (Z.leb_spec y k1), (Z.leb_spec y' k1); try lia.
  - lra.
  - destruct (Z.leb_spec y' k2).
    + destruct (lerp_between k1 k2 y' p1 p2 ltac:(lia) Hp). lra.
    + specialize (Hlow y'). lra.
  - destruct (Z.leb_spec y k2), (Z.leb_spec y' k2); try lia.
    + now apply lerp_mono.
    + destruct (lerp_between k1 k2 y p1 p2 ltac:(lia) Hp).
      specialize (Hlow y'). lra.
    + exact IH.
Qed.

Lemma positionOf_key (P : list (Z * R)) (y : Z) (p : R) :
  increasing P -> In (y, p) P -> positionOf P y = p.
Proof.
  intros Hinc. induction Hinc as [|[k1 p1] P Hs IH Hall]; intros Hin; [contradiction|].
  destruct P as [|[k2 p2] P].
  - destruct Hin as [[= -> ->]|[]]. reflexivity.
  - rewrite positionOf_cons2.
    assert (H12 : lt2 (k1, p1) (k2, p2)) by (inversion Hall; assumption).
    destruct H12 as [Hk Hp]. cbn [fst snd] in Hk, Hp.
    destruct Hin as [[= -> ->]|Hin].
    + now rewrite Z.leb_refl.
    + rewrite Forall_forall in Hall. destruct (Hall _ Hin) as [Hlt _].
      cbn [fst] in Hlt.
      replace (y <=? k1) with false by (symmetry; apply Z.leb_gt; lia).
      destruct (Z.leb_spec y k2); [|now apply IH].
      assert (Ey : y = k2).
      { destruct Hin as [[= -> _]|Hin]; [reflexivity|].
        inversion Hs as [|? ? _ Hall2]; subst. rewrite Forall_forall in Hall2.
        destruct (Hall2 _ Hin) as [Hlt2 _]. cbn [fst] in Hlt2. lia. }
      subst y.
      rewrite (increasing_functional _ _ _ _ Hs Hin (or_introl eq_refl)).
      now apply lerp_at_right.
Qed.

Lemma positionOf_beyond (e : Z * R) (P : list (Z * R)) (y : Z) :
  (forall x, In x (e :: P) -> fst x < y) ->
  positionOf (e :: P) y = snd (last (e :: P) e).
Proof.
  revert e. induction P as [|[k2 p2] P IH]; intros [k1 p1] H; [reflexivity|].
  rewrite positionOf_cons2.
  assert (H1 := H (k1, p1) (or_introl eq_refl)).
  assert (H2 := H (k2, p2) (or_intror (or_introl eq_refl))).
  cbn [fst] in H1, H2.
  replace (y <=? k1) with false by (symmetry; apply Z.leb_gt; lia).
  replace (y <=? k2) with false by (symmetry; apply Z.leb_gt; lia).
  rewrite IH by (intros x Hx; apply H; now right).
  change (last ((k1, p1) :: (k2, p2) :: P) (k1, p1))
    with (last ((k2, p2) :: P) (k1, p1)).
  now rewrite !(last_cons (k2, p2)).
Qed.

Lemma scanByYear_positionOf (e : Z * R) (P : list (Z * R)) (y : Z) :
  increasing (e :: P) -> fst e < y -> y < fst (last (e :: P) e) ->
  Dated.scanByYear (finiteTable (e :: P)) y = Some (Num (positionOf (e :: P) y)).
Proof.
  revert e. induction P as [|[k2 p2] P IH]; intros [k1 p1] Hinc Hlo Hhi.
  - cbn in Hlo, Hhi. lia.
  - cbn [fst] in Hlo. rewrite positionOf_cons2.
    change (Dated.scanByYear (finiteTable ((k1, p1) :: (k2, p2) :: P)) y)
      with (if (y >=? k1) && (y <=? k2)
            then Some (js_add (Num p1)
                   (js_mul (js_div (js_sub (of_year y) (of_year k1))
                                   (js_sub (of_year k2) (of_year k1)))
                      (js_sub (Num p2) (Num p1))))
            else Dated.scanByYear (finiteTable ((k2, p2) :: P)) y).
    inversion Hinc as [|? ? Hs Hall]; subst.
    assert (H12 : lt2 (k1, p1) (k2, p2)) by (inversion Hall; assumption).
    destruct H12 as [Hk Hp]. cbn [fst snd] in Hk, Hp.
    replace (y >=? k1) with true by (symmetry; apply Z.geb_le; lia).
    replace (y <=? k1) with false by (symmetry; apply Z.leb_gt; lia).
    cbn [andb]. destruct (Z.leb_spec y k2).
    + unfold of_year, js_sub. cbn [js_neg js_add].
      rewrite js_div_finite by (apply IZR_lt in Hk; lra).
      reflexivity.
    + apply IH; [exact Hs | exact H |].
      change (last ((k1, p1) :: (k2, p2) :: P) (k1, p1))
        with (last ((k2, p2) :: P) (k1, p1)) in Hhi.
      now rewrite (last_cons (k2, p2) (k1, p1)), <- (last_cons (k2, p2) (k2, p2)) in Hhi.
Qed.

(** On a finite, strictly increasing table [Dated.yearToScroll] is the
    reference interpolation, for every year. *)
Lemma yearToScroll_positionOf (e : Z * R) (P : list (Z * R)) (y : Z) :
  increasing (e :: P) ->
  Dated.yearToScroll (finiteTable (e :: P)) y = Some (Num (positionOf (e :: P) y)).
Proof.
  intros Hinc.
  assert (Hk : keysIncreasing (finiteTable (e :: P)))
    by (apply strictlyIncreasing_keys; now apply finiteTable_strictlyIncreasing).
  unfold Dated.yearToScroll.
  destruct (Dated.map_get y (finiteTable (e :: P))) as [q|] eqn:Eget.
  - apply map_get_Some_In in Eget. unfold finiteTable in Eget.
    apply in_map_iff in Eget as ([k p] & [= -> <-] & Hin).
    now rewrite (positionOf_key _ _ _ Hinc Hin).
  - rewrite (sortByYear_sorted _ Hk).
    pose proof (last_finiteTable (e :: P) e) as L.
    unfold finiteTable in *. cbn [map] in *. rewrite L. cbn [fst snd].
    destruct (Z.leb_spec y (fst e)) as [Hle|Hgt].
    + destruct e as [k1 p1]. cbn [fst snd] in *.
      destruct P as [|[k2 p2] P]; [reflexivity|].
      rewrite positionOf_cons2.
      now replace (y <=? k1) with true by (symmetry; apply Z.leb_le; lia).
    + destruct (Z.geb_spec y (fst (last (e :: P) e))) as [Hge|Hlt].
      * assert (Hne : y <> fst (last (e :: P) e)).
        { intros ->. 
          assert (Hin : In (fst (last (e :: P) e), Num (snd (last (e :: P) e)))
                          ((fst e, Num (snd e)) :: map (fun e0 => (fst e0, Num (snd e0))) P)).
          { change ((fst e, Num (snd e)) :: map (fun e0 => (fst e0, Num (snd e0))) P)
              with (map (fun e0 : Z * R => (fst e0, Num (snd e0))) (e :: P)).
            apply in_map_iff. exists (last (e :: P) e). split; [reflexivity | apply last_In]. }
          rewrite (map_get_In _ _ _ Hk Hin) in Eget. discriminate Eget. }
        rewrite positionOf_beyond; [reflexivity|].
        intros x Hx.
        assert (Hx' : In (fst x, Num (snd x))
                        ((fst e, Num (snd e)) :: map (fun e0 => (fst e0, Num (snd e0))) P)).
        { change ((fst e, Num (snd e)) :: map (fun e0 => (fst e0, Num (snd e0))) P)
            with (map (fun e0 : Z * R => (fst e0, Num (snd e0))) (e :: P)).
          apply in_map_iff. now exists x. }
        destruct (keys_between _ _ _ Hk Hx') as [_ Hb].
        rewrite L in Hb. cbn [fst] in Hb. lia.
      * pose proof (scanByYear_positionOf e P y Hinc Hgt Hlt) as Hscan.
        unfold finiteTable in Hscan. cbn [map] in Hscan. now rewrite Hscan.
Qed.

(** ** [Dated.scrollToYear] on every position *)

Lemma yearOf_cons2 (k1 k2 : Z) (p1 p2 : R) (tl : list (Z * R)) (s : R) :
  yearOf ((k1, p1) :: (k2, p2) :: tl) s =
  if Rleb s p1 then k1
  else if Rleb s p2
       then Zfloor (IZR k1 + (s - p1) / (p2 - p1) * (IZR k2 - IZR k1) + / 2)
       else yearOf ((k2, p2) :: tl) s.
Proof. reflexivity. Qed.

Lemma Rleb_spec (a b : R) : BoolSpec (a <= b)%R (b < a)%R (Rleb a b).
Proof.
  destruct (Rleb a b) eqn:E; constructor;
    [now apply Rleb_true | now apply Rleb_false].
Qed.

Lemma lerp_year_arg (k1 k2 : Z) (p1 p2 s : R) :
  k1 < k2 -> (p1 < p2)%R -> (p1 <= s <= p2)%R ->
  (IZR k1 <= IZR k1 + (s - p1) / (p2 - p1) * (IZR k2 - IZR k1) <= IZR k2)%R.
Proof.
  intros Hk Hp [H1 H2]. apply IZR_lt in Hk.
  set (t := ((s - p1) / (p2 - p1))%R).
  assert (Hd : (0 < p2 - p1)%R) by lra.
  assert (Ht0 : (0 <= t)%R).
  { unfold t. apply Rmult_le_pos; [lra|]. left. now apply Rinv_0_lt_compat. }
  assert (Ht1 : (t <= 1)%R).
  { unfold t. apply Rmult_le_reg_r with (p2 - p1)%R; [exact Hd|].
    unfold Rdiv. rewrite Rmult_assoc, Rinv_l by lra. lra. }
  split; nra.
Qed.

Lemma lerp_year_between (k1 k2 : Z) (p1 p2 s : R) :
  k1 < k2 -> (p1 < p2)%R -> (p1 <= s <= p2)%R ->
  k1 <= Zfloor (IZR k1 + (s - p1) / (p2 - p1) * (IZR k2 - IZR k1) + / 2) <= k2.
Proof.
  intros Hk Hp Hs. destruct (lerp_year_arg k1 k2 p1 p2 s Hk Hp Hs) as [H1 H2].
  set (x := (IZR k1 + (s - p1) / (p2 - p1) * (IZR k2 - IZR k1))%R) in *.
  destruct (Zfloor_bound (x + / 2)) as [F1 F2]. split.
  - apply Zfloor_lub. lra.
  - assert (H : (IZR (Zfloor (x + / 2)) < IZR (k2 + 1))%R) by (rewrite plus_IZR; lra).
    apply lt_IZR in H. lia.
Qed.

Lemma lerp_year_mono (k1 k2 : Z) (p1 p2 s s' : R) :
  k1 < k2 -> (p1 < p2)%R -> (s <= s')%R ->
  Zfloor (IZR k1 + (s - p1) / (p2 - p1) * (IZR k2 - IZR k1) + / 2)
  <= Zfloor (IZR k1 + (s' - p1) / (p2 - p1) * (IZR k2 - IZR k1) + / 2).
Proof.
  intros Hk Hp Hs. apply IZR_lt in Hk. apply Zfloor_le.
  assert (Hi : (0 < / (p2 - p1))%R) by (apply Rinv_0_lt_compat; lra).
  unfold Rdiv. apply Rplus_le_compat_r, Rplus_le_compat_l.
  apply Rmult_le_compat_r; [lra|]. apply Rmult_le_compat_r; lra.
Qed.

Lemma yearOf_bounds (e : Z * R) (P : list (Z * R)) (s : R) :
  increasing (e :: P) ->
  fst e <= yearOf (e :: P) s <= fst (last (e :: P) e).
Proof.
  revert e. induction P as [|[k2 p2] P IH]; intros [k1 p1] Hinc.
  - cbn. lia.
  - rewrite yearOf_cons2. cbn [fst].
    inversion Hinc as [|? ? Hs Hall]; subst.
    assert (H12 : lt2 (k1, p1) (k2, p2)) by (inversion Hall; assumption).
    destruct H12 as [Hk Hp]. cbn [fst snd] in Hk, Hp.
    change (last ((k1, p1) :: (k2, p2) :: P) (k1, p1))
      with (last ((k2, p2) :: P) (k1, p1)).
    rewrite (last_cons (k2, p2) (k1, p1)), <- (last_cons (k2, p2) (k2, p2)).
    destruct (increasing_hd_last P (k2, p2) (k2, p2) Hs) as [Hl _]. cbn [fst] in Hl.
    destruct (Rleb_spec s p1); [lia|].
    destruct (Rleb_spec s p2).
    + destruct (lerp_year_between k1 k2 p1 p2 s Hk Hp ltac:(lra)). lia.
    + specialize (IH (k2, p2) Hs). cbn [fst] in IH. lia.
Qed.

(** The reference year is monotone in the position. *)
Lemma yearOf_mono (P : list (Z * R)) (s s' : R) :
  increasing P -> (s <= s')%R -> yearOf P s <= yearOf P s'.
Proof.
  intros Hinc Hs'. induction Hinc as [|[k1 p1] P Hs IH Hall]; [cbn; lia|].
  destruct P as [|[k2 p2] P]; [cbn; lia|].
  assert (H12 : lt2 (k1, p1) (k2, p2)) by (inversion Hall; assumption).
  destruct H12 as [Hk Hp]. cbn [fst snd] in Hk, Hp.
  rewrite !yearOf_cons2.
  assert (Hlow : forall z, k2 <= yearOf ((k2, p2) :: P) z).
  { intros z. now destruct (yearOf_bounds (k2, p2) P z Hs). }
  destruct (Rleb_spec s p1), (Rleb_spec s' p1); try lra.
  - lia.
  - destruct (Rleb_spec s' p2).
    + destruct (lerp_year_between k1 k2 p1 p2 s' Hk Hp ltac:(lra)). lia.
    + specialize (Hlow s'). lia.
  - destruct (Rleb_spec s p2), (Rleb_spec s' p2); try lra.
    + now apply lerp_year_mono.
    + destruct (lerp_year_between k1 k2 p1 p2 s Hk Hp ltac:(lra)).
      specialize (Hlow s'). lia.
    + exact IH.
Qed.

Lemma yearOf_above (e : Z * R) (P : list (Z * R)) (s : R) :
  increasing (e :: P) -> (snd (last (e :: P) e) <= s)%R ->
  yearOf (e :: P) s = fst (last (e :: P) e).
Proof.
  revert e. induction P as [|[k2 p2] P IH]; intros [k1 p1] Hinc Hs; [reflexivity|].
  rewrite yearOf_cons2.
  inversion Hinc as [|? ? Hs' Hall]; subst.
  assert (H12 : lt2 (k1, p1) (k2, p2)) by (inversion Hall; assumption).
  destruct H12 as [Hk Hp]. cbn [fst snd] in Hk, Hp.
  change (last ((k1, p1) :: (k2, p2) :: P) (k1, p1))
    with (last ((k2, p2) :: P) (k1, p1)) in *.
  rewrite (last_cons (k2, p2) (k1, p1)), <- (last_cons (k2, p2) (k2, p2)) in *.
  destruct (increasing_hd_last P (k2, p2) (k2, p2) Hs') as [_ Hl]. cbn [snd] in Hl.
  replace (Rleb s p1) with false by (symmetry; apply Rleb_false; lra).
  destruct (Rleb_spec s p2) as [Hle|Hgt].
  - assert (Es : s = p2) by lra. subst s.
    destruct P as [|e3 P].
    + cbn [last fst]. apply Zfloor_eq.
      apply IZR_lt in Hk.
      replace ((p2 - p1) / (p2 - p1))%R with 1%R by (field; lra). lra.
    + exfalso. inversion Hs' as [|? ? _ Hall3]; subst.
      rewrite Forall_forall in Hall3.
      destruct (Hall3 (last (e3 :: P) (k2, p2))) as [_ Hq]; [apply last_In|].
      change (last ((k2, p2) :: e3 :: P) (k2, p2))
        with (last (e3 :: P) (k2, p2)) in Hs.
      cbn [snd] in Hq. lra.
  - now apply IH.
Qed.

Lemma scanByPosition_yearOf (e : Z * R) (P : list (Z * R)) (s : R) :
  increasing (e :: P) -> (snd e < s)%R -> (s < snd (last (e :: P) e))%R ->
  Dated.scanByPosition (finiteTable (e :: P)) (Num s)
  = Some (of_year (yearOf (e :: P) s)).
Proof.
  revert e. induction P as [|[k2 p2] P IH]; intros [k1 p1] Hinc Hlo Hhi.
  - cbn in Hlo, Hhi. lra.
  - cbn [snd] in Hlo. rewrite yearOf_cons2.
    change (Dated.scanByPosition (finiteTable ((k1, p1) :: (k2, p2) :: P)) (Num s))
      with (if js_ge (Num s) (Num p1) && js_le (Num s) (Num p2)
            then Some (js_round (js_add (of_year k1)
                   (js_mul (js_div (js_sub (Num s) (Num p1)) (js_sub (Num p2) (Num p1)))
                      (js_sub (of_year k2) (of_year k1)))))
            else Dated.scanByPosition (finiteTable ((k2, p2) :: P)) (Num s)).
    inversion Hinc as [|? ? Hs Hall]; subst.
    assert (H12 : lt2 (k1, p1) (k2, p2)) by (inversion Hall; assumption).
    destruct H12 as [Hk Hp]. cbn [fst snd] in Hk, Hp.
    cbn [js_ge js_le].
    replace (Rleb p1 s) with true by (symmetry; apply Rleb_true; lra).
    replace (Rleb s p1) with false by (symmetry; apply Rleb_false; lra).
    cbn [andb]. destruct (Rleb_spec s p2).
    + unfold of_year, js_sub. cbn [js_neg js_add].
      rewrite js_div_finite by lra. reflexivity.
    + apply IH; [exact Hs | exact H |].
      change (last ((k1, p1) :: (k2, p2) :: P) (k1, p1))
        with (last ((k2, p2) :: P) (k1, p1)) in Hhi.
      now rewrite (last_cons (k2, p2) (k1, p1)), <- (last_cons (k2, p2) (k2, p2)) in Hhi.
Qed.

Lemma clamp_real (s : R) :
  js_max (Num 0) (js_min (Num 1) (Num s)) = Num (Rmax 0 (Rmin 1 s)).
Proof.
  cbn [js_min js_le]. unfold Rmin, Rmax.
  destruct (Rleb_spec 1 s), (Rle_dec 1 s); try lra; cbn [js_max js_le].
  - destruct (Rleb_spec 0 1), (Rle_dec 0 1); try lra. reflexivity.
  - destruct (Rleb_spec 0 s), (Rle_dec 0 s); try lra; reflexivity.
Qed.

(** On a finite, strictly increasing table [Dated.scrollToYear] is the
    reference interpolation of the clamped position. *)
Lemma scrollToYear_yearOf (e : Z * R) (P : list (Z * R)) (s : R) :
  increasing (e :: P) ->
  Dated.scrollToYear (finiteTable (e :: P)) (Num s)
  = Some (of_year (yearOf (e :: P) (Rmax 0 (Rmin 1 s)))).
Proof.
  intros Hinc. rewrite scrollToYear_unfold. cbv zeta. rewrite clamp_real.
  set (c := Rmax 0 (Rmin 1 s)). cbn [js_le js_ge].
  destruct (Rleb_spec c (snd e)) as [Hle|Hgt].
  - destruct e as [k1 p1]. cbn [fst snd] in *.
    destruct P as [|[k2 p2] P]; [reflexivity|].
    rewrite yearOf_cons2.
    now replace (Rleb c p1) with true by (symmetry; apply Rleb_true; lra).
  - destruct (Rleb_spec (snd (last (e :: P) e)) c) as [Hge|Hlt].
    + now rewrite yearOf_above.
    + now rewrite scanByPosition_yearOf.
Qed.

(** ** The mapping when some event is not in the current year *)

(** With an event outside the current year the grid has two distinct
    years, and the stored table is finite. *)
Lemma build_finite (CURRENT_YEAR : Z) (books : list Book.t)
    (milestones : list Milestone.t) :
  (exists ev, In ev (Dated.sortedEvents books milestones) /\
              Dated.Event.year ev <> CURRENT_YEAR) ->
  exists first rest e P,
    Dated.sortedEvents books milestones = first :: rest /\
    increasing (e :: P) /\
    e = (hd 0 (Dated.gridYears CURRENT_YEAR books milestones), marginStart) /\
    last (e :: P) e
    = (last (Dated.gridYears CURRENT_YEAR books milestones) 0, (1 - marginEnd)%R) /\
    (forall x, In x (e :: P) -> (marginStart <= snd x <= 1 - marginEnd)%R) /\
    Dated.buildYearMapping CURRENT_YEAR books milestones
    = Dated.Mapping.mk (Dated.scrollToYear (finiteTable (e :: P)))
        (Dated.yearToScroll (finiteTable (e :: P))) (Dated.Event.year first)
        CURRENT_YEAR (first :: rest)
        (Some (finiteTable (e :: P))) (Some (finiteTable (e :: P))).
Proof.
  intros (ev & Hev & Hyear).
  assert (Hne : Dated.sortedEvents books milestones <> [])
    by (intros E; rewrite E in Hev; contradiction).
  destruct (build_unfold CURRENT_YEAR books milestones Hne)
    as (first & rest & N & Eev & Hb & Em).
  destruct Hb as [(y0 & -> & Hall)|(e & P & c & -> & Hinc & He & Hl & Hrange & _)].
  - exfalso. apply Hyear.
    rewrite (Hall (Dated.Event.year ev)), (Hall CURRENT_YEAR); [reflexivity | |];
      apply uniqueYears_In; [now right | left; now apply in_map].
  - now exists first, rest, e, P.
Qed.

(** [Dated.yearToScroll] is monotone on all years, not only on grid years:
    for any two years [y <= y'] it returns finite positions [p <= p']. *)
Lemma dated_yearToScroll_monotone_every_year (CURRENT_YEAR : Z)
    (books : list Book.t) (milestones : list Milestone.t) (y y' : Z) :
  (exists ev, In ev (Dated.sortedEvents books milestones) /\
              Dated.Event.year ev <> CURRENT_YEAR) ->
  y <= y' ->
  let m := Dated.buildYearMapping CURRENT_YEAR books milestones in
  exists p p',
    Dated.Mapping.yearToScroll m y = Some (Num p) /\
    Dated.Mapping.yearToScroll m y' = Some (Num p') /\
    (p <= p')%R.
Proof.
  intros Hev Hy m. subst m.
  destruct (build_finite _ _ _ Hev) as (first & rest & e & P & _ & Hinc & _ & _ & _ & ->).
  cbn [Dated.Mapping.yearToScroll].
  exists (positionOf (e :: P) y), (positionOf (e :: P) y').
  rewrite !yearToScroll_positionOf by exact Hinc.
  split; [reflexivity|]. split; [reflexivity|]. now apply positionOf_mono.
Qed.

(** For every year, grid year or not, [Dated.yearToScroll] returns a finite
    position between the two margins, 0.02 and 0.98. *)
Lemma dated_yearToScroll_within_margins (CURRENT_YEAR : Z)
    (books : list Book.t) (milestones : list Milestone.t) (y : Z) :
  (exists ev, In ev (Dated.sortedEvents books milestones) /\
              Dated.Event.year ev <> CURRENT_YEAR) ->
  let m := Dated.buildYearMapping CURRENT_YEAR books milestones in
  exists p, Dated.Mapping.yearToScroll m y = Some (Num p) /\ (0.02 <= p <= 0.98)%R.
Proof.
  intros Hev m. subst m.
  destruct (build_finite _ _ _ Hev)
    as (first & rest & e & P & _ & Hinc & He & Hl & _ & ->).
  cbn [Dated.Mapping.yearToScroll].
  exists (positionOf (e :: P) y).
  rewrite yearToScroll_positionOf by exact Hinc. split; [reflexivity|].
  destruct (positionOf_bounds e P y Hinc) as [H1 H2].
  rewrite Hl in H2. cbn [snd] in H2.
  replace (snd e) with marginStart in H1 by now rewrite He.
  unfold marginStart, marginEnd in *. lra.
Qed.

(** The first entry of the stored table is the first grid year at
    position 0.02 and the last entry is the last grid year at position
    0.98. *)
Lemma dated_table_spans_margins (CURRENT_YEAR : Z)
    (books : list Book.t) (milestones : list Milestone.t) :
  (exists ev, In ev (Dated.sortedEvents books milestones) /\
              Dated.Event.year ev <> CURRENT_YEAR) ->
  let m := Dated.buildYearMapping CURRENT_YEAR books milestones in
  let grid := Dated.gridYears CURRENT_YEAR books milestones in
  exists N first,
    Dated.Mapping._sortedYears m = Some N /\
    Dated.Mapping._yearPositions m = Some N /\
    hd_error N = Some first /\
    first = (hd 0 grid, Num 0.02) /\
    last N first = (last grid 0, Num 0.98).
Proof.
  intros Hev m grid. subst m grid.
  destruct (build_finite _ _ _ Hev)
    as (first & rest & e & P & _ & Hinc & He & Hl & _ & ->).
  cbn [Dated.Mapping._sortedYears Dated.Mapping._yearPositions].
  exists (finiteTable (e :: P)), (fst e, Num (snd e)).
  split; [reflexivity|]. split; [reflexivity|]. split; [reflexivity|].
  rewrite (last_finiteTable (e :: P) e), Hl, He. cbn [fst snd].
  unfold marginStart, marginEnd. split; [reflexivity|].
  f_equal. f_equal. lra.
Qed.

(** [Dated.scrollToYear] is monotone: a larger scroll position never gives
    an earlier year. *)
Lemma dated_scrollToYear_monotone (CURRENT_YEAR : Z)
    (books : list Book.t) (milestones : list Milestone.t) (s s' : R) :
  Dated.sortedEvents books milestones <> [] ->
  (s <= s')%R ->
  let m := Dated.buildYearMapping CURRENT_YEAR books milestones in
  exists y y',
    Dated.Mapping.scrollToYear m (Num s) = Some (of_year y) /\
    Dated.Mapping.scrollToYear m (Num s') = Some (of_year y') /\
    y <= y'.
Proof.
  intros Hne Hs m. subst m.
  destruct (build_unfold CURRENT_YEAR books milestones Hne)
    as (first & rest & N & _ & Hb & ->).
  cbn [Dated.Mapping.scrollToYear].
  destruct Hb as [(y0 & -> & _)|(e & P & c & -> & Hinc & _)].
  - exists y0, y0. rewrite !scrollToYear_single. repeat split. lia.
  - exists (yearOf (e :: P) (Rmax 0 (Rmin 1 s))),
           (yearOf (e :: P) (Rmax 0 (Rmin 1 s'))).
    rewrite !scrollToYear_yearOf by exact Hinc.
    split; [reflexivity|]. split; [reflexivity|].
    apply yearOf_mono; [exact Hinc|].
    unfold Rmax, Rmin.
    destruct (Rle_dec 1 s), (Rle_dec 1 s');
      repeat match goal with |- context [Rle_dec ?a ?b] => destruct (Rle_dec a b) end;
      lra.
Qed.

Lemma positionOf_gt (e e2 : Z * R) (P : list (Z * R)) (y : Z) :
  increasing (e :: e2 :: P) -> fst e < y ->
  (snd e < positionOf (e :: e2 :: P) y)%R.
Proof.
  destruct e as [k1 p1], e2 as [k2 p2]. intros Hinc Hy. cbn [fst snd] in *.
  rewrite positionOf_cons2.
  inversion Hinc as [|? ? Hs Hall]; subst.
  assert (H12 : lt2 (k1, p1) (k2, p2)) by (inversion Hall; assumption).
  destruct H12 as [Hk Hp]. cbn [fst snd] in Hk, Hp.
  replace (y <=? k1) with false by (symmetry; apply Z.leb_gt; lia).
  destruct (Z.leb_spec y k2).
  - apply IZR_lt in Hy, Hk.
    assert (Hi : (0 < / (IZR k2 - IZR k1))%R) by (apply Rinv_0_lt_compat; lra).
    assert (Ht : (0 < (IZR y - IZR k1) / (IZR k2 - IZR k1))%R)
      by (apply Rmult_lt_0_compat; lra).
    nra.
  - destruct (positionOf_bounds (k2, p2) P y Hs) as [Hb _]. cbn [snd] in Hb. lra.
Qed.

(** The two reference interpolations are inverse to each other on the
    years between the first and the last entry. *)
Lemma yearOf_positionOf (e : Z * R) (P : list (Z * R)) (y : Z) :
  increasing (e :: P) -> fst e <= y <= fst (last (e :: P) e) ->
  yearOf (e :: P) (positionOf (e :: P) y) = y.
Proof.
  revert e. induction P as [|[k2 p2] P IH]; intros [k1 p1] Hinc [Hlo Hhi].
  - cbn in *. lia.
  - cbn [fst] in Hlo.
    change (last ((k1, p1) :: (k2, p2) :: P) (k1, p1))
      with (last ((k2, p2) :: P) (k1, p1)) in Hhi.
    rewrite (last_cons (k2, p2) (k1, p1)), <- (last_cons (k2, p2) (k2, p2)) in Hhi.
    inversion Hinc as [|? ? Hs Hall]; subst.
    assert (H12 : lt2 (k1, p1) (k2, p2)) by (inversion Hall; assumption).
    destruct H12 as [Hk Hp]. cbn [fst snd] in Hk, Hp.
    rewrite yearOf_cons2.
    destruct (Z.eq_dec y k1) as [->|Hne].
    { rewrite positionOf_cons2, Z.leb_refl.
      now replace (Rleb p1 p1) with true by (symmetry; apply Rleb_true; lra). }
    assert (Hgt := positionOf_gt (k1, p1) (k2, p2) P y Hinc ltac:(cbn; lia)).
    cbn [snd] in Hgt.
    replace (Rleb (positionOf ((k1, p1) :: (k2, p2) :: P) y) p1) with false
      by (symmetry; apply Rleb_false; lra).
    rewrite positionOf_cons2 in *.
    replace (y <=? k1) with false in * by (symmetry; apply Z.leb_gt; lia).
    destruct (Z.leb_spec y k2) as [Hle|Hgt2].
    + destruct (lerp_between k1 k2 y p1 p2 ltac:(lia) Hp) as [_ Hub].
      replace (Rleb _ p2) with true by (symmetry; now apply Rleb_true).
      apply Zfloor_eq. apply IZR_lt in Hk.
      replace (IZR k1 + (p1 + (IZR y - IZR k1) / (IZR k2 - IZR k1) * (p2 - p1) - p1)
                        / (p2 - p1) * (IZR k2 - IZR k1))%R
        with (IZR y) by (field; lra).
      lra.
    + destruct P as [|e3 P]; [cbn in Hhi; lia|].
      assert (Hgt3 := positionOf_gt (k2, p2) e3 P y Hs ltac:(cbn; lia)).
      cbn [snd] in Hgt3.
      replace (Rleb (positionOf ((k2, p2) :: e3 :: P) y) p2) with false
        by (symmetry; apply Rleb_false; lra).
      apply (IH (k2, p2) Hs). cbn [fst]. split; [lia | exact Hhi].
Qed.

(** The round trip is exact on every whole year between the first
    and the last grid year, grid year or not: [Dated.scrollToYear] of
    [Dated.yearToScroll y] is [y]. *)
Lemma dated_round_trip_every_year (CURRENT_YEAR : Z)
    (books : list Book.t) (milestones : list Milestone.t) (y : Z) :
  (exists ev, In ev (Dated.sortedEvents books milestones) /\
              Dated.Event.year ev <> CURRENT_YEAR) ->
  hd 0 (Dated.gridYears CURRENT_YEAR books milestones) <= y
  <= last (Dated.gridYears CURRENT_YEAR books milestones) 0 ->
  let m := Dated.buildYearMapping CURRENT_YEAR books milestones in
  exists p,
    Dated.Mapping.yearToScroll m y = Some (Num p) /\
    Dated.Mapping.scrollToYear m (Num p) = Some (of_year y).
Proof.
  intros Hev Hy m. subst m.
  destruct (build_finite _ _ _ Hev)
    as (first & rest & e & P & _ & Hinc & He & Hl & _ & ->).
  cbn [Dated.Mapping.yearToScroll Dated.Mapping.scrollToYear].
  exists (positionOf (e :: P) y).
  rewrite yearToScroll_positionOf by exact Hinc. split; [reflexivity|].
  rewrite scrollToYear_yearOf by exact Hinc.
  destruct (positionOf_bounds e P y Hinc) as [H1 H2].
  rewrite Hl in H2. cbn [snd] in H2.
  replace (snd e) with marginStart in H1 by now rewrite He.
  unfold marginStart, marginEnd in *.
  replace (Rmax 0 (Rmin 1 (positionOf (e :: P) y))) with (positionOf (e :: P) y).
  - rewrite yearOf_positionOf; [reflexivity | exact Hinc|].
    rewrite Hl. replace (fst e) with (hd 0 (Dated.gridYears CURRENT_YEAR books milestones))
      by now rewrite He.
    exact Hy.
  - unfold Rmax, Rmin.
    destruct (Rle_dec 1 (positionOf (e :: P) y)); [lra|].
    destruct (Rle_dec 0 (positionOf (e :: P) y)); lra.
Qed.

(** ** Independence of the order of the input *)

Lemma filter_perm {A : Type} (f : A -> bool) (l l' : list A) :
  Permutation l l' -> Permutation (filter f l) (filter f l').
Proof.
  induction 1 as [|x l l' _ IH|x y l|l l' l'' _ IH1 _ IH2]; cbn [filter].
  - constructor.
  - destruct (f x); [now constructor | exact IH].
  - destruct (f x), (f y); try reflexivity. apply perm_swap.
  - now transitivity (filter f l').
Qed.

Lemma sorted_perm_eq (l l' : list Z) :
  StronglySorted Z.le l -> StronglySorted Z.le l' -> Permutation l l' -> l = l'.
Proof.
  intros Hs. revert l'. induction Hs as [|x l Hs IH Hx]; intros l' Hs' Hp.
  - now apply Permutation_nil in Hp.
  - destruct Hs' as [|x' l' Hs' Hx'].
    + symmetry in Hp. now apply Permutation_nil in Hp.
    + rewrite Forall_forall in Hx, Hx'.
      assert (E : x = x').
      { assert (H1 : In x (x' :: l')) by (apply (Permutation_in _ Hp); now left).
        assert (H2 : In x' (x :: l))
          by (apply (Permutation_in _ (Permutation_sym Hp)); now left).
        destruct H1 as [H1|H1]; [now symmetry|].
        destruct H2 as [H2|H2]; [exact H2|].
        specialize (Hx _ H2). specialize (Hx' _ H1). lia. }
      subst x'. f_equal. apply IH; [exact Hs'|].
      now apply Permutation_cons_inv in Hp.
Qed.

Lemma set_add_NoDup (s : list Z) (x : Z) : NoDup s -> NoDup (Dated.set_add s x).
Proof.
  intros H. unfold Dated.set_add. destruct (existsb (Z.eqb x) s) eqn:E; [exact H|].
  apply NoDup_app; [exact H | repeat constructor; intros [] |].
  intros y Hy [Ey|[]]. subst y.
  assert (Ex : existsb (Z.eqb x) s = true)
    by (apply existsb_exists; exists x; split; [exact Hy | apply Z.eqb_refl]).
  congruence.
Qed.

Lemma new_Set_NoDup (l : list Z) : NoDup (Dated.new_Set l).
Proof.
  unfold Dated.new_Set.
  assert (G : forall s, NoDup s -> NoDup (fold_left Dated.set_add l s)).
  { induction l as [|x l IH]; intros s Hs; [exact Hs|].
    cbn [fold_left]. apply IH. now apply set_add_NoDup. }
  apply G. constructor.
Qed.

Lemma uniqueYears_perm (CURRENT_YEAR : Z) (events events' : list Dated.Event.t) :
  Permutation events events' ->
  Dated.uniqueYears CURRENT_YEAR events = Dated.uniqueYears CURRENT_YEAR events'.
Proof.
  intros Hp. apply sorted_perm_eq; try apply uniqueYears_sorted.
  unfold Dated.uniqueYears. rewrite !js_sort_perm.
  apply Permutation_app_tail.
  apply NoDup_Permutation; try apply new_Set_NoDup.
  intros y. rewrite !new_Set_In. split; apply Permutation_in.
  - now apply Permutation_map.
  - apply Permutation_map. now symmetry.
Qed.

Lemma Math_min_perm (l l' : list Z) :
  Permutation l l' -> Math_min l = Math_min l'.
Proof.
  intros Hp.
  destruct (Math_min l) as [d|] eqn:E, (Math_min l') as [d'|] eqn:E'.
  - destruct (Math_min_spec _ _ E) as [H1 H2], (Math_min_spec _ _ E') as [H1' H2'].
    f_equal. apply Z.le_antisymm.
    + apply H2. now apply (Permutation_in _ (Permutation_sym Hp)).
    + apply H2'. now apply (Permutation_in _ Hp).
  - destruct l' as [|x l']; [|discriminate E'].
    apply Permutation_sym, Permutation_nil in Hp. subst l. discriminate E.
  - destruct l as [|x l]; [|discriminate E].
    apply Permutation_nil in Hp. subst l'. discriminate E'.
  - reflexivity.
Qed.

Lemma scrollWeight_perm (br br' mr mr' : list Range.t) (prevYear year : Z) :
  Permutation br br' -> Permutation mr mr' ->
  scrollWeight br mr prevYear year = scrollWeight br' mr' prevYear year.
Proof.
  intros Hb Hm. unfold scrollWeight, getActiveBooksInfo, getActiveMilestonesInfo.
  cbn [ActiveBooks.count ActiveBooks.minDuration ActiveMilestones.count].
  set (mid := round_half (prevYear + year)).
  assert (Hfb := filter_perm (activeAt mid) _ _ Hb).
  assert (Hfm := filter_perm (activeAt mid) _ _ Hm).
  rewrite (Permutation_length Hfb), (Permutation_length Hfm).
  rewrite (Math_min_perm _ _
             (Permutation_map (fun r => Range.end_ r - Range.start r) Hfb)).
  reflexivity.
Qed.

Lemma accumulate_ext (br br' mr mr' : list Range.t) (rest : list Z) :
  (forall p y, scrollWeight br mr p y = scrollWeight br' mr' p y) ->
  forall prev acc T,
    Dated.accumulate br mr prev rest acc T = Dated.accumulate br' mr' prev rest acc T.
Proof.
  intros Hw. induction rest as [|y rest IH]; intros prev acc T; [reflexivity|].
  cbn [Dated.accumulate]. now rewrite Hw, IH.
Qed.

Lemma bookRanges_perm (books books' : list Book.t) :
  Permutation books books' -> Permutation (Dated.bookRanges books) (Dated.bookRanges books').
Proof. intros H. unfold Dated.bookRanges. now rewrite H. Qed.

Lemma pushedEvents_perm (books books' : list Book.t)
    (milestones milestones' : list Milestone.t) :
  Permutation books books' -> Permutation milestones milestones' ->
  Permutation (Dated.pushedEvents books milestones) (Dated.pushedEvents books' milestones').
Proof. intros Hb Hm. unfold Dated.pushedEvents. now rewrite Hb, Hm. Qed.

(** The order of the books and of the milestones in the input does
    not matter: the stored table, the two year fields and both queries
    are the same, and the [events] fields hold the same events. *)
Lemma dated_mapping_order_independent (CURRENT_YEAR : Z)
    (books books' : list Book.t) (milestones milestones' : list Milestone.t) :
  Permutation books books' -> Permutation milestones milestones' ->
  let m := Dated.buildYearMapping CURRENT_YEAR books milestones in
  let m' := Dated.buildYearMapping CURRENT_YEAR books' milestones' in
  Dated.Mapping._yearPositions m = Dated.Mapping._yearPositions m' /\
  Dated.Mapping._sortedYears m = Dated.Mapping._sortedYears m' /\
  Dated.Mapping.minYear m = Dated.Mapping.minYear m' /\
  Dated.Mapping.maxYear m = Dated.Mapping.maxYear m' /\
  (forall scrollPos, Dated.Mapping.scrollToYear m scrollPos
                     = Dated.Mapping.scrollToYear m' scrollPos) /\
  (forall year, Dated.Mapping.yearToScroll m year = Dated.Mapping.yearToScroll m' year) /\
  Permutation (Dated.Mapping.events m) (Dated.Mapping.events m').
Proof.
  intros Hb Hm m m'. subst m m'.
  assert (Hev : Permutation (Dated.sortedEvents books milestones)
                  (Dated.sortedEvents books' milestones')).
  { unfold Dated.sortedEvents. rewrite !js_sort_perm. now apply pushedEvents_perm. }
  assert (Hs := sortedEvents_sorted books milestones).
  assert (Hs' := sortedEvents_sorted books' milestones').
  assert (Hgrid := uniqueYears_perm CURRENT_YEAR _ _ Hev).
  assert (Hw : forall p y,
             scrollWeight (Dated.bookRanges books) (milestoneRanges milestones) p y
             = scrollWeight (Dated.bookRanges books') (milestoneRanges milestones') p y).
  { intros p y. apply scrollWeight_perm; [now apply bookRanges_perm|].
    unfold milestoneRanges. now apply Permutation_map. }
  unfold Dated.buildYearMapping.
  destruct (Dated.sortedEvents books milestones) as [|e evs] eqn:E,
           (Dated.sortedEvents books' milestones') as [|e' evs'] eqn:E'.
  - cbn. repeat split; constructor.
  - apply Permutation_nil in Hev. discriminate Hev.
  - apply Permutation_sym, Permutation_nil in Hev. discriminate Hev.
  - rewrite <- Hgrid.
    assert (Ey : Dated.yearPositions (Dated.bookRanges books) (milestoneRanges milestones)
                   (Dated.uniqueYears CURRENT_YEAR (e :: evs))
                 = Dated.yearPositions (Dated.bookRanges books') (milestoneRanges milestones')
                     (Dated.uniqueYears CURRENT_YEAR (e :: evs))).
    { unfold Dated.yearPositions. destruct (Dated.uniqueYears _ _); [reflexivity|].
      now apply accumulate_ext. }
    rewrite <- Ey.
    destruct (Dated.yearPositions _ _ _) as [T total].
    cbn [Dated.Mapping._yearPositions Dated.Mapping._sortedYears Dated.Mapping.minYear
         Dated.Mapping.maxYear Dated.Mapping.scrollToYear Dated.Mapping.yearToScroll Dated.Mapping.events].
    repeat split; try exact Hev.
    inversion Hs as [|? ? _ Hall]; inversion Hs' as [|? ? _ Hall']; subst.
    rewrite Forall_forall in Hall, Hall'.
    assert (H1 : In e (e' :: evs')) by (apply (Permutation_in _ Hev); now left).
    assert (H2 : In e' (e :: evs))
      by (apply (Permutation_in _ (Permutation_sym Hev)); now left).
    destruct H1 as [<-|H1]; [reflexivity|].
    destruct H2 as [<-|H2]; [reflexivity|].
    specialize (Hall _ H2). specialize (Hall' _ H1). lia.
Qed.

(** ** Adjacent grid years *)




(** On the main path every out-of-range query is answered at an end of
    the table: positions below 0 and above 1 give the first and the last
    grid year, years before the first and after the last grid year give
    the first and the last stored position. *)
Lemma dated_main_path_clamped (CURRENT_YEAR : Z) (books : list Book.t)
    (milestones : list Milestone.t) :
  Dated.sortedEvents books milestones <> [] ->
  let m := Dated.buildYearMapping CURRENT_YEAR books milestones in
  let grid := Dated.gridYears CURRENT_YEAR books milestones in
  Dated.Mapping.scrollToYear m (Num (-1)) = Some (of_year (hd 0 grid)) /\
  Dated.Mapping.scrollToYear m (Num 2) = Some (of_year (last grid 0)) /\
  exists N first,
    Dated.Mapping._sortedYears m = Some N /\
    hd_error N = Some first /\
    fst first = hd 0 grid /\
    fst (last N first) = last grid 0 /\
    (forall y, y <= hd 0 grid ->
               Dated.Mapping.yearToScroll m y = Some (snd first)) /\
    (forall y, last grid 0 <= y ->
               Dated.Mapping.yearToScroll m y = Some (snd (last N first))).
Proof.
  intros Hne m grid.
  destruct (build_boundaries CURRENT_YEAR books milestones Hne)
    as (G0 & G1 & _). fold m grid in G0, G1.
  destruct (build_clamped_ends CURRENT_YEAR books milestones Hne) as [C0 C1].
  fold m in C0, C1.
  split; [now rewrite C0|]. split; [now rewrite C1|].
  destruct (build_unfold CURRENT_YEAR books milestones Hne)
    as (first & rest & N & Eev & HB & Em).
  destruct (grid_hd_In CURRENT_YEAR books milestones) as [Hhd Hlast].
  fold grid in Hhd, Hlast.
  destruct (builtTable_ends _ _ _ _ HB Hhd Hlast) as (f & Ef & Ef1 & Ef2).
  assert (Hk := strictlyIncreasing_keys _ (builtTable_strictlyIncreasing _ _ _ _ HB)).
  subst m. rewrite Em.
  cbn [Dated.Mapping.yearToScroll Dated.Mapping._sortedYears].
  exists N, f. split; [reflexivity|]. split; [exact Ef|].
  fold grid in Ef1, Ef2. split; [exact Ef1|]. split; [exact Ef2|].
  destruct N as [|n0 N]; [discriminate Ef|]. injection Ef as ->.
  split; intros y Hy.
  - destruct (Z.eq_dec y (fst f)) as [->|Hne'].
    + apply yearToScroll_entry; [exact Hk | now left].
    + destruct (yearToScroll_outside f N y Hk) as [Hlo _]. apply Hlo. lia.
  - destruct (Z.eq_dec y (fst (last (f :: N) f))) as [->|Hne'].
    + apply yearToScroll_entry; [exact Hk | apply last_In].
    + destruct (yearToScroll_outside f N y Hk) as [_ Hhi]. apply Hhi. lia.
Qed.

(** * Agreement of [buildYearMapping] with the engine on dated events

    On a list of books that is [wellDated] no year is [null], and every
    stage of [buildYearMapping] computes what the stage of the engine on
    dated events computes, with each year [y] stored as [Some y]. *)

Section SortMap.
Context {A B : Type} (f : A -> B).
Context (gtbA : A -> A -> bool) (gtbB : B -> B -> bool).
Hypothesis gtb_f : forall a b, gtbB (f a) (f b) = gtbA a b.

Lemma insert_map (x : A) (l : list A) :
  insert gtbB (f x) (map f l) = map f (insert gtbA x l).
Proof.
  induction l as [|y l IH]; [reflexivity|].
  cbn [map insert]. rewrite gtb_f. destruct (gtbA x y); [|reflexivity].
  cbn [map]. now rewrite IH.
Qed.

Lemma js_sort_map (l : list A) :
  js_sort gtbB (map f l) = map f (js_sort gtbA l).
Proof.
  induction l as [|x l IH]; [reflexivity|].
  cbn [map js_sort]. rewrite IH. apply insert_map.
Qed.
End SortMap.

Lemma set_add_agree (s : list Z) (x : Z) :
  set_add (map Some s) (Some x) = map Some (Dated.set_add s x).
Proof.
  unfold set_add, Dated.set_add.
  replace (existsb (sameValueZero (Some x)) (map Some s))
    with (existsb (Z.eqb x) s).
  - destruct (existsb (Z.eqb x) s); [reflexivity|]. now rewrite map_app.
  - induction s as [|y s IH]; [reflexivity|]. cbn [map existsb sameValueZero].
    now rewrite IH.
Qed.

Lemma new_Set_agree (l : list Z) :
  new_Set (map Some l) = map Some (Dated.new_Set l).
Proof.
  unfold new_Set, Dated.new_Set.
  change (@nil (option Z)) with (map (@Some Z) []).
  generalize (@nil Z) as acc.
  induction l as [|x l IH]; intros acc; [reflexivity|].
  cbn [map fold_left]. rewrite set_add_agree. apply IH.
Qed.

Section MapAgree.
Context {V : Type}.

Lemma map_set_agree (k : Z) (v : V) (m : list (Z * V)) :
  map_set (Some k) v (yearTable m) = yearTable (Dated.map_set k v m).
Proof.
  induction m as [|[k' v'] m IH]; [reflexivity|].
  cbn [yearTable map fst snd map_set Dated.map_set sameValueZero].
  destruct (k =? k'); [reflexivity|].
  cbn [map fst snd]. f_equal. exact IH.
Qed.

Lemma map_get_agree (k : Z) (m : list (Z * V)) :
  map_get (Some k) (yearTable m) = Dated.map_get k m.
Proof.
  induction m as [|[k' v'] m IH]; [reflexivity|].
  cbn [yearTable map fst snd map_get Dated.map_get sameValueZero].
  destruct (k =? k'); [reflexivity | exact IH].
Qed.

Lemma yearTable_In (k : Z) (v : V) (m : list (Z * V)) :
  In (Some k, v) (yearTable m) <-> In (k, v) m.
Proof.
  unfold yearTable. rewrite in_map_iff. split.
  - intros ([k' v'] & [= -> ->] & H). exact H.
  - intros H. now exists (k, v).
Qed.
End MapAgree.

Lemma accumulate_agree (br mr : list Range.t) (rest : list Z) :
  forall (prev : Z) (acc : R) (yp : list (Z * R)),
  accumulate br mr (Some prev) (map Some rest) acc (yearTable yp)
  = (yearTable (fst (Dated.accumulate br mr prev rest acc yp)),
     snd (Dated.accumulate br mr prev rest acc yp)).
Proof.
  induction rest as [|y rest IH]; intros prev acc yp; [reflexivity|].
  cbn [map accumulate Dated.accumulate toNumber].
  rewrite map_set_agree. apply IH.
Qed.

Lemma yearPositions_agree (br mr : list Range.t) (grid : list Z) :
  yearPositions br mr (map Some grid)
  = (yearTable (fst (Dated.yearPositions br mr grid)),
     snd (Dated.yearPositions br mr grid)).
Proof.
  destruct grid as [|y rest]; [reflexivity|].
  cbn [map yearPositions Dated.yearPositions].
  change (map_set (Some y) 0%R []) with (yearTable (Dated.map_set y 0%R [])).
  apply accumulate_agree.
Qed.

Lemma normalizedPositions_agree (total : R) (yp : list (Z * R)) :
  normalizedPositions total (yearTable yp)
  = yearTable (Dated.normalizedPositions total yp).
Proof.
  unfold normalizedPositions, Dated.normalizedPositions.
  change (@nil (option Z * number)) with (yearTable (@nil (Z * number))).
  generalize (@nil (Z * number)) as acc.
  induction yp as [|[k v] yp IH]; intros acc; [reflexivity|].
  cbn [yearTable map fold_left fst snd].
  rewrite map_set_agree. apply IH.
Qed.

Lemma sortByPosition_agree (N : list (Z * number)) :
  sortByPosition (yearTable N) = yearTable (Dated.sortByPosition N).
Proof. unfold sortByPosition, Dated.sortByPosition, yearTable. now apply js_sort_map. Qed.

Lemma sortByYear_agree (N : list (Z * number)) :
  sortByYear (yearTable N) = yearTable (Dated.sortByYear N).
Proof. unfold sortByYear, Dated.sortByYear, yearTable. now apply js_sort_map. Qed.

Lemma scanByPosition_agree (T : list (Z * number)) (s : number) :
  scanByPosition (yearTable T) s = Dated.scanByPosition T s.
Proof.
  induction T as [|[y1 p1] T IH]; [reflexivity|].
  destruct T as [|[y2 p2] T]; [reflexivity|].
  cbn [yearTable map fst snd scanByPosition Dated.scanByPosition toNumber] in *.
  destruct (js_ge s p1 && js_le s p2); [reflexivity | exact IH].
Qed.

Lemma scrollToYear_agree (T : list (Z * number)) (s : number) :
  scrollToYear (yearTable T) s = option_map Number (Dated.scrollToYear T s).
Proof.
  unfold scrollToYear, Dated.scrollToYear.
  destruct T as [|first T]; [reflexivity|].
  rewrite scanByPosition_agree.
  change (yearTable (first :: T))
    with (map (fun e : Z * number => (Some (fst e), snd e)) (first :: T)).
  cbn [map fst snd].
  change ((Some (fst first), snd first)
          :: map (fun e : Z * number => (Some (fst e), snd e)) T)
    with (map (fun e : Z * number => (Some (fst e), snd e)) (first :: T)).
  rewrite (last_map (fun e : Z * number => (Some (fst e), snd e)) (first :: T) first).
  cbn [fst snd storedYear].
  destruct (js_le _ (snd first)); [reflexivity|].
  destruct (js_ge _ (snd (last (first :: T) first))); [reflexivity|].
  destruct (Dated.scanByPosition (first :: T) _); reflexivity.
Qed.

Lemma scanByYear_agree (T : list (Z * number)) (y : Z) :
  scanByYear (yearTable T) y = Dated.scanByYear T y.
Proof.
  induction T as [|[y1 p1] T IH]; [reflexivity|].
  destruct T as [|[y2 p2] T]; [reflexivity|].
  cbn [yearTable map fst snd scanByYear Dated.scanByYear toNumber] in *.
  destruct ((y >=? y1) && (y <=? y2)); [reflexivity | exact IH].
Qed.

Lemma yearToScroll_agree (N : list (Z * number)) (y : Z) :
  yearToScroll (yearTable N) y = Dated.yearToScroll N y.
Proof.
  unfold yearToScroll, Dated.yearToScroll.
  rewrite map_get_agree, sortByYear_agree, scanByYear_agree.
  destruct (Dated.map_get y N); [reflexivity|].
  destruct (Dated.sortByYear N) as [|first T]; [reflexivity|].
  change (yearTable (first :: T))
    with (map (fun e : Z * number => (Some (fst e), snd e)) (first :: T)).
  cbn [map fst snd].
  change ((Some (fst first), snd first)
          :: map (fun e : Z * number => (Some (fst e), snd e)) T)
    with (map (fun e : Z * number => (Some (fst e), snd e)) (first :: T)).
  rewrite (last_map (fun e : Z * number => (Some (fst e), snd e)) (first :: T) first).
  reflexivity.
Qed.

(** The events and the ranges. *)
Lemma bookEvents_agree (book : Book.t) :
  hasEnd book = true ->
  bookEvents book = map yearEvent (Dated.bookEvents book) /\
  bookRange book = Dated.bookRange book.
Proof.
  unfold hasEnd, bookEvents, Dated.bookEvents, bookRange, Dated.bookRange.
  destruct (DisplayDate.start (getDisplayDate book)) as [s|];
    destruct (DisplayDate.end_ (getDisplayDate book)) as [e|];
    intros H; try discriminate H; split; reflexivity.
Qed.

Lemma pushedEvents_agree (books : list Book.t) (milestones : list Milestone.t) :
  wellDated books = true ->
  pushedEvents books milestones
  = map yearEvent (Dated.pushedEvents books milestones).
Proof.
  intros Hw. unfold pushedEvents, Dated.pushedEvents. rewrite map_app. f_equal.
  - induction books as [|b books IH]; [reflexivity|].
    cbn [wellDated forallb] in Hw. apply andb_prop in Hw as [Hb Hw].
    cbn [flat_map]. rewrite map_app, (IH Hw).
    now rewrite (proj1 (bookEvents_agree b Hb)).
  - induction milestones as [|m ms IH]; [reflexivity|].
    cbn [flat_map]. rewrite map_app, IH. reflexivity.
Qed.

Lemma bookRanges_agree (books : list Book.t) :
  wellDated books = true -> bookRanges books = Dated.bookRanges books.
Proof.
  intros Hw. unfold bookRanges, Dated.bookRanges.
  induction books as [|b books IH]; [reflexivity|].
  cbn [wellDated forallb] in Hw. apply andb_prop in Hw as [Hb Hw].
  cbn [flat_map]. rewrite (IH Hw). now rewrite (proj2 (bookEvents_agree b Hb)).
Qed.

Lemma sortedEvents_agree (books : list Book.t) (milestones : list Milestone.t) :
  wellDated books = true ->
  sortedEvents books milestones
  = map yearEvent (Dated.sortedEvents books milestones).
Proof.
  intros Hw. unfold sortedEvents, Dated.sortedEvents.
  rewrite (pushedEvents_agree _ _ Hw). now apply js_sort_map.
Qed.

Lemma uniqueYears_agree (CURRENT_YEAR : Z) (events : list Dated.Event.t) :
  uniqueYears CURRENT_YEAR (map yearEvent events)
  = map Some (Dated.uniqueYears CURRENT_YEAR events).
Proof.
  unfold uniqueYears, Dated.uniqueYears.
  rewrite map_map.
  change (map (fun x => Event.year (yearEvent x)) events)
    with (map (fun x => Some (Dated.Event.year x)) events).
  rewrite <- (map_map Dated.Event.year Some), new_Set_agree.
  change [Some CURRENT_YEAR] with (map (@Some Z) [CURRENT_YEAR]).
  rewrite <- map_app. now apply js_sort_map.
Qed.

Lemma gridYears_agree (CURRENT_YEAR : Z) (books : list Book.t)
    (milestones : list Milestone.t) :
  wellDated books = true ->
  gridYears CURRENT_YEAR books milestones
  = map Some (Dated.gridYears CURRENT_YEAR books milestones).
Proof.
  intros Hw. unfold gridYears, Dated.gridYears.
  rewrite (sortedEvents_agree _ _ Hw). apply uniqueYears_agree.
Qed.

(** The whole object. *)
Lemma buildYearMapping_dated (CURRENT_YEAR : Z) (books : list Book.t)
    (milestones : list Milestone.t) :
  wellDated books = true ->
  let m := buildYearMapping CURRENT_YEAR books milestones in
  let d := Dated.buildYearMapping CURRENT_YEAR books milestones in
  (forall s, Mapping.scrollToYear m s
             = option_map Number (Dated.Mapping.scrollToYear d s)) /\
  (forall y, Mapping.yearToScroll m y = Dated.Mapping.yearToScroll d y) /\
  Mapping.minYear m = Some (Dated.Mapping.minYear d) /\
  Mapping.maxYear m = Dated.Mapping.maxYear d /\
  Mapping.events m = map yearEvent (Dated.Mapping.events d) /\
  Mapping._yearPositions m = option_map yearTable (Dated.Mapping._yearPositions d) /\
  Mapping._sortedYears m = option_map yearTable (Dated.Mapping._sortedYears d).
Proof.
  intros Hw m d. subst m d. unfold buildYearMapping, Dated.buildYearMapping.
  rewrite (sortedEvents_agree _ _ Hw), (bookRanges_agree _ Hw).
  destruct (Dated.sortedEvents books milestones) as [|first rest].
  - cbn [map]. repeat split; reflexivity.
  - change (map yearEvent (first :: rest))
      with (yearEvent first :: map yearEvent rest).
    cbv iota beta.
    change (yearEvent first :: map yearEvent rest)
      with (map yearEvent (first :: rest)).
    rewrite uniqueYears_agree, yearPositions_agree.
    destruct (Dated.yearPositions (Dated.bookRanges books)
                (milestoneRanges milestones)
                (Dated.uniqueYears CURRENT_YEAR (first :: rest))) as [yp total].
    cbn [fst snd]. rewrite normalizedPositions_agree, sortByPosition_agree.
    cbn [Mapping.scrollToYear Mapping.yearToScroll Mapping.minYear Mapping.maxYear
         Mapping.events Mapping._yearPositions Mapping._sortedYears
         Dated.Mapping.scrollToYear Dated.Mapping.yearToScroll
         Dated.Mapping.minYear Dated.Mapping.maxYear Dated.Mapping.events
         Dated.Mapping._yearPositions Dated.Mapping._sortedYears option_map].
    repeat split.
    + intros s. apply scrollToYear_agree.
    + intros y. apply yearToScroll_agree.
Qed.


Lemma sortedEvents_nonempty (books : list Book.t) (milestones : list Milestone.t) :
  wellDated books = true ->
  sortedEvents books milestones <> [] ->
  Dated.sortedEvents books milestones <> [].
Proof.
  intros Hw Hne E. apply Hne. now rewrite (sortedEvents_agree _ _ Hw), E.
Qed.

Lemma gridYears_ends (CURRENT_YEAR : Z) (books : list Book.t)
    (milestones : list Milestone.t) :
  wellDated books = true ->
  let grid := gridYears CURRENT_YEAR books milestones in
  let dgrid := Dated.gridYears CURRENT_YEAR books milestones in
  hd_error grid = Some (Some (hd 0 dgrid)) /\
  last grid None = Some (last dgrid 0).
Proof.
  intros Hw grid dgrid. subst grid. rewrite (gridYears_agree _ _ _ Hw).
  fold dgrid.
  assert (Hne : dgrid <> []) by apply uniqueYears_not_nil.
  destruct dgrid as [|y0 rest]; [contradiction|]. split; [reflexivity|].
  cbn [map]. rewrite last_cons.
  change (Some y0) with ((@Some Z) y0). rewrite last_map. now rewrite last_cons.
Qed.

(** * The claims

    The claims are about [buildYearMapping].  Where a claim speaks of the
    grid or of the stored table it is stated for the books of the
    specification's data model ([wellDated]: a book with a start date has
    an end date), on which no year is [null]. *)

Ltac dated_fields cy ms Hw :=
  let B := fresh "B" in
  pose proof (buildYearMapping_dated cy _ ms Hw) as B; cbv zeta in B;
  destruct B as (Es & Ey & Emin & Emax & Eev & Eyp & Esy).










(** ** Out-of-range queries *)

(** On the main path every out-of-range query is answered at an end of
    the table, with no further condition on the events: positions below 0
    and above 1 give the first and the last grid year, years up to the
    first and from the last grid year on give the first and the last
    stored position. *)
Lemma main_path_clamped (CURRENT_YEAR : Z) (books : list Book.t)
    (milestones : list Milestone.t) :
  wellDated books = true ->
  sortedEvents books milestones <> [] ->
  let m := buildYearMapping CURRENT_YEAR books milestones in
  let grid := gridYears CURRENT_YEAR books milestones in
  exists lo hi N first,
    hd_error grid = Some (Some lo) /\
    last grid None = Some hi /\
    Mapping.scrollToYear m (Num (-1)) = Some (Number (of_year lo)) /\
    Mapping.scrollToYear m (Num 2) = Some (Number (of_year hi)) /\
    Mapping._sortedYears m = Some N /\
    hd_error N = Some first /\
    fst first = Some lo /\
    fst (last N first) = Some hi /\
    (forall y, y <= lo -> Mapping.yearToScroll m y = Some (snd first)) /\
    (forall y, hi <= y -> Mapping.yearToScroll m y = Some (snd (last N first))).
Proof.
  intros Hw Hne m grid. subst m grid.
  assert (Hne' := sortedEvents_nonempty _ _ Hw Hne).
  dated_fields CURRENT_YEAR milestones Hw.
  pose proof (gridYears_ends CURRENT_YEAR books milestones Hw) as G.
  cbv zeta in G. destruct G as [Ghd Glast].
  pose proof (dated_main_path_clamped CURRENT_YEAR books milestones Hne') as D.
  cbv zeta in D.
  destruct D as (D0 & D1 & N & first & EN & Ef & Ef1 & Ef2 & Dlo & Dhi).
  exists (hd 0 (Dated.gridYears CURRENT_YEAR books milestones)),
    (last (Dated.gridYears CURRENT_YEAR books milestones) 0),
    (yearTable N), (Some (fst first), snd first).
  rewrite !Es, D0, D1, Esy, EN. cbn [option_map fst snd].
  split; [exact Ghd|]. split; [exact Glast|].
  split; [reflexivity|]. split; [reflexivity|]. split; [reflexivity|].
  split; [destruct N; [discriminate Ef | now injection Ef as ->]|].
  split; [now rewrite Ef1|].
  unfold yearTable.
  rewrite (last_map (fun e : Z * number => (Some (fst e), snd e)) N first).
  cbn [fst snd]. split; [now rewrite Ef2|].
  split; intros y Hy; rewrite Ey; [now apply Dlo | now apply Dhi].
Qed.

(** ** The fallback object *)

Lemma no_events_fallback (CURRENT_YEAR : Z) (books : list Book.t) :
  (forall b, In b books -> DisplayDate.start (getDisplayDate b) = None) ->
  buildYearMapping CURRENT_YEAR books [] = identityMapping.
Proof.
  intros H. unfold buildYearMapping.
  assert (E : sortedEvents books [] = []).
  { unfold sortedEvents, pushedEvents. cbn [flat_map]. rewrite app_nil_r.
    replace (flat_map bookEvents books) with (@nil Event.t); [reflexivity|].
    symmetry. induction books as [|b books IH]; [reflexivity|].
    cbn [flat_map]. rewrite IH by (intros; apply H; now right).
    unfold bookEvents. now rewrite (H b (or_introl eq_refl)). }
  now rewrite E.
Qed.

(** C4: Clamping.  The object returned for an empty event list does not
    clamp.  Its [yearToScroll] puts [minYear = -4000] at position 0 and
    [maxYear = 100] at position 1, but [scrollToYear] sends -1 to year
    -8100 and 2 to year 4200, and [yearToScroll] sends [minYear - 10000]
    and [maxYear + 10000] to positions below 0 and above 1. *)
Theorem fallback_not_clamped (CURRENT_YEAR : Z) (books : list Book.t) :
  (forall b, In b books -> DisplayDate.start (getDisplayDate b) = None) ->
  let m := buildYearMapping CURRENT_YEAR books [] in
  Mapping.minYear m = Some (-4000) /\
  Mapping.maxYear m = 100 /\
  Mapping.yearToScroll m (-4000) = Some (Num 0) /\
  Mapping.yearToScroll m 100 = Some (Num 1) /\
  Mapping.scrollToYear m (Num 0) = Some (Number (of_year (-4000))) /\
  Mapping.scrollToYear m (Num 1) = Some (Number (of_year 100)) /\
  Mapping.scrollToYear m (Num (-1)) = Some (Number (of_year (-8100))) /\
  Mapping.scrollToYear m (Num 2) = Some (Number (of_year 4200)) /\
  Mapping.yearToScroll m (-4000 - 10000) = Some (Num (-10000 / 4100)) /\
  Mapping.yearToScroll m (100 + 10000) = Some (Num (14100 / 4100)).
Proof.
  intros H m. subst m. rewrite (no_events_fallback _ _ H).
  cbn [identityMapping Mapping.minYear Mapping.maxYear
       Mapping.scrollToYear Mapping.yearToScroll js_add js_mul].
  unfold of_year at 1 2 7 8.
  rewrite !js_div_finite by lra.
  repeat split; try reflexivity;
    try (do 2 f_equal; apply js_round_eq; lra);
    do 2 f_equal; rewrite ?plus_IZR, ?minus_IZR; lra.
Qed.

Lemma fallback_not_clamped_witness :
  let m := buildYearMapping 2026 [Book.mk None None None None] [] in
  Mapping.minYear m = Some (-4000) /\
  Mapping.maxYear m = 100 /\
  Mapping.yearToScroll m (-4000) = Some (Num 0) /\
  Mapping.yearToScroll m 100 = Some (Num 1) /\
  Mapping.scrollToYear m (Num 0) = Some (Number (of_year (-4000))) /\
  Mapping.scrollToYear m (Num 1) = Some (Number (of_year 100)) /\
  Mapping.scrollToYear m (Num (-1)) = Some (Number (of_year (-8100))) /\
  Mapping.scrollToYear m (Num 2) = Some (Number (of_year 4200)) /\
  Mapping.yearToScroll m (-4000 - 10000) = Some (Num (-10000 / 4100)) /\
  Mapping.yearToScroll m (100 + 10000) = Some (Num (14100 / 4100)).
Proof.
  apply (fallback_not_clamped 2026 [Book.mk None None None None]).
  intros b [<-|[]]. reflexivity.
Defined.

(** ** Segment weights, as the specification words them *)

(** C6: Density emphasis.  When at least one book interval is active at
    the midpoint year of the segment ([start <= midpoint <= end]), the
    weight is [sqrt |year - prevYear|] times [4 + 1.5 * activeCount], and
    times [max(1, 4 - minDuration / 33)] as well when the shortest active
    book lasts less than 100 years. *)
Theorem density_weight (br mr : list Range.t) (prevYear year : Z) :
  let midYear := round_half (prevYear + year) in
  let active :=
    filter (fun r => (Range.start r <=? midYear) && (midYear <=? Range.end_ r)) br in
  active <> [] ->
  exists minDuration,
    In minDuration (map (fun r => Range.end_ r - Range.start r) active) /\
    (forall r, In r active -> minDuration <= Range.end_ r - Range.start r) /\
    scrollWeight br mr prevYear year =
    (sqrt (Rabs (IZR (year - prevYear)))
     * ((4 + 1.5 * INR (length active))
        * (if minDuration <? 100 then Rmax 1 (4 - IZR minDuration / 33) else 1)))%R.
Proof.
  intros midYear active Hne.
  assert (Eact : filter (activeAt midYear) br = active).
  { apply filter_ext. intros r. apply activeAt_spec. }
  unfold scrollWeight, getActiveBooksInfo. fold midYear. rewrite Eact.
  cbn [ActiveBooks.count ActiveBooks.minDuration].
  assert (Hlen : (0 <? length active)%nat = true).
  { apply Nat.ltb_lt. destruct active; [contradiction | cbn; lia]. }
  rewrite Hlen.
  destruct (Math_min (map (fun r => Range.end_ r - Range.start r) active))
    as [d|] eqn:Emin.
  2:{ destruct active; [contradiction | discriminate Emin]. }
  destruct (Math_min_spec _ _ Emin) as [Hin Hle].
  exists d. split; [exact Hin|]. split.
  - intros r Hr. apply Hle. now apply (in_map (fun r => Range.end_ r - Range.start r)).
  - cbn [under100 durationBonus]. destruct (d <? 100); ring.
Qed.

Lemma density_weight_witness :
  exists minDuration,
    In minDuration [100] /\
    (forall r, In r [Range.mk (-1000) (-900)] ->
               minDuration <= Range.end_ r - Range.start r) /\
    scrollWeight [Range.mk (-1000) (-900)] [] (-1000) (-900) =
    (sqrt (Rabs (IZR (-900 - -1000)))
     * ((4 + 1.5 * INR 1)
        * (if minDuration <? 100 then Rmax 1 (4 - IZR minDuration / 33) else 1)))%R.
Proof.
  apply (density_weight [Range.mk (-1000) (-900)] [] (-1000) (-900)).
  vm_compute. discriminate.
Defined.

(** C7: Milestone emphasis and exclusivity.  With no book interval active
    at the midpoint and at least one milestone display-range active, the
    weight is [sqrt |year - prevYear|] times [40 + 20 * activeMilestoneCount];
    with a book interval active the milestone ranges play no role at all:
    the weight is the one computed with any other milestone list, in
    particular with none. *)
Theorem milestone_book_exclusive (br mr : list Range.t) (prevYear year : Z) :
  let midYear := round_half (prevYear + year) in
  let activeCount := length (filter (activeAt midYear) br) in
  let activeMilestoneCount := length (filter (activeAt midYear) mr) in
  (activeCount = 0%nat -> (0 < activeMilestoneCount)%nat ->
   scrollWeight br mr prevYear year =
   (sqrt (Rabs (IZR (year - prevYear))) * (40 + 20 * INR activeMilestoneCount))%R) /\
  ((0 < activeCount)%nat ->
   forall mr', scrollWeight br mr prevYear year = scrollWeight br mr' prevYear year).
Proof.
  intros midYear activeCount activeMilestoneCount.
  unfold scrollWeight, getActiveBooksInfo, getActiveMilestonesInfo.
  fold midYear. cbn [ActiveBooks.count ActiveBooks.minDuration ActiveMilestones.count].
  fold activeCount activeMilestoneCount. split.
  - intros E0 Hm. apply Nat.ltb_lt in Hm. rewrite E0.
    change (0 <? 0)%nat with false. cbv iota. rewrite Hm. ring.
  - intros Hb mr'. apply Nat.ltb_lt in Hb. now rewrite Hb.
Qed.

Lemma milestone_book_exclusive_witness :
  scrollWeight [] [Range.mk 50 150] 90 110 =
  (sqrt (Rabs (IZR (110 - 90))) * (40 + 20 * INR 1))%R /\
  (forall mr', scrollWeight [Range.mk 0 200] [Range.mk 50 150] 90 110
               = scrollWeight [Range.mk 0 200] mr' 90 110).
Proof.
  split.
  - apply (proj1 (milestone_book_exclusive [] [Range.mk 50 150] 90 110)).
    + reflexivity.
    + vm_compute. lia.
  - apply (proj2 (milestone_book_exclusive [Range.mk 0 200] [Range.mk 50 150] 90 110)).
    vm_compute. lia.
Defined.

(** ** The empty dataset *)

(** C5: Empty dataset.  With no dated book and no milestone the result is
    the fixed linear fallback: [minYear = -4000], [maxYear = 100], no
    events and no table; [scrollToYear] is the rounded linear map from
    [0, 1] onto -4000 .. 100 and [yearToScroll] the linear map back, at
    every position and every year, so that [scrollToYear 0.5] is year
    -1950 and the round trip gives every year back. *)
Theorem empty_dataset_fallback (CURRENT_YEAR : Z) (books : list Book.t) :
  (forall b, In b books -> DisplayDate.start (getDisplayDate b) = None) ->
  let m := buildYearMapping CURRENT_YEAR books [] in
  Mapping.minYear m = Some (-4000) /\
  Mapping.maxYear m = 100 /\
  Mapping.events m = [] /\
  Mapping._yearPositions m = None /\
  Mapping._sortedYears m = None /\
  (forall scroll : number,
      Mapping.scrollToYear m scroll
      = Some (Number (js_round (js_add (Num (-4000)) (js_mul scroll (Num 4100)))))) /\
  (forall s : R,
      Mapping.scrollToYear m (Num s)
      = Some (Number (of_year (Zfloor (-4000 + s * (100 - -4000) + / 2))))) /\
  (forall y : Z,
      Mapping.yearToScroll m y
      = Some (Num ((IZR y - -4000) / (100 - -4000)))) /\
  Mapping.scrollToYear m (Num 0.5) = Some (Number (of_year (-1950))) /\
  (forall y : Z, exists p,
      Mapping.yearToScroll m y = Some p /\
      Mapping.scrollToYear m p = Some (Number (of_year y))).
Proof.
  intros H m. subst m. rewrite (no_events_fallback _ _ H).
  cbn [identityMapping Mapping.minYear Mapping.maxYear Mapping.events
       Mapping._yearPositions Mapping._sortedYears
       Mapping.scrollToYear Mapping.yearToScroll].
  assert (Ey : forall y : Z,
             js_div (of_year (y + 4000)) (Num 4100)
             = Num ((IZR y - -4000) / (100 - -4000))).
  { intros y. unfold of_year. rewrite js_div_finite by lra.
    f_equal. rewrite plus_IZR. lra. }
  repeat split; try reflexivity.
  - intros s. cbn [js_mul js_add js_round]. unfold of_year.
    do 5 apply f_equal. lra.
  - intros y. now rewrite Ey.
  - do 2 f_equal. cbn [js_mul js_add]. apply js_round_eq. lra.
  - intros y. eexists. split; [reflexivity|]. rewrite Ey.
    cbn [js_mul js_add]. do 2 f_equal. apply js_round_eq. field.
Qed.

Lemma empty_dataset_fallback_witness :
  let m := buildYearMapping 2026 [Book.mk None None None None] [] in
  Mapping.minYear m = Some (-4000) /\
  Mapping.maxYear m = 100 /\
  Mapping.events m = [] /\
  Mapping._yearPositions m = None /\
  Mapping._sortedYears m = None /\
  (forall scroll : number,
      Mapping.scrollToYear m scroll
      = Some (Number (js_round (js_add (Num (-4000)) (js_mul scroll (Num 4100)))))) /\
  (forall s : R,
      Mapping.scrollToYear m (Num s)
      = Some (Number (of_year (Zfloor (-4000 + s * (100 - -4000) + / 2))))) /\
  (forall y : Z,
      Mapping.yearToScroll m y
      = Some (Num ((IZR y - -4000) / (100 - -4000)))) /\
  Mapping.scrollToYear m (Num 0.5) = Some (Number (of_year (-1950))) /\
  (forall y : Z, exists p,
      Mapping.yearToScroll m y = Some p /\
      Mapping.scrollToYear m p = Some (Number (of_year y))).
Proof.
  apply (empty_dataset_fallback 2026 [Book.mk None None None None]).
  intros b [<-|[]]. reflexivity.
Defined.



Lemma bookEvents_sorted_In (books : list Book.t) (milestones : list Milestone.t)
    (b : Book.t) (ev : Event.t) :
  In b books -> In ev (bookEvents b) -> In ev (sortedEvents books milestones).
Proof.
  intros Hb Hev. unfold sortedEvents.
  apply (Permutation_in _ (Permutation_sym (js_sort_perm _ _))).
  unfold pushedEvents. apply in_or_app. left.
  apply in_flat_map. now exists b.
Qed.

(** When every event carries a year, the books are well dated. *)
Lemma events_dated_wellDated (books : list Book.t) (milestones : list Milestone.t) :
  (forall ev, In ev (sortedEvents books milestones) -> Event.year ev <> None) ->
  wellDated books = true.
Proof.
  intros H. unfold wellDated. apply forallb_forall. intros b Hb.
  unfold hasEnd.
  destruct (DisplayDate.start (getDisplayDate b)) as [s|] eqn:Es; [|reflexivity].
  destruct (DisplayDate.end_ (getDisplayDate b)) as [e|] eqn:Ee; [reflexivity|].
  exfalso.
  apply (H (Event.mk None type_end)); [|reflexivity].
  apply (bookEvents_sorted_In books milestones b _ Hb).
  unfold bookEvents. rewrite Es, Ee. right. now left.
Qed.

(** C9: All-zero total weight.  When every event lies in the current
    year the grid has a single year, the total weight is 0, and the
    normaliser stores [0 / 0], that is [NaN], for that year (not 0);
    [yearToScroll] of that year returns the [NaN]. *)
Theorem single_year_position_NaN (CURRENT_YEAR : Z) (books : list Book.t)
    (milestones : list Milestone.t) :
  sortedEvents books milestones <> [] ->
  (forall ev, In ev (sortedEvents books milestones) ->
              Event.year ev = Some CURRENT_YEAR) ->
  let m := buildYearMapping CURRENT_YEAR books milestones in
  Mapping._yearPositions m = Some [(Some CURRENT_YEAR, NaN)] /\
  Mapping.yearToScroll m CURRENT_YEAR = Some NaN.
Proof.
  intros Hne Hall m. subst m.
  assert (Hw : wellDated books = true).
  { apply (events_dated_wellDated books milestones).
    intros ev Hev E. rewrite (Hall ev Hev) in E. discriminate E. }
  assert (Hne' := sortedEvents_nonempty _ _ Hw Hne).
  assert (Hall' : forall ev, In ev (Dated.sortedEvents books milestones) ->
                             Dated.Event.year ev = CURRENT_YEAR).
  { intros ev Hev.
    assert (E : Event.year (yearEvent ev) = Some CURRENT_YEAR).
    { apply Hall. rewrite (sortedEvents_agree _ _ Hw). now apply in_map. }
    now injection E. }
  dated_fields CURRENT_YEAR milestones Hw.
  pose proof (dated_single_year_position_NaN CURRENT_YEAR books milestones
                Hne' Hall') as D.
  cbv zeta in D. destruct D as [D1 D2].
  now rewrite Eyp, Ey, D1, D2.
Qed.

Lemma single_year_position_NaN_witness :
  let m := buildYearMapping 2026 [] [Milestone.mk 2026 2026 2026] in
  Mapping._yearPositions m = Some [(Some 2026, NaN)] /\
  Mapping.yearToScroll m 2026 = Some NaN.
Proof.
  apply (single_year_position_NaN 2026 [] [Milestone.mk 2026 2026 2026]).
  - intros H. vm_compute in H. discriminate H.
  - intros ev Hev. vm_compute in Hev.
    repeat (destruct Hev as [<-|Hev]; [reflexivity|]). contradiction.
Defined.




(** The milestone clause of C8 is needed: at equal gap, a book-free
    segment inside a milestone display-range outweighs a segment with one
    long-lived book active. *)
Lemma milestone_segment_outweighs_book :
  (scrollWeight [Range.mk 0 200] [Range.mk 250 350] 50 150
   < scrollWeight [Range.mk 0 200] [Range.mk 250 350] 250 350)%R.
Proof.
  change (scrollWeight [Range.mk 0 200] [Range.mk 250 350] 50 150)
    with (sqrt (Rabs (IZR 100)) * (4 + INR 1 * 1.5))%R.
  change (scrollWeight [Range.mk 0 200] [Range.mk 250 350] 250 350)
    with (sqrt (Rabs (IZR 100)) * (40 + INR 1 * 20))%R.
  assert (Hs := sqrt_gap_pos 0 100 ltac:(lia)).
  change (100 - 0) with 100 in Hs. cbn [INR]. nra.
Qed.

(** ** Outside the data model

    A book with a start date and no end date puts a [null] year into the
    events, the grid and the table.  Built in 2026 from the one book that
    starts in year 5 and has no end, the mapping has [minYear = null] and
    its [scrollToYear] returns [null] at the start of the scroll range:
    the properties above that speak of the grid or of the table need
    [wellDated]. *)
Lemma null_end_returns_null :
  let books := [Book.mk (Some 5) None None None] in
  let m := buildYearMapping 2026 books [] in
  wellDated books = false /\
  gridYears 2026 books [] = [None; Some 5; Some 2026] /\
  Mapping.minYear m = None /\
  Mapping.scrollToYear m (Num 0) = Some Null.
Proof.
  intros books m. split; [reflexivity|]. split; [vm_compute; reflexivity|].
  subst m. unfold buildYearMapping.
  assert (Eev : sortedEvents books []
                = [Event.mk None type_end; Event.mk (Some 5) type_start])
    by (vm_compute; reflexivity).
  rewrite Eev. cbv iota beta.
  assert (Egrid : uniqueYears 2026 [Event.mk None type_end; Event.mk (Some 5) type_start]
                  = [None; Some 5; Some 2026]) by (vm_compute; reflexivity).
  rewrite Egrid.
  set (br := bookRanges books). set (mr := milestoneRanges []).
  cbn [yearPositions accumulate toNumber].
  set (w1 := scrollWeight br mr 0 5). set (w2 := scrollWeight br mr 5 2026).
  assert (H1 : (0 < w1)%R) by (apply scrollWeight_pos; lia).
  assert (H2 : (0 < w2)%R) by (apply scrollWeight_pos; lia).
  change (map_set (Some 2026) (0 + w1 + w2)%R
            (map_set (Some 5) (0 + w1)%R (map_set None 0%R [])))
    with [(@None Z, 0%R); (Some 5, (0 + w1)%R); (Some 2026, (0 + w1 + w2)%R)].
  cbv iota beta.
  cbn [Mapping.minYear Mapping.scrollToYear Event.year].
  split; [reflexivity|].
  set (total := (0 + w1 + w2)%R).
  assert (Ht : total <> 0%R) by (unfold total; lra).
  change (normalizedPositions total
            [(@None Z, 0%R); (Some 5, (0 + w1)%R); (Some 2026, total)])
    with [(@None Z, normalized total 0); (Some 5, normalized total (0 + w1));
          (Some 2026, normalized total total)].
  rewrite !normalized_finite by exact Ht.
  unfold usableRange, marginStart, marginEnd.
  assert (Hinv : (0 < / total)%R) by (apply Rinv_0_lt_compat; unfold total; lra).
  assert (Hp1 : (0 / total < (0 + w1) / total)%R)
    by (unfold Rdiv; apply Rmult_lt_compat_r; [exact Hinv | lra]).
  assert (Hp2 : ((0 + w1) / total < total / total)%R)
    by (unfold Rdiv; apply Rmult_lt_compat_r; [exact Hinv | unfold total; lra]).
  assert (Hp0 : (0 / total = 0)%R) by (unfold Rdiv; ring).
  unfold sortByPosition. rewrite js_sort_sorted.
  - unfold scrollToYear. rewrite (clamp_inside 0) by lra.
    cbn [snd fst js_le storedYear].
    replace (Rleb 0 (0.02 + 0 / total * (1 - 0.02 - 0.02))) with true; [reflexivity|].
    symmetry. apply Rleb_true. lra.
  - repeat constructor; cbn [snd js_sub js_neg js_add js_gt js_lt];
      apply Rltb_false; lra.
Qed.
(** * Further properties of the engine *)

Lemma off_year_dated (CURRENT_YEAR : Z) (books : list Book.t)
    (milestones : list Milestone.t) :
  wellDated books = true ->
  (exists ev, In ev (sortedEvents books milestones) /\
              Event.year ev <> Some CURRENT_YEAR) ->
  exists ev, In ev (Dated.sortedEvents books milestones) /\
             Dated.Event.year ev <> CURRENT_YEAR.
Proof.
  intros Hw (ev & Hev & Hy). rewrite (sortedEvents_agree _ _ Hw) in Hev.
  apply in_map_iff in Hev as (e & <- & He). exists e. split; [exact He|].
  intros E. apply Hy. cbn [yearEvent Event.year]. now rewrite E.
Qed.

(** X1.  On well-dated books with an event outside the current year,
    [yearToScroll] is monotone on all years, not only on grid years: for
    any two years [y <= y'] it returns finite positions [p <= p']. *)
Theorem yearToScroll_monotone_every_year (CURRENT_YEAR : Z)
    (books : list Book.t) (milestones : list Milestone.t) (y y' : Z) :
  wellDated books = true ->
  (exists ev, In ev (sortedEvents books milestones) /\
              Event.year ev <> Some CURRENT_YEAR) ->
  y <= y' ->
  let m := buildYearMapping CURRENT_YEAR books milestones in
  exists p p',
    Mapping.yearToScroll m y = Some (Num p) /\
    Mapping.yearToScroll m y' = Some (Num p') /\
    (p <= p')%R.
Proof.
  intros Hw Hev Hy m. subst m.
  dated_fields CURRENT_YEAR milestones Hw. rewrite !Ey.
  exact (dated_yearToScroll_monotone_every_year CURRENT_YEAR books milestones
           y y' (off_year_dated _ _ _ Hw Hev) Hy).
Qed.

Lemma yearToScroll_monotone_every_year_witness :
  let books := [Book.mk (Some (-1000)) (Some (-900)) None None] in
  let m := buildYearMapping 2026 books MILESTONES in
  exists p p',
    Mapping.yearToScroll m (-950) = Some (Num p) /\
    Mapping.yearToScroll m 1000 = Some (Num p') /\
    (p <= p')%R.
Proof.
  intros books.
  apply (yearToScroll_monotone_every_year 2026 books MILESTONES (-950) 1000).
  - reflexivity.
  - exists (Event.mk (Some (-1000)) type_start). split.
    + vm_compute. tauto.
    + discriminate.
  - lia.
Defined.

(** X2.  On well-dated books with an event outside the current year, for
    every year, grid year or not, [yearToScroll] returns a finite position
    between the two margins, 0.02 and 0.98. *)
Theorem yearToScroll_within_margins (CURRENT_YEAR : Z)
    (books : list Book.t) (milestones : list Milestone.t) (y : Z) :
  wellDated books = true ->
  (exists ev, In ev (sortedEvents books milestones) /\
              Event.year ev <> Some CURRENT_YEAR) ->
  let m := buildYearMapping CURRENT_YEAR books milestones in
  exists p, Mapping.yearToScroll m y = Some (Num p) /\ (0.02 <= p <= 0.98)%R.
Proof.
  intros Hw Hev m. subst m.
  dated_fields CURRENT_YEAR milestones Hw. rewrite Ey.
  exact (dated_yearToScroll_within_margins CURRENT_YEAR books milestones
           y (off_year_dated _ _ _ Hw Hev)).
Qed.

Lemma yearToScroll_within_margins_witness :
  let books := [Book.mk (Some (-1000)) (Some (-900)) None None] in
  let m := buildYearMapping 2026 books MILESTONES in
  exists p, Mapping.yearToScroll m (-9999) = Some (Num p) /\ (0.02 <= p <= 0.98)%R.
Proof.
  intros books.
  apply (yearToScroll_within_margins 2026 books MILESTONES (-9999)).
  - reflexivity.
  - exists (Event.mk (Some (-1000)) type_start). split.
    + vm_compute. tauto.
    + discriminate.
Defined.

(** X3.  On well-dated books with an event outside the current year, the
    first entry of the stored table is the first grid year at position
    0.02 and the last entry is the last grid year at position 0.98. *)
Theorem table_spans_margins (CURRENT_YEAR : Z)
    (books : list Book.t) (milestones : list Milestone.t) :
  wellDated books = true ->
  (exists ev, In ev (sortedEvents books milestones) /\
              Event.year ev <> Some CURRENT_YEAR) ->
  let m := buildYearMapping CURRENT_YEAR books milestones in
  let grid := gridYears CURRENT_YEAR books milestones in
  exists N first lo hi,
    Mapping._sortedYears m = Some N /\
    Mapping._yearPositions m = Some N /\
    hd_error N = Some first /\
    hd_error grid = Some (Some lo) /\
    last grid None = Some hi /\
    first = (Some lo, Num 0.02) /\
    last N first = (Some hi, Num 0.98).
Proof.
  intros Hw Hev m grid. subst m grid.
  dated_fields CURRENT_YEAR milestones Hw.
  pose proof (gridYears_ends CURRENT_YEAR books milestones Hw) as G.
  cbv zeta in G. destruct G as [Ghd Glast].
  pose proof (dated_table_spans_margins CURRENT_YEAR books milestones
                (off_year_dated _ _ _ Hw Hev)) as D.
  cbv zeta in D. destruct D as (N & first & E1 & E2 & Ef & Efirst & Elast).
  exists (yearTable N), (Some (fst first), snd first),
    (hd 0 (Dated.gridYears CURRENT_YEAR books milestones)),
    (last (Dated.gridYears CURRENT_YEAR books milestones) 0).
  rewrite Esy, Eyp, E1, E2. cbn [option_map].
  split; [reflexivity|]. split; [reflexivity|].
  split; [destruct N; [discriminate Ef | now injection Ef as ->]|].
  split; [exact Ghd|]. split; [exact Glast|].
  split; [now rewrite Efirst|].
  unfold yearTable.
  rewrite (last_map (fun e : Z * number => (Some (fst e), snd e)) N first).
  now rewrite Elast.
Qed.

Lemma table_spans_margins_witness :
  let books := [Book.mk (Some (-1000)) (Some (-900)) None None] in
  let m := buildYearMapping 2026 books MILESTONES in
  let grid := gridYears 2026 books MILESTONES in
  exists N first lo hi,
    Mapping._sortedYears m = Some N /\
    Mapping._yearPositions m = Some N /\
    hd_error N = Some first /\
    hd_error grid = Some (Some lo) /\
    last grid None = Some hi /\
    first = (Some lo, Num 0.02) /\
    last N first = (Some hi, Num 0.98).
Proof.
  intros books.
  apply (table_spans_margins 2026 books MILESTONES).
  - reflexivity.
  - exists (Event.mk (Some (-1000)) type_start). split.
    + vm_compute. tauto.
    + discriminate.
Defined.

(** X4.  On well-dated books and a non-empty event list, [scrollToYear]
    is monotone: a larger scroll position never gives an earlier year. *)
Theorem scrollToYear_monotone (CURRENT_YEAR : Z)
    (books : list Book.t) (milestones : list Milestone.t) (s s' : R) :
  wellDated books = true ->
  sortedEvents books milestones <> [] ->
  (s <= s')%R ->
  let m := buildYearMapping CURRENT_YEAR books milestones in
  exists y y',
    Mapping.scrollToYear m (Num s) = Some (Number (of_year y)) /\
    Mapping.scrollToYear m (Num s') = Some (Number (of_year y')) /\
    y <= y'.
Proof.
  intros Hw Hne Hs m. subst m.
  assert (Hne' := sortedEvents_nonempty _ _ Hw Hne).
  dated_fields CURRENT_YEAR milestones Hw.
  pose proof (dated_scrollToYear_monotone CURRENT_YEAR books milestones
                s s' Hne' Hs) as D.
  cbv zeta in D. destruct D as (y & y' & E1 & E2 & Hy).
  exists y, y'. rewrite !Es, E1, E2. auto.
Qed.

Lemma scrollToYear_monotone_witness :
  let books := [Book.mk (Some (-1000)) (Some (-900)) None None] in
  let m := buildYearMapping 2026 books MILESTONES in
  exists y y',
    Mapping.scrollToYear m (Num 0.25) = Some (Number (of_year y)) /\
    Mapping.scrollToYear m (Num 0.75) = Some (Number (of_year y')) /\
    y <= y'.
Proof.
  intros books.
  apply (scrollToYear_monotone 2026 books MILESTONES 0.25 0.75).
  - reflexivity.
  - intros H. vm_compute in H. discriminate H.
  - lra.
Defined.

(** X5.  On well-dated books with an event outside the current year, the
    round trip is exact on every whole year between the first and the
    last grid year, grid year or not: [scrollToYear] of [yearToScroll y]
    is [y]. *)
Theorem round_trip_every_year (CURRENT_YEAR : Z)
    (books : list Book.t) (milestones : list Milestone.t) (lo hi y : Z) :
  wellDated books = true ->
  (exists ev, In ev (sortedEvents books milestones) /\
              Event.year ev <> Some CURRENT_YEAR) ->
  hd_error (gridYears CURRENT_YEAR books milestones) = Some (Some lo) ->
  last (gridYears CURRENT_YEAR books milestones) None = Some hi ->
  lo <= y <= hi ->
  let m := buildYearMapping CURRENT_YEAR books milestones in
  exists p,
    Mapping.yearToScroll m y = Some (Num p) /\
    Mapping.scrollToYear m (Num p) = Some (Number (of_year y)).
Proof.
  intros Hw Hev Hlo Hhi Hy m. subst m.
  dated_fields CURRENT_YEAR milestones Hw.
  pose proof (gridYears_ends CURRENT_YEAR books milestones Hw) as G.
  cbv zeta in G. destruct G as [Ghd Glast].
  rewrite Ghd in Hlo. rewrite Glast in Hhi.
  injection Hlo as Hlo. injection Hhi as Hhi.
  assert (Hy' : hd 0 (Dated.gridYears CURRENT_YEAR books milestones) <= y
                <= last (Dated.gridYears CURRENT_YEAR books milestones) 0) by lia.
  pose proof (dated_round_trip_every_year CURRENT_YEAR books milestones y
                (off_year_dated _ _ _ Hw Hev) Hy') as D.
  cbv zeta in D. destruct D as (p & E1 & E2).
  exists p. rewrite Ey, Es, E1, E2. auto.
Qed.

Lemma round_trip_every_year_witness :
  let books := [Book.mk (Some (-1000)) (Some (-900)) None None] in
  let m := buildYearMapping 2026 books MILESTONES in
  exists p,
    Mapping.yearToScroll m 1000 = Some (Num p) /\
    Mapping.scrollToYear m (Num p) = Some (Number (of_year 1000)).
Proof.
  intros books.
  apply (round_trip_every_year 2026 books MILESTONES (-1000) 2026 1000).
  - reflexivity.
  - exists (Event.mk (Some (-1000)) type_start). split.
    + vm_compute. tauto.
    + discriminate.
  - vm_compute. reflexivity.
  - vm_compute. reflexivity.
  - lia.
Defined.

(** ** Totality: the queries on every list of books *)

Lemma map_set_not_nil {V : Type} (k : option Z) (v : V) (m : list (option Z * V)) :
  map_set k v m <> [].
Proof.
  destruct m as [|[k' v'] m]; cbn [map_set]; [discriminate|].
  destruct (sameValueZero k k'); discriminate.
Qed.

Lemma accumulate_not_nil (br mr : list Range.t) (rest : list (option Z)) :
  forall prev acc yp,
    yp <> [] -> fst (accumulate br mr prev rest acc yp) <> [].
Proof.
  induction rest as [|y rest IH]; intros prev acc yp H; [exact H|].
  cbn [accumulate]. apply IH. apply map_set_not_nil.
Qed.

Lemma normalizedPositions_not_nil (total : R) (yp : list (option Z * R)) :
  yp <> [] -> normalizedPositions total yp <> [].
Proof.
  unfold normalizedPositions. destruct yp as [|e yp]; [contradiction|].
  intros _. cbn [fold_left].
  generalize (map_set_not_nil (fst e) (normalized total (snd e)) []).
  generalize (map_set (fst e) (normalized total (snd e)) []).
  induction yp as [|e' yp IH]; intros acc H; [exact H|].
  cbn [fold_left]. apply IH. apply map_set_not_nil.
Qed.

Lemma uniqueYears_cons (CURRENT_YEAR : Z) (events : list Event.t) :
  exists y rest, uniqueYears CURRENT_YEAR events = y :: rest.
Proof.
  destruct (uniqueYears CURRENT_YEAR events) as [|y rest] eqn:E; [|now exists y, rest].
  apply js_sort_nil in E. now destruct (new_Set (map Event.year events)).
Qed.

Lemma scrollToYear_answers (T : list (option Z * number)) (s : number) :
  T <> [] -> exists r, scrollToYear T s = Some r.
Proof.
  intros H. unfold scrollToYear. destruct T as [|first T]; [contradiction|].
  destruct (js_le _ (snd first)); [eexists; reflexivity|].
  destruct (js_ge _ _); [eexists; reflexivity|].
  destruct (scanByPosition _ _); eexists; reflexivity.
Qed.

Lemma yearToScroll_answers (N : list (option Z * number)) (y : Z) :
  N <> [] -> exists p, yearToScroll N y = Some p.
Proof.
  intros H. unfold yearToScroll.
  destruct (map_get (Some y) N); [eexists; reflexivity|].
  destruct (sortByYear N) as [|first T] eqn:E.
  - apply js_sort_nil in E. contradiction.
  - destruct (y <=? _); [eexists; reflexivity|].
    destruct (y >=? _); [eexists; reflexivity|].
    destruct (scanByYear _ _); eexists; reflexivity.
Qed.

(** X6.  Neither query ever fails: on every object that
    [buildYearMapping] returns (the fallback and the single-year table
    included, and whatever the dates of the books) [scrollToYear] answers
    every number and [yearToScroll] every year. *)
Theorem queries_never_fail (CURRENT_YEAR : Z) (books : list Book.t)
    (milestones : list Milestone.t) (scrollPos : number) (year : Z) :
  let m := buildYearMapping CURRENT_YEAR books milestones in
  (exists r, Mapping.scrollToYear m scrollPos = Some r) /\
  (exists p, Mapping.yearToScroll m year = Some p).
Proof.
  intros m. subst m. unfold buildYearMapping.
  destruct (sortedEvents books milestones) as [|first rest].
  - split; eexists; reflexivity.
  - destruct (uniqueYears_cons CURRENT_YEAR (first :: rest)) as (y0 & grid & ->).
    cbn [yearPositions].
    assert (H := accumulate_not_nil (bookRanges books) (milestoneRanges milestones)
                   grid y0 0%R (map_set y0 0%R []) (map_set_not_nil _ _ _)).
    destruct (accumulate _ _ y0 grid 0%R _) as [yp total]. cbn [fst] in H.
    cbn [Mapping.scrollToYear Mapping.yearToScroll].
    assert (HN := normalizedPositions_not_nil total yp H).
    split.
    + apply scrollToYear_answers. unfold sortByPosition.
      intros E. apply js_sort_nil in E. contradiction.
    + now apply yearToScroll_answers.
Qed.

(** ** The [events] field *)

Lemma build_events (CURRENT_YEAR : Z) (books : list Book.t)
    (milestones : list Milestone.t) :
  let m := buildYearMapping CURRENT_YEAR books milestones in
  Mapping.events m = sortedEvents books milestones /\
  forall first rest, sortedEvents books milestones = first :: rest ->
                     Mapping.minYear m = Event.year first.
Proof.
  intros m. subst m. unfold buildYearMapping.
  destruct (sortedEvents books milestones) as [|first rest].
  - split; [reflexivity | discriminate].
  - destruct (yearPositions _ _ _) as [yp total].
    split; [reflexivity|]. now intros f r [= <- _].
Qed.

(** X7.  The [events] field holds exactly the pushed events, sorted by
    year (a [null] year read as 0); when there is an event, [minYear] is
    the year of one of them and no event is earlier. *)
Theorem events_sorted_minYear_least (CURRENT_YEAR : Z) (books : list Book.t)
    (milestones : list Milestone.t) :
  let m := buildYearMapping CURRENT_YEAR books milestones in
  Permutation (Mapping.events m) (pushedEvents books milestones) /\
  StronglySorted
    (fun a b => toNumber (Event.year a) <= toNumber (Event.year b))
    (Mapping.events m) /\
  (pushedEvents books milestones <> [] ->
   (exists ev, In ev (pushedEvents books milestones) /\
               Event.year ev = Mapping.minYear m) /\
   (forall ev, In ev (pushedEvents books milestones) ->
               toNumber (Mapping.minYear m) <= toNumber (Event.year ev))).
Proof.
  intros m.
  pose proof (build_events CURRENT_YEAR books milestones) as B. cbv zeta in B.
  fold m in B. destruct B as [Eev Emin]. rewrite Eev.
  assert (Hp : Permutation (sortedEvents books milestones)
                 (pushedEvents books milestones)) by apply js_sort_perm.
  assert (Hs : StronglySorted
                 (fun a b => toNumber (Event.year a) <= toNumber (Event.year b))
                 (sortedEvents books milestones))
    by apply (js_sort_key_sorted (fun e => toNumber (Event.year e))).
  split; [exact Hp|]. split; [exact Hs|].
  intros Hne.
  destruct (sortedEvents books milestones) as [|first rest] eqn:E.
  - exfalso. apply Hne. now apply Permutation_nil in Hp.
  - rewrite (Emin first rest eq_refl). split.
    + exists first. split; [|reflexivity].
      apply (Permutation_in _ Hp). now left.
    + intros ev Hev. apply (Permutation_in _ (Permutation_sym Hp)) in Hev.
      inversion Hs as [|? ? _ Hall]; subst. rewrite Forall_forall in Hall.
      destruct Hev as [<-|Hev]; [lia | now apply Hall].
Qed.

Lemma events_sorted_minYear_least_witness :
  let books := [Book.mk (Some (-1000)) None None None] in
  let m := buildYearMapping 2026 books MILESTONES in
  Permutation (Mapping.events m) (pushedEvents books MILESTONES) /\
  StronglySorted
    (fun a b => toNumber (Event.year a) <= toNumber (Event.year b))
    (Mapping.events m) /\
  (pushedEvents books MILESTONES <> [] ->
   (exists ev, In ev (pushedEvents books MILESTONES) /\
               Event.year ev = Mapping.minYear m) /\
   (forall ev, In ev (pushedEvents books MILESTONES) ->
               toNumber (Mapping.minYear m) <= toNumber (Event.year ev))).
Proof.
  intros books. apply (events_sorted_minYear_least 2026 books MILESTONES).
Defined.

(** ** The weights *)

(** X8.  A segment weighs nothing exactly when its two years coincide,
    and the emphasis never shrinks it below the square root of its gap. *)
Theorem scrollWeight_zero_iff (br mr : list Range.t) (prevYear year : Z) :
  (scrollWeight br mr prevYear year = 0%R <-> prevYear = year) /\
  (sqrt (Rabs (IZR (year - prevYear))) <= scrollWeight br mr prevYear year)%R.
Proof.
  destruct (scrollWeight_factor br mr prevYear year) as (M & HM & E).
  assert (Hs : (0 <= sqrt (Rabs (IZR (year - prevYear))))%R) by apply sqrt_pos.
  split; [split|].
  - intros H0. destruct (Z.eq_dec prevYear year) as [Heq|Hne]; [exact Heq|].
    exfalso. assert (Hp := sqrt_gap_pos prevYear year Hne). rewrite E in H0. nra.
  - intros ->. apply scrollWeight_same.
  - rewrite E. nra.
Qed.

(** ** Undated books *)

Lemma bookRanges_filter (books : list Book.t) :
  bookRanges
    (filter (fun b => match DisplayDate.start (getDisplayDate b) with
                      | Some _ => true | None => false end) books)
  = bookRanges books.
Proof.
  unfold bookRanges. induction books as [|b books IH]; [reflexivity|].
  cbn [filter flat_map]. unfold bookRange at 2.
  destruct (DisplayDate.start (getDisplayDate b)) eqn:E.
  - cbn [flat_map]. rewrite IH. unfold bookRange at 1. now rewrite E.
  - exact IH.
Qed.

Lemma pushedEvents_filter (books : list Book.t) (milestones : list Milestone.t) :
  pushedEvents
    (filter (fun b => match DisplayDate.start (getDisplayDate b) with
                      | Some _ => true | None => false end) books) milestones
  = pushedEvents books milestones.
Proof.
  unfold pushedEvents. f_equal.
  induction books as [|b books IH]; [reflexivity|].
  cbn [filter flat_map]. unfold bookEvents at 2.
  destruct (DisplayDate.start (getDisplayDate b)) eqn:E.
  - cbn [flat_map]. rewrite IH. unfold bookEvents at 1. now rewrite E.
  - exact IH.
Qed.

(** X9.  Books without a display start date play no role: dropping them
    from the input gives the same object. *)
Theorem undated_books_ignored (CURRENT_YEAR : Z) (books : list Book.t)
    (milestones : list Milestone.t) :
  buildYearMapping CURRENT_YEAR
    (filter (fun b => match DisplayDate.start (getDisplayDate b) with
                      | Some _ => true | None => false end) books) milestones
  = buildYearMapping CURRENT_YEAR books milestones.
Proof.
  unfold buildYearMapping, sortedEvents.
  now rewrite pushedEvents_filter, bookRanges_filter.
Qed.

(** ** Independence of the order of the input *)

Lemma wellDated_perm (books books' : list Book.t) :
  Permutation books books' -> wellDated books = true -> wellDated books' = true.
Proof.
  intros Hp Hw. unfold wellDated in *. rewrite forallb_forall in *.
  intros b Hb. apply Hw. now apply (Permutation_in _ (Permutation_sym Hp)).
Qed.

(** X10.  On well-dated books the order of the books and of the
    milestones in the input does not matter: the stored table, the two year fields and both queries
    are the same, and the [events] fields hold the same events. *)
Theorem mapping_order_independent (CURRENT_YEAR : Z)
    (books books' : list Book.t) (milestones milestones' : list Milestone.t) :
  wellDated books = true ->
  Permutation books books' -> Permutation milestones milestones' ->
  let m := buildYearMapping CURRENT_YEAR books milestones in
  let m' := buildYearMapping CURRENT_YEAR books' milestones' in
  Mapping._yearPositions m = Mapping._yearPositions m' /\
  Mapping._sortedYears m = Mapping._sortedYears m' /\
  Mapping.minYear m = Mapping.minYear m' /\
  Mapping.maxYear m = Mapping.maxYear m' /\
  (forall scrollPos, Mapping.scrollToYear m scrollPos
                     = Mapping.scrollToYear m' scrollPos) /\
  (forall year, Mapping.yearToScroll m year = Mapping.yearToScroll m' year) /\
  Permutation (Mapping.events m) (Mapping.events m').
Proof.
  intros Hw Hb Hm m m'. subst m m'.
  assert (Hw' := wellDated_perm _ _ Hb Hw).
  pose proof (buildYearMapping_dated CURRENT_YEAR books milestones Hw) as B.
  pose proof (buildYearMapping_dated CURRENT_YEAR books' milestones' Hw') as B'.
  cbv zeta in B, B'.
  destruct B as (Es & Ey & Emin & Emax & Eev & Eyp & Esy).
  destruct B' as (Es' & Ey' & Emin' & Emax' & Eev' & Eyp' & Esy').
  pose proof (dated_mapping_order_independent CURRENT_YEAR books books'
                milestones milestones' Hb Hm) as D.
  cbv zeta in D. destruct D as (D1 & D2 & D3 & D4 & D5 & D6 & D7).
  rewrite Eyp, Eyp', Esy, Esy', Emin, Emin', Emax, Emax', Eev, Eev',
    D1, D2, D3, D4.
  repeat split.
  - intros s. now rewrite Es, Es', D5.
  - intros y. now rewrite Ey, Ey', D6.
  - now apply Permutation_map.
Qed.

Lemma mapping_order_independent_witness :
  let b1 := Book.mk (Some (-1000)) (Some (-900)) None None in
  let b2 := Book.mk None None (Some 50) (Some 60) in
  let m := buildYearMapping 2026 [b1; b2] MILESTONES in
  let m' := buildYearMapping 2026 [b2; b1] (rev MILESTONES) in
  Mapping._yearPositions m = Mapping._yearPositions m' /\
  Mapping._sortedYears m = Mapping._sortedYears m' /\
  Mapping.minYear m = Mapping.minYear m' /\
  Mapping.maxYear m = Mapping.maxYear m' /\
  (forall scrollPos, Mapping.scrollToYear m scrollPos
                     = Mapping.scrollToYear m' scrollPos) /\
  (forall year, Mapping.yearToScroll m year = Mapping.yearToScroll m' year) /\
  Permutation (Mapping.events m) (Mapping.events m').
Proof.
  intros b1 b2.
  apply (mapping_order_independent 2026 [b1; b2] [b2; b1] MILESTONES (rev MILESTONES)).
  - reflexivity.
  - apply perm_swap.
  - apply Permutation_rev.
Defined.

(** ** Eras and year display *)

Ltac era_cases :=
  repeat match goal with
    | |- context [?a >=? ?b] =>
        destruct (Z.geb_spec a b); try (exfalso; lia); cbn [andb]
    | |- context [?a <? ?b] =>
        destruct (Z.ltb_spec a b); try (exfalso; lia); cbn [andb]
    end.

(** X11.  Every year gets a proper era.  [getEraForYear] returns the era
    of the table whose [start, end) holds the year, the first era for any
    earlier year and the last one for any year from 100 on; the wisdom
    entry is returned for [null] only. *)
Theorem getEraForYear_covers (CURRENT_YEAR year : Z) :
  let era := getEraForYear CURRENT_YEAR (Some year) in
  In era (ERAS CURRENT_YEAR) /\
  era <> WISDOM /\
  (year < -2100 -> era = PRIMEVAL) /\
  (100 <= year -> era = CHURCH_AGE CURRENT_YEAR) /\
  (-4000 <= year < 100 ->
   exists s e, Era.start era = Some s /\ Era.end_ era = Some e /\ s <= year < e).
Proof.
  cbv zeta. unfold getEraForYear, ERAS.
  cbn [findEra Era.start Era.end_ toNumber PRIMEVAL PATRIARCHS EXODUS JUDGES
       UNITED_KINGDOM DIVIDED_KINGDOM EXILE POST_EXILE INTERTESTAMENTAL
       GOSPELS APOSTOLIC CHURCH_AGE WISDOM].
  era_cases;
    (split; [cbn; tauto|]);
    (split; [discriminate|]);
    (split; [intros; first [reflexivity | exfalso; lia]|]);
    (split; [intros; first [reflexivity | exfalso; lia]|]);
    intros; first [exfalso; lia | (do 2 eexists; cbn [Era.start Era.end_];
                                   split; [reflexivity|]; split; [reflexivity|]; lia)].
Qed.

Lemma toString_inj (a b : Z) : toString a = toString b -> a = b.
Proof.
  unfold toString. intros H.
  assert (Hnil : forall z, Z.to_int z <> Decimal.Pos Decimal.Nil /\
                           Z.to_int z <> Decimal.Neg Decimal.Nil).
  { intros [|p|p]; cbn; split; try discriminate; intros [= E];
      now apply DecimalPos.Unsigned.to_uint_nonnil in E. }
  apply (f_equal DecimalString.NilZero.int_of_string) in H.
  destruct (Hnil a), (Hnil b).
  rewrite !DecimalString.NilZero.isi in H by assumption.
  injection H as H. now apply DecimalZ.to_int_inj.
Qed.

(** X12.  [formatYearParts] never shows a year 0: the years 0 and -1 are
    both displayed as "1 BC", and this is the only pair of whole years
    displayed alike. *)
Theorem formatYearParts_collision (y1 y2 : Z) :
  formatYearParts (Some y1) = formatYearParts (Some y2) <->
  y1 = y2 \/ (y1 = 0 /\ y2 = -1) \/ (y1 = -1 /\ y2 = 0).
Proof.
  split.
  - unfold formatYearParts.
    destruct (Z.ltb_spec y1 0), (Z.ltb_spec y2 0);
      try destruct (Z.eqb_spec y1 0); try destruct (Z.eqb_spec y2 0);
      intros E;
      pose proof (f_equal YearParts.number E) as En;
      pose proof (f_equal YearParts.suffix E) as Es;
      cbn [YearParts.number YearParts.suffix] in En, Es;
      try discriminate Es; try lia.
    + apply toString_inj in En. lia.
    + change "1"%string with (toString 1) in En. apply toString_inj in En. lia.
    + change "1"%string with (toString 1) in En. apply toString_inj in En. lia.
    + apply toString_inj in En. lia.
  - intros [->|[[-> ->]|[-> ->]]]; reflexivity.
Qed.

(** ** Waypoints: [buildScrollToYearMap] and [interpolateYear] *)

Section KeySortR.
Context {A : Type} (key : A -> R).

Lemma insert_keyR_sorted (x : A) (l : list A) :
  StronglySorted (fun a b => (key a <= key b)%R) l ->
  StronglySorted (fun a b => (key a <= key b)%R)
    (insert (fun a b => Rltb 0 (key a - key b)) x l).
Proof.
  induction 1 as [|y l Hs IH Hy]; cbn [insert].
  - repeat constructor.
  - destruct (Rltb 0 (key x - key y)) eqn:E.
    + apply Rltb_true in E. constructor; [exact IH|].
      rewrite insert_perm. constructor; [lra | exact Hy].
    + apply Rltb_false in E. constructor; [now constructor|].
      constructor; [lra|].
      eapply Forall_impl; [|exact Hy]. cbv beta. intros; lra.
Qed.

Lemma js_sort_keyR_sorted (l : list A) :
  StronglySorted (fun a b => (key a <= key b)%R)
    (js_sort (fun a b => Rltb 0 (key a - key b)) l).
Proof.
  induction l as [|x l IH]; cbn [js_sort]; [constructor|].
  now apply insert_keyR_sorted.
Qed.
End KeySortR.

Lemma round_between_any (y1 y2 lo hi : Z) (t : R) :
  lo <= y1 <= hi -> lo <= y2 <= hi -> (0 <= t <= 1)%R ->
  exists y, js_round (Num (IZR y1 + t * IZR (y2 - y1))) = of_year y /\
            lo <= y <= hi.
Proof.
  intros [H1 H1'] [H2 H2'] [Ht0 Ht1]. apply js_round_between.
  rewrite minus_IZR.
  apply IZR_le in H1, H1', H2, H2'. split; nra.
Qed.

Lemma scanWaypoints_bounds (lo hi : Z) (s : R) (w : Waypoint.t)
    (l : list Waypoint.t) (r : number) :
  StronglySorted
    (fun a b => (Waypoint.scrollPosition a <= Waypoint.scrollPosition b)%R)
    (w :: l) ->
  (forall x, In x (w :: l) -> lo <= Waypoint.year x <= hi) ->
  (Waypoint.scrollPosition w < s)%R ->
  scanWaypoints (w :: l) s = Some r ->
  exists y, r = of_year y /\ lo <= y <= hi.
Proof.
  revert w. induction l as [|n l IH]; intros w Hs Hy Hw; [discriminate|].
  change (scanWaypoints (w :: n :: l) s)
    with (if Rleb (Waypoint.scrollPosition w) s
             && Rleb s (Waypoint.scrollPosition n)
          then Some (js_round
                 (js_add (of_year (Waypoint.year w))
                    (js_mul (js_div (Num (s - Waypoint.scrollPosition w))
                               (Num (Waypoint.scrollPosition n
                                     - Waypoint.scrollPosition w)))
                       (of_year (Waypoint.year n - Waypoint.year w)))))
          else scanWaypoints (n :: l) s).
  replace (Rleb (Waypoint.scrollPosition w) s) with true
    by (symmetry; apply Rleb_true; lra).
  cbn [andb]. destruct (Rleb_spec s (Waypoint.scrollPosition n)) as [Hle|Hgt].
  - intros Hr. rewrite js_div_finite in Hr by lra.
    unfold of_year in Hr. cbn [js_mul js_add] in Hr. injection Hr as <-.
    apply round_between_any.
    + apply Hy. now left.
    + apply Hy. right. now left.
    + set (d := (Waypoint.scrollPosition n - Waypoint.scrollPosition w)%R).
      assert (Hd : (0 < d)%R) by (unfold d; lra).
      assert (Hi := Rinv_0_lt_compat _ Hd). split.
      * apply Rmult_le_pos; lra.
      * apply Rmult_le_reg_r with d; [exact Hd|].
        unfold Rdiv. rewrite Rmult_assoc, Rinv_l by lra. unfold d. lra.
  - inversion Hs; subst. apply IH; [assumption | | exact Hgt].
    intros x Hx. apply Hy. now right.
Qed.

Lemma interpolateYear_between (lo hi : Z) (s : R)
    (waypoints : list Waypoint.t) :
  StronglySorted
    (fun a b => (Waypoint.scrollPosition a <= Waypoint.scrollPosition b)%R)
    waypoints ->
  (forall x, In x waypoints -> lo <= Waypoint.year x <= hi) ->
  (waypoints = [] -> interpolateYear s waypoints = of_year (-4000)) /\
  (waypoints <> [] ->
   exists y, interpolateYear s waypoints = of_year y /\ lo <= y <= hi).
Proof.
  intros Hs Hy. split; [now intros ->|]. intros Hne.
  destruct waypoints as [|w l]; [contradiction|].
  unfold interpolateYear.
  destruct (Rleb_spec s (Waypoint.scrollPosition w)) as [Hle|Hgt].
  { eexists. split; [reflexivity|]. apply Hy. now left. }
  destruct (Rleb_spec (Waypoint.scrollPosition (last (w :: l) w)) s).
  { eexists. split; [reflexivity|]. apply Hy. apply last_In. }
  destruct (scanWaypoints (w :: l) s) as [r|] eqn:E.
  - now apply (scanWaypoints_bounds lo hi s w l r).
  - eexists. split; [reflexivity|]. apply Hy. apply last_In.
Qed.

(** X13.  On waypoints sorted by position (ties allowed) and with years
    between [lo] and [hi], [interpolateYear] returns a whole year between
    [lo] and [hi] for every real position: the division by a zero
    position gap is never reached.  Without waypoints it returns -4000. *)
Theorem interpolateYear_in_range (lo hi : Z) (s : R)
    (waypoints : list Waypoint.t) :
  StronglySorted
    (fun a b => (Waypoint.scrollPosition a <= Waypoint.scrollPosition b)%R)
    waypoints ->
  (forall x, In x waypoints -> lo <= Waypoint.year x <= hi) ->
  (waypoints = [] -> interpolateYear s waypoints = of_year (-4000)) /\
  (waypoints <> [] ->
   exists y, interpolateYear s waypoints = of_year y /\ lo <= y <= hi).
Proof. exact (interpolateYear_between lo hi s waypoints). Qed.

Lemma interpolateYear_in_range_witness :
  exists y,
    interpolateYear 0.5
      [Waypoint.mk 0 (-4000); Waypoint.mk 0.5 (-1000); Waypoint.mk 0.5 (-900);
       Waypoint.mk 1 100] = of_year y /\
    -4000 <= y <= 100.
Proof.
  apply (interpolateYear_in_range (-4000) 100 0.5
           [Waypoint.mk 0 (-4000); Waypoint.mk 0.5 (-1000);
            Waypoint.mk 0.5 (-900); Waypoint.mk 1 100]).
  - repeat constructor; cbn; lra.
  - intros x Hx. repeat (destruct Hx as [<-|Hx]; [cbn; lia|]). contradiction.
  - discriminate.
Defined.

Lemma groupWaypoint_finite (groups : list Placed.t) :
  (forall g, In g groups -> Group.centerDate (Placed.group g) <> None ->
             exists x, Placed.scrollPosition g = Num x) ->
  flat_map groupWaypoint groups
  = map finiteWaypoint (flat_map finiteGroupWaypoint groups).
Proof.
  induction groups as [|g groups IH]; intros H; [reflexivity|].
  cbn [flat_map]. rewrite map_app, IH by (intros; apply H; [now right | assumption]).
  f_equal. unfold groupWaypoint, finiteGroupWaypoint.
  destruct (Group.centerDate (Placed.group g)) as [c|] eqn:E; [|reflexivity].
  destruct (H g (or_introl eq_refl)) as [x Ex]; [now rewrite E|].
  now rewrite Ex.
Qed.

(** X14.  When the dated groups carry finite positions, the waypoints
    that [buildScrollToYearMap] returns are sorted by position and are
    the two end waypoints (0, -4000) and (1, 100) plus one per dated
    group; [interpolateYear] on them then returns, for every position, a
    whole year between the least and the greatest of -4000, 100 and the
    centre dates. *)
Theorem buildScrollToYearMap_interpolates (lo hi : Z)
    (groups : list Placed.t) :
  lo <= -4000 -> 100 <= hi ->
  (forall g c, In g groups -> Group.centerDate (Placed.group g) = Some c ->
               lo <= c <= hi) ->
  (forall g, In g groups -> Group.centerDate (Placed.group g) <> None ->
             exists x, Placed.scrollPosition g = Num x) ->
  exists waypoints : list Waypoint.t,
    buildScrollToYearMap groups = map finiteWaypoint waypoints /\
    StronglySorted
      (fun a b => (Waypoint.scrollPosition a <= Waypoint.scrollPosition b)%R)
      waypoints /\
    Permutation (buildScrollToYearMap groups)
      (RawWaypoint.mk (Num 0) (-4000) :: flat_map groupWaypoint groups
       ++ [RawWaypoint.mk (Num 1) 100]) /\
    forall s : R,
      exists y, interpolateYear s waypoints = of_year y /\ lo <= y <= hi.
Proof.
  intros Hlo Hhi Hc Hfin.
  set (raw := Waypoint.mk 0 (-4000) :: flat_map finiteGroupWaypoint groups
              ++ [Waypoint.mk 1 100]).
  set (gtb := fun a b : Waypoint.t =>
                Rltb 0 (Waypoint.scrollPosition a - Waypoint.scrollPosition b)).
  exists (js_sort gtb raw).
  assert (Hs : StronglySorted
                 (fun a b => (Waypoint.scrollPosition a <= Waypoint.scrollPosition b)%R)
                 (js_sort gtb raw)) by apply (js_sort_keyR_sorted Waypoint.scrollPosition).
  assert (Hp : Permutation (js_sort gtb raw) raw) by apply js_sort_perm.
  assert (E : buildScrollToYearMap groups = map finiteWaypoint (js_sort gtb raw)).
  { unfold buildScrollToYearMap.
    rewrite (groupWaypoint_finite groups Hfin).
    change ([RawWaypoint.mk (Num 0) (-4000)]
            ++ map finiteWaypoint (flat_map finiteGroupWaypoint groups)
            ++ [RawWaypoint.mk (Num 1) 100])
      with (finiteWaypoint (Waypoint.mk 0 (-4000))
            :: map finiteWaypoint (flat_map finiteGroupWaypoint groups)
            ++ map finiteWaypoint [Waypoint.mk 1 100]).
    rewrite <- map_app.
    change (finiteWaypoint (Waypoint.mk 0 (-4000))
            :: map finiteWaypoint (flat_map finiteGroupWaypoint groups
                                   ++ [Waypoint.mk 1 100]))
      with (map finiteWaypoint raw).
    apply js_sort_map. reflexivity. }
  split; [exact E|]. split; [exact Hs|]. split; [apply js_sort_perm|].
  intros s.
  apply (interpolateYear_between lo hi s (js_sort gtb raw) Hs).
  - intros x Hx. apply (Permutation_in _ Hp) in Hx.
    destruct Hx as [<-|Hx]; [cbn; lia|].
    apply in_app_iff in Hx as [Hx|[<-|[]]]; [|cbn; lia].
    apply in_flat_map in Hx as (g & Hg & Hx). unfold finiteGroupWaypoint in Hx.
    destruct (Group.centerDate (Placed.group g)) as [c|] eqn:Ec; [|contradiction].
    destruct (Placed.scrollPosition g); try contradiction.
    destruct Hx as [<-|[]]. cbn [Waypoint.year]. now apply (Hc g).
  - intros E0. apply (Permutation_nil_cons (l := flat_map finiteGroupWaypoint groups
                                                 ++ [Waypoint.mk 1 100])
                        (x := Waypoint.mk 0 (-4000))).
    fold raw. rewrite <- E0. now apply Permutation_sym.
Qed.

Lemma buildScrollToYearMap_interpolates_witness :
  let groups :=
    [Placed.mk (Group.mk [] (Some (-1000)) (Some (-900)) (Some (-950)) PRIMEVAL)
       (Num 0.3);
     Placed.mk (Group.mk [] None None None WISDOM) NaN] in
  exists waypoints : list Waypoint.t,
    buildScrollToYearMap groups = map finiteWaypoint waypoints /\
    StronglySorted
      (fun a b => (Waypoint.scrollPosition a <= Waypoint.scrollPosition b)%R)
      waypoints /\
    Permutation (buildScrollToYearMap groups)
      (RawWaypoint.mk (Num 0) (-4000) :: flat_map groupWaypoint groups
       ++ [RawWaypoint.mk (Num 1) 100]) /\
    forall s : R,
      exists y, interpolateYear s waypoints = of_year y /\ -4000 <= y <= 100.
Proof.
  intros groups.
  apply (buildScrollToYearMap_interpolates (-4000) 100 groups).
  - lia.
  - lia.
  - intros g c [<-|[<-|[]]] E; cbn in E; [injection E as <-; lia | discriminate E].
  - intros g [<-|[<-|[]]] E; [now exists 0.3%R | now cbn in E].
Defined.

(** ** [groupBooksByTime] *)

Lemma replaceAt_split {A : Type} (i : nat) (x y : A) (l : list A) :
  nth_error l i = Some x ->
  exists l1 l2, l = l1 ++ x :: l2 /\ replaceAt i y l = l1 ++ y :: l2.
Proof.
  revert i. induction l as [|a l IH]; intros [|i] H; try discriminate H.
  - injection H as ->. now exists [], l.
  - destruct (IH i H) as (l1 & l2 & -> & E).
    exists (a :: l1), l2. cbn [replaceAt app]. now rewrite E.
Qed.

(** One step of the loop keeps the books and the shape of the groups. *)
Lemma groupStep_inv (CURRENT_YEAR : Z) (st : Grouping.t) (book : Book.t)
    (done : list Book.t) :
  Permutation (flat_map Group.books (Grouping.groups st)) done ->
  Forall groupOK (Grouping.groups st) ->
  Permutation (flat_map Group.books
                 (Grouping.groups (groupStep CURRENT_YEAR st book)))
    (done ++ [book]) /\
  Forall groupOK (Grouping.groups (groupStep CURRENT_YEAR st book)).
Proof.
  intros Hp Hok. unfold groupStep.
  destruct (DisplayDate.start (getDisplayDate book)) as [start|] eqn:Estart.
  - assert (Hfresh :
      forall c,
        Permutation
          (flat_map Group.books
             (Grouping.groups st
              ++ [startGroup CURRENT_YEAR book (getDisplayDate book) c]))
          (done ++ [book]) /\
        Forall groupOK
          (Grouping.groups st
           ++ [startGroup CURRENT_YEAR book (getDisplayDate book) c])).
    { intros c. split.
      - rewrite flat_map_app. cbn. now rewrite Hp.
      - apply Forall_app. split; [exact Hok|]. constructor; [|constructor].
        unfold groupOK, startGroup. cbn [Group.books Group.centerDate Group.startDate].
        split; [cbn; lia|]. rewrite Estart. split; [discriminate|].
        intros b [<-|[]]. rewrite Estart. discriminate. }
    destruct (Grouping.currentGroup st) as [i|]; [|apply Hfresh].
    destruct (nth_error (Grouping.groups st) i) as [cg|] eqn:Enth; [|apply Hfresh].
    destruct (Group.startDate cg) as [gs|] eqn:Egs; [|apply Hfresh].
    destruct (_ && _) eqn:Etest; [|apply Hfresh].
    apply andb_true_iff in Etest as [_ Hlen]. apply Nat.ltb_lt in Hlen.
    cbn [Grouping.groups].
    match goal with
    | |- context [replaceAt i ?g _] =>
        destruct (replaceAt_split i cg g (Grouping.groups st) Enth)
          as (l1 & l2 & El & ->)
    end.
    rewrite El in Hp, Hok.
    apply Forall_app in Hok as [Hok1 Hok2].
    inversion Hok2 as [|? ? Hcg Hok3]; subst.
    split.
    + rewrite flat_map_app in *. cbn [flat_map Group.books] in *.
      rewrite <- Hp. rewrite <- !app_assoc.
      apply Permutation_app_head. apply Permutation_app_head.
      apply Permutation_app_comm.
    + apply Forall_app. split; [exact Hok1|]. constructor; [|exact Hok3].
      destruct Hcg as [Hsize Hsep]. unfold groupOK.
      cbn [Group.books Group.centerDate Group.startDate].
      split; [rewrite length_app; cbn; lia|].
      split; [discriminate|].
      intros b Hb. apply in_app_iff in Hb as [Hb|[<-|[]]].
      * destruct (Group.centerDate cg).
        -- now apply Hsep.
        -- destruct Hsep as [Hnone _]. congruence.
      * rewrite Estart. discriminate.
  - cbn [Grouping.groups]. split.
    + rewrite flat_map_app. cbn. now rewrite Hp.
    + apply Forall_app. split; [exact Hok|]. constructor; [|constructor].
      unfold groupOK. cbn. split; [lia|]. split; [reflexivity|]. now exists book.
Qed.

Lemma groupLoop_inv (CURRENT_YEAR : Z) (l : list Book.t) :
  forall (st : Grouping.t) (done : list Book.t),
    Permutation (flat_map Group.books (Grouping.groups st)) done ->
    Forall groupOK (Grouping.groups st) ->
    Permutation
      (flat_map Group.books
         (Grouping.groups (fold_left (groupStep CURRENT_YEAR) l st)))
      (done ++ l) /\
    Forall groupOK (Grouping.groups (fold_left (groupStep CURRENT_YEAR) l st)).
Proof.
  induction l as [|b l IH]; intros st done Hp Hok.
  - cbn. now rewrite app_nil_r.
  - cbn [fold_left].
    destruct (groupStep_inv CURRENT_YEAR st b done Hp Hok) as [Hp' Hok'].
    destruct (IH _ _ Hp' Hok') as [Hp'' Hok''].
    split; [|exact Hok'']. now rewrite <- app_assoc in Hp''.
Qed.

Lemma sortGroup_books (g : Group.t) :
  Permutation (Group.books (sortGroup g)) (Group.books g).
Proof.
  unfold sortGroup. destruct (1 <? length (Group.books g))%nat; [|reflexivity].
  apply js_sort_perm.
Qed.

Lemma sortGroup_ok (g : Group.t) : groupOK g -> groupOK (sortGroup g).
Proof.
  intros [Hsize Hsep]. unfold sortGroup.
  destruct (1 <? length (Group.books g))%nat eqn:E; [|now split].
  unfold groupOK. cbn [Group.books Group.centerDate Group.startDate].
  split; [now rewrite (Permutation_length (js_sort_perm _ _))|].
  destruct (Group.centerDate g).
  - destruct Hsep as [Hs Hall]. split; [exact Hs|].
    intros b Hb. apply Hall.
    now apply (Permutation_in _ (js_sort_perm laterCenter (Group.books g))).
  - destruct Hsep as [_ (b & Eb & _)]. rewrite Eb in E. discriminate E.
Qed.

(** X15.  [groupBooksByTime] loses and repeats no book: the books of its
    groups, taken together, are the input books. *)
Theorem groupBooksByTime_partition (CURRENT_YEAR : Z) (books : list Book.t) :
  Permutation (flat_map Group.books (groupBooksByTime CURRENT_YEAR books)) books.
Proof.
  unfold groupBooksByTime.
  destruct (groupLoop_inv CURRENT_YEAR (js_sort laterStart books)
              (Grouping.mk [] None) [] (perm_nil _) (Forall_nil _)) as [Hp _].
  cbn [app] in Hp.
  apply Permutation_trans with (js_sort laterStart books); [|apply js_sort_perm].
  eapply Permutation_trans; [|exact Hp]. clear Hp.
  induction (Grouping.groups _) as [|g gs IH]; [constructor|].
  cbn [map flat_map]. apply Permutation_app; [apply sortGroup_books | exact IH].
Qed.

(** X16.  Every group has between one and four books; a group without a
    centre date is one undated book alone, and a group with a centre date
    holds dated books only. *)
Theorem groupBooksByTime_groups (CURRENT_YEAR : Z) (books : list Book.t) :
  Forall groupOK (groupBooksByTime CURRENT_YEAR books).
Proof.
  unfold groupBooksByTime.
  destruct (groupLoop_inv CURRENT_YEAR (js_sort laterStart books)
              (Grouping.mk [] None) [] (perm_nil _) (Forall_nil _)) as [_ Hok].
  rewrite Forall_map. eapply Forall_impl; [|exact Hok].
  intros g. apply sortGroup_ok.
Qed.

(** ** The book manager *)

Section AssocFacts.
Context {K V : Type} (eqb : K -> K -> bool).
Hypothesis eqb_spec : forall a b, reflect (a = b) (eqb a b).

Lemma assoc_get_set_same (k : K) (v : V) (m : list (K * V)) :
  assoc_get eqb k (assoc_set eqb k v m) = Some v.
Proof.
  induction m as [|[k' v'] m IH]; cbn [assoc_set assoc_get].
  - now destruct (eqb_spec k k).
  - destruct (eqb_spec k k') as [->|Hne]; cbn [assoc_get].
    + now destruct (eqb_spec k' k').
    + now destruct (eqb_spec k k').
Qed.

Lemma assoc_get_set_other (k k' : K) (v : V) (m : list (K * V)) :
  k <> k' -> assoc_get eqb k' (assoc_set eqb k v m) = assoc_get eqb k' m.
Proof.
  intros Hne. induction m as [|[k0 v0] m IH]; cbn [assoc_set assoc_get].
  - destruct (eqb_spec k' k); [congruence | reflexivity].
  - destruct (eqb_spec k k0) as [->|Hne0]; cbn [assoc_get].
    + destruct (eqb_spec k' k0); [congruence | reflexivity].
    + destruct (eqb_spec k' k0); [reflexivity | exact IH].
Qed.

Lemma assoc_get_delete_same (k : K) (m : list (K * V)) :
  assoc_get eqb k (assoc_delete eqb k m) = None.
Proof.
  unfold assoc_delete. induction m as [|[k' v'] m IH]; [reflexivity|].
  cbn [filter fst]. destruct (eqb_spec k k') as [->|Hne]; cbn [negb]; [exact IH|].
  cbn [assoc_get]. now destruct (eqb_spec k k').
Qed.

Lemma assoc_get_delete_other (k k' : K) (m : list (K * V)) :
  k <> k' -> assoc_get eqb k' (assoc_delete eqb k m) = assoc_get eqb k' m.
Proof.
  intros Hne. unfold assoc_delete. induction m as [|[k0 v0] m IH]; [reflexivity|].
  cbn [filter fst assoc_get]. destruct (eqb_spec k k0) as [->|Hne0]; cbn [negb].
  - destruct (eqb_spec k' k0); [congruence | exact IH].
  - cbn [assoc_get]. now destruct (eqb_spec k' k0).
Qed.

Lemma assoc_get_keys (k : K) (m : list (K * V)) :
  In k (map fst m) <-> exists v, assoc_get eqb k m = Some v.
Proof.
  induction m as [|[k' v'] m IH]; cbn [map fst In assoc_get].
  - split; [contradiction | now intros [v H]].
  - destruct (eqb_spec k k') as [->|Hne].
    + split; [now exists v' | now left].
    + rewrite <- IH. split; [intros [H|H]; [congruence | exact H] | now right].
Qed.
End AssocFacts.

Lemma cellIndices_In (c : Z) : In c cellIndices <-> 0 <= c < TOTAL_CELLS.
Proof.
  unfold cellIndices. rewrite in_map_iff. split.
  - intros (n & <- & Hn). apply in_seq in Hn. cbn in *. lia.
  - intros H. exists (Z.to_nat c). split; [lia|]. apply in_seq. cbn in *. lia.
Qed.

Lemma findAvailableCell_Some (st : Manager.t) (c : Z) :
  findAvailableCell st = Some c ->
  0 <= c < TOTAL_CELLS /\ assoc_get Z.eqb c (Manager.occupiedCells st) = None.
Proof.
  unfold findAvailableCell. intros H. apply find_some in H as [Hin Hfree].
  split; [now apply cellIndices_In|].
  unfold assoc_has in Hfree. now destruct (assoc_get Z.eqb c _).
Qed.

Lemma findAvailableCell_None (st : Manager.t) :
  findAvailableCell st = None ->
  forall c, 0 <= c < TOTAL_CELLS ->
            exists bookId, assoc_get Z.eqb c (Manager.occupiedCells st) = Some bookId.
Proof.
  unfold findAvailableCell. intros H c Hc.
  pose proof (find_none _ _ H c (proj2 (cellIndices_In c) Hc)) as Hocc.
  unfold assoc_has in Hocc.
  destruct (assoc_get Z.eqb c _) as [b|]; [now exists b | discriminate].
Qed.

Lemma addBook_consistent (st : Manager.t) (bookId : String.string) :
  consistent st ->
  assoc_get String.eqb bookId (Manager.visibleBooks st) = None ->
  consistent (addBook st bookId).
Proof.
  intros [Hpair Hgrid] Hnew. unfold addBook.
  destruct (findAvailableCell st) as [cell|] eqn:Ecell; [|now split].
  destruct (findAvailableCell_Some _ _ Ecell) as [Hcell Hfree].
  split; cbn [Manager.visibleBooks Manager.occupiedCells].
  - intros b c.
    destruct (String.eqb_spec bookId b) as [<-|Hb], (Z.eqb_spec cell c) as [<-|Hc].
    + rewrite (assoc_get_set_same _ String.eqb_spec), (assoc_get_set_same _ Z.eqb_spec).
      tauto.
    + rewrite (assoc_get_set_same _ String.eqb_spec),
        (assoc_get_set_other _ Z.eqb_spec) by exact Hc.
      split; [intros [= E]; congruence|].
      intros E. apply Hpair in E. congruence.
    + rewrite (assoc_get_set_other _ String.eqb_spec) by exact Hb.
      rewrite (assoc_get_set_same _ Z.eqb_spec).
      split; [|intros [= E]; congruence].
      intros E. apply Hpair in E. congruence.
    + rewrite (assoc_get_set_other _ String.eqb_spec) by exact Hb.
      rewrite (assoc_get_set_other _ Z.eqb_spec) by exact Hc.
      apply Hpair.
  - intros c b. destruct (Z.eqb_spec cell c) as [<-|Hc]; [intros _; exact Hcell|].
    rewrite (assoc_get_set_other _ Z.eqb_spec) by exact Hc. apply Hgrid.
Qed.

Lemma removeBook_consistent (st : Manager.t) (bookId : String.string) :
  consistent st -> consistent (removeBook st bookId).
Proof.
  intros [Hpair Hgrid]. unfold removeBook.
  destruct (assoc_get String.eqb bookId (Manager.visibleBooks st)) as [cell|] eqn:E;
    [|now split].
  assert (Eocc := proj1 (Hpair _ _) E).
  split; cbn [Manager.visibleBooks Manager.occupiedCells].
  - intros b c.
    destruct (String.eqb_spec bookId b) as [<-|Hb], (Z.eqb_spec cell c) as [<-|Hc].
    + rewrite (assoc_get_delete_same _ String.eqb_spec),
        (assoc_get_delete_same _ Z.eqb_spec). split; discriminate.
    + rewrite (assoc_get_delete_same _ String.eqb_spec),
        (assoc_get_delete_other _ Z.eqb_spec) by exact Hc.
      split; [discriminate|]. intros E'. apply Hpair in E'. congruence.
    + rewrite (assoc_get_delete_other _ String.eqb_spec) by exact Hb.
      rewrite (assoc_get_delete_same _ Z.eqb_spec).
      split; [|discriminate]. intros E'. apply Hpair in E'. congruence.
    + rewrite (assoc_get_delete_other _ String.eqb_spec) by exact Hb.
      rewrite (assoc_get_delete_other _ Z.eqb_spec) by exact Hc.
      apply Hpair.
  - intros c b. destruct (Z.eqb_spec cell c) as [<-|Hc].
    + rewrite (assoc_get_delete_same _ Z.eqb_spec). discriminate.
    + rewrite (assoc_get_delete_other _ Z.eqb_spec) by exact Hc. apply Hgrid.
Qed.

Lemma showEntry_consistent (should : list String.string) (st : Manager.t)
    (entry : BookEntry.t) :
  consistent st -> consistent (showEntry should st entry).
Proof.
  intros H. unfold showEntry.
  destruct (negb (setHas should _)); [exact H|].
  unfold assoc_has.
  destruct (assoc_get String.eqb _ (Manager.visibleBooks st)) eqn:E; cbn [negb];
    [exact H | now apply addBook_consistent].
Qed.

Lemma fold_consistent {A : Type} (f : Manager.t -> A -> Manager.t) (l : list A) :
  (forall st a, consistent st -> consistent (f st a)) ->
  forall st, consistent st -> consistent (fold_left f l st).
Proof.
  intros Hf. induction l as [|a l IH]; intros st H; [exact H|].
  cbn [fold_left]. apply IH. now apply Hf.
Qed.

(** X17.  [updateForYear] keeps the two maps of the manager in step: if
    [visibleBooks] and [occupiedCells] mirror each other before, they do
    after; then every visible book has a cell of the grid (0 to 11) and
    no two visible books have the same cell. *)
Theorem updateForYear_consistent (booksByDate : list BookEntry.t) (year : Z)
    (st : Manager.t) :
  consistent st ->
  let st' := updateForYear booksByDate year st in
  consistent st' /\
  (forall bookId cell,
      assoc_get String.eqb bookId (Manager.visibleBooks st') = Some cell ->
      0 <= cell < 12) /\
  (forall b1 b2 cell,
      assoc_get String.eqb b1 (Manager.visibleBooks st') = Some cell ->
      assoc_get String.eqb b2 (Manager.visibleBooks st') = Some cell ->
      b1 = b2).
Proof.
  intros H st'.
  assert (H' : consistent st').
  { unfold st', updateForYear.
    apply fold_consistent; [intros; now apply showEntry_consistent|].
    apply fold_consistent; [intros; now apply removeBook_consistent | exact H]. }
  split; [exact H'|]. destruct H' as [Hpair Hgrid]. split.
  - intros b c E. apply Hpair in E. apply Hgrid in E. exact E.
  - intros b1 b2 c E1 E2. apply Hpair in E1, E2. congruence.
Qed.

Lemma updateForYear_consistent_witness :
  let e := BookEntry.mk (IdBook.mk "gen"%string (Book.mk (Some (-4000)) (Some (-1800)) None None))
             (-4000) (Some (-1800)) false PRIMEVAL 20 120 (-4020) (-1780) in
  let st' := updateForYear [e] (-3000) (Manager.mk [] []) in
  consistent st' /\
  (forall bookId cell,
      assoc_get String.eqb bookId (Manager.visibleBooks st') = Some cell ->
      0 <= cell < 12) /\
  (forall b1 b2 cell,
      assoc_get String.eqb b1 (Manager.visibleBooks st') = Some cell ->
      assoc_get String.eqb b2 (Manager.visibleBooks st') = Some cell ->
      b1 = b2).
Proof.
  intros e.
  apply (updateForYear_consistent [e] (-3000) (Manager.mk [] [])).
  split; cbn; intros; split; discriminate.
Defined.

Lemma removeBook_get (st : Manager.t) (bookId b : String.string) :
  assoc_get String.eqb b (Manager.visibleBooks (removeBook st bookId))
  = if String.eqb bookId b then None
    else assoc_get String.eqb b (Manager.visibleBooks st).
Proof.
  unfold removeBook.
  destruct (assoc_get String.eqb bookId (Manager.visibleBooks st)) eqn:E;
    cbn [Manager.visibleBooks]; destruct (String.eqb_spec bookId b) as [<-|Hne].
  - apply (assoc_get_delete_same _ String.eqb_spec).
  - now apply (assoc_get_delete_other _ String.eqb_spec).
  - exact E.
  - reflexivity.
Qed.

Lemma removeAll_get (l : list String.string) (st : Manager.t) (b : String.string) :
  assoc_get String.eqb b (Manager.visibleBooks (fold_left removeBook l st))
  = if existsb (String.eqb b) l then None
    else assoc_get String.eqb b (Manager.visibleBooks st).
Proof.
  revert st. induction l as [|x l IH]; intros st; [reflexivity|].
  cbn [fold_left existsb]. rewrite IH, removeBook_get.
  rewrite (String.eqb_sym b x).
  destruct (String.eqb x b); cbn [orb]; [now destruct (existsb _ l) | reflexivity].
Qed.

(** After the removal loop a book is visible exactly when it was and is
    wanted. *)
Lemma removal_get (should : list String.string) (st : Manager.t)
    (b : String.string) :
  assoc_get String.eqb b
    (Manager.visibleBooks
       (fold_left removeBook
          (filter (fun bookId => negb (setHas should bookId))
             (map fst (Manager.visibleBooks st))) st))
  = if setHas should b then assoc_get String.eqb b (Manager.visibleBooks st)
    else None.
Proof.
  rewrite removeAll_get.
  destruct (existsb _ _) eqn:E.
  - apply existsb_exists in E as (x & Hx & Hbx).
    apply String.eqb_eq in Hbx. subst x.
    apply filter_In in Hx as [_ Hx]. now destruct (setHas should b).
  - destruct (setHas should b) eqn:Es; [reflexivity|].
    destruct (assoc_get String.eqb b (Manager.visibleBooks st)) as [c|] eqn:Eg;
      [|reflexivity].
    exfalso.
    assert (Hin : In b (filter (fun bookId => negb (setHas should bookId))
                          (map fst (Manager.visibleBooks st)))).
    { apply filter_In. split; [|now rewrite Es].
      apply (assoc_get_keys _ String.eqb_spec). now exists c. }
    assert (Ex : existsb (String.eqb b)
                   (filter (fun bookId => negb (setHas should bookId))
                      (map fst (Manager.visibleBooks st))) = true).
    { apply existsb_exists. exists b. split; [exact Hin | apply String.eqb_refl]. }
    congruence.
Qed.

Lemma addBook_get (st : Manager.t) (bookId b : String.string) (c : Z) :
  assoc_get String.eqb b (Manager.visibleBooks (addBook st bookId)) = Some c ->
  assoc_get String.eqb b (Manager.visibleBooks st) = Some c \/ b = bookId.
Proof.
  unfold addBook. destruct (findAvailableCell st); [|now left].
  cbn [Manager.visibleBooks].
  destruct (String.eqb_spec bookId b) as [<-|Hne]; [now right|].
  rewrite (assoc_get_set_other _ String.eqb_spec) by exact Hne. now left.
Qed.

Lemma showEntry_get (should : list String.string) (st : Manager.t)
    (entry : BookEntry.t) (b : String.string) (c : Z) :
  assoc_get String.eqb b (Manager.visibleBooks (showEntry should st entry)) = Some c ->
  assoc_get String.eqb b (Manager.visibleBooks st) = Some c \/
  setHas should b = true.
Proof.
  unfold showEntry.
  destruct (setHas should (IdBook.id (BookEntry.book entry))) eqn:Es;
    cbn [negb]; [|now left].
  destruct (negb _); [|now left].
  intros H. apply addBook_get in H as [H|E]; [now left | right; now rewrite E].
Qed.

Lemma showEntry_keeps (should : list String.string) (st : Manager.t)
    (entry : BookEntry.t) (b : String.string) (c : Z) :
  assoc_get String.eqb b (Manager.visibleBooks st) = Some c ->
  assoc_get String.eqb b (Manager.visibleBooks (showEntry should st entry)) = Some c.
Proof.
  intros H. unfold showEntry.
  destruct (negb (setHas should _)); [exact H|].
  unfold assoc_has.
  destruct (assoc_get String.eqb (IdBook.id (BookEntry.book entry))
              (Manager.visibleBooks st)) eqn:E; cbn [negb]; [exact H|].
  unfold addBook. destruct (findAvailableCell st); [|exact H].
  cbn [Manager.visibleBooks].
  rewrite (assoc_get_set_other _ String.eqb_spec); [exact H|].
  intros Eb. rewrite Eb in E. congruence.
Qed.

Lemma showAll_get (should : list String.string) (l : list BookEntry.t)
    (st : Manager.t) (b : String.string) (c : Z) :
  assoc_get String.eqb b
    (Manager.visibleBooks (fold_left (showEntry should) l st)) = Some c ->
  assoc_get String.eqb b (Manager.visibleBooks st) = Some c \/
  setHas should b = true.
Proof.
  revert st. induction l as [|e l IH]; intros st H; [now left|].
  cbn [fold_left] in H. apply IH in H as [H|H]; [|now right].
  now apply showEntry_get in H.
Qed.

Lemma showAll_keeps (should : list String.string) (l : list BookEntry.t)
    (st : Manager.t) (b : String.string) (c : Z) :
  assoc_get String.eqb b (Manager.visibleBooks st) = Some c ->
  assoc_get String.eqb b
    (Manager.visibleBooks (fold_left (showEntry should) l st)) = Some c.
Proof.
  revert st. induction l as [|e l IH]; intros st H; [exact H|].
  cbn [fold_left]. apply IH. now apply showEntry_keeps.
Qed.

Lemma shouldBeVisible_spec (booksByDate : list BookEntry.t) (year : Z)
    (b : String.string) :
  setHas (shouldBeVisible booksByDate year) b = true <->
  exists entry,
    In entry booksByDate /\ IdBook.id (BookEntry.book entry) = b /\
    BookEntry.entryStart entry <= year <= BookEntry.exitEnd entry.
Proof.
  unfold setHas, shouldBeVisible. rewrite existsb_exists. split.
  - intros (x & Hx & Hbx). apply String.eqb_eq in Hbx. subst x.
    apply in_map_iff in Hx as (e & He & Hin).
    apply filter_In in Hin as [Hin Hr]. unfold inRange in Hr.
    apply andb_true_iff in Hr as [H1 H2].
    exists e. split; [exact Hin|]. split; [exact He|]. lia.
  - intros (e & Hin & He & Hr). exists b. split; [|apply String.eqb_refl].
    apply in_map_iff. exists e. split; [exact He|].
    apply filter_In. split; [exact Hin|]. unfold inRange.
    apply andb_true_iff. split; lia.
Qed.

(** X18.  After [updateForYear] every visible book is wanted for that
    year: some entry with its identifier has
    [entryStart <= year <= exitEnd]. *)
Theorem updateForYear_only_in_range (booksByDate : list BookEntry.t) (year : Z)
    (st : Manager.t) (bookId : String.string) (cell : Z) :
  assoc_get String.eqb bookId
    (Manager.visibleBooks (updateForYear booksByDate year st)) = Some cell ->
  exists entry,
    In entry booksByDate /\ IdBook.id (BookEntry.book entry) = bookId /\
    BookEntry.entryStart entry <= year <= BookEntry.exitEnd entry.
Proof.
  unfold updateForYear. intros H. apply shouldBeVisible_spec.
  apply showAll_get in H as [H|H]; [|exact H].
  rewrite removal_get in H.
  now destruct (setHas (shouldBeVisible booksByDate year) bookId).
Qed.

(** X19.  A visible book that is still wanted keeps its cell: cards are
    never moved to another cell of the grid while they stay on display. *)
Theorem updateForYear_keeps_cell (booksByDate : list BookEntry.t) (year : Z)
    (st : Manager.t) (entry : BookEntry.t) (cell : Z) :
  In entry booksByDate ->
  BookEntry.entryStart entry <= year <= BookEntry.exitEnd entry ->
  assoc_get String.eqb (IdBook.id (BookEntry.book entry))
    (Manager.visibleBooks st) = Some cell ->
  assoc_get String.eqb (IdBook.id (BookEntry.book entry))
    (Manager.visibleBooks (updateForYear booksByDate year st)) = Some cell.
Proof.
  intros Hin Hr Hv. unfold updateForYear. apply showAll_keeps.
  rewrite removal_get.
  replace (setHas _ _) with true; [exact Hv|].
  symmetry. apply shouldBeVisible_spec. now exists entry.
Qed.

Lemma showEntry_full (should : list String.string) (st : Manager.t)
    (entry : BookEntry.t) :
  findAvailableCell st = None -> showEntry should st entry = st.
Proof.
  intros H. unfold showEntry, addBook. rewrite H.
  destruct (negb _); [reflexivity|]. now destruct (negb _).
Qed.

Lemma showAll_full (should : list String.string) (l : list BookEntry.t)
    (st : Manager.t) :
  findAvailableCell st = None -> fold_left (showEntry should) l st = st.
Proof.
  revert st. induction l as [|e l IH]; intros st H; [reflexivity|].
  cbn [fold_left]. rewrite showEntry_full by exact H. now apply IH.
Qed.

(** X20.  A wanted book is missing after [updateForYear] only when the
    grid is full: either it is visible, or all twelve cells are occupied. *)
Theorem updateForYear_shows_or_full (booksByDate : list BookEntry.t) (year : Z)
    (st : Manager.t) (entry : BookEntry.t) :
  In entry booksByDate ->
  BookEntry.entryStart entry <= year <= BookEntry.exitEnd entry ->
  let st' := updateForYear booksByDate year st in
  (exists cell,
      assoc_get String.eqb (IdBook.id (BookEntry.book entry))
        (Manager.visibleBooks st') = Some cell) \/
  (forall cell, 0 <= cell < 12 ->
      exists bookId,
        assoc_get Z.eqb cell (Manager.occupiedCells st') = Some bookId).
Proof.
  intros Hin Hr st'. subst st'. unfold updateForYear.
  set (should := shouldBeVisible booksByDate year).
  assert (Hs : setHas should (IdBook.id (BookEntry.book entry)) = true).
  { apply shouldBeVisible_spec. now exists entry. }
  generalize (fold_left removeBook
                (filter (fun bookId => negb (setHas should bookId))
                   (map fst (Manager.visibleBooks st))) st).
  intros st1. destruct (in_split _ _ Hin) as (l1 & l2 & ->).
  rewrite fold_left_app. cbn [fold_left].
  set (sta := fold_left (showEntry should) l1 st1).
  assert (Hstep :
    (exists cell,
        assoc_get String.eqb (IdBook.id (BookEntry.book entry))
          (Manager.visibleBooks (showEntry should sta entry)) = Some cell) \/
    findAvailableCell (showEntry should sta entry) = None).
  { unfold showEntry. rewrite Hs. cbn [negb]. unfold assoc_has.
    destruct (assoc_get String.eqb (IdBook.id (BookEntry.book entry))
                (Manager.visibleBooks sta)) as [c|] eqn:E; cbn [negb].
    - left. now exists c.
    - unfold addBook. destruct (findAvailableCell sta) as [c|] eqn:Ec.
      + left. exists c. cbn [Manager.visibleBooks].
        apply (assoc_get_set_same _ String.eqb_spec).
      + now right. }
  destruct Hstep as [(c & Hc)|Hfull].
  - left. exists c. now apply showAll_keeps.
  - right. rewrite showAll_full by exact Hfull.
    intros cell Hcell. now apply findAvailableCell_None.
Qed.

Lemma updateForYear_keeps_cell_witness :
  let e := BookEntry.mk (IdBook.mk "gen"%string (Book.mk (Some (-4000)) (Some (-1800)) None None))
             (-4000) (Some (-1800)) false PRIMEVAL 20 120 (-4020) (-1780) in
  assoc_get String.eqb "gen"%string
    (Manager.visibleBooks
       (updateForYear [e] (-3000) (Manager.mk [("gen"%string, 5)] [(5, "gen"%string)])))
  = Some 5.
Proof.
  intros e.
  apply (updateForYear_keeps_cell [e] (-3000)
           (Manager.mk [("gen"%string, 5)] [(5, "gen"%string)]) e 5).
  - now left.
  - cbn. lia.
  - reflexivity.
Defined.

Lemma updateForYear_shows_or_full_witness :
  let e := BookEntry.mk (IdBook.mk "gen"%string (Book.mk (Some (-4000)) (Some (-1800)) None None))
             (-4000) (Some (-1800)) false PRIMEVAL 20 120 (-4020) (-1780) in
  let st' := updateForYear [e] (-3000) (Manager.mk [] []) in
  (exists cell,
      assoc_get String.eqb (IdBook.id (BookEntry.book e))
        (Manager.visibleBooks st') = Some cell) \/
  (forall cell, 0 <= cell < 12 ->
      exists bookId,
        assoc_get Z.eqb cell (Manager.occupiedCells st') = Some bookId).
Proof.
  intros e.
  apply (updateForYear_shows_or_full [e] (-3000) (Manager.mk [] []) e).
  - now left.
  - cbn. lia.
Defined.

Lemma updateForYear_only_in_range_witness :
  let e := BookEntry.mk (IdBook.mk "gen"%string (Book.mk (Some (-4000)) (Some (-1800)) None None))
             (-4000) (Some (-1800)) false PRIMEVAL 20 120 (-4020) (-1780) in
  exists entry,
    In entry [e] /\ IdBook.id (BookEntry.book entry) = "gen"%string /\
    BookEntry.entryStart entry <= -3000 <= BookEntry.exitEnd entry.
Proof.
  intros e.
  apply (updateForYear_only_in_range [e] (-3000) (Manager.mk [] []) "gen"%string 0).
  reflexivity.
Defined.

(** X21.  [cellToGridPosition] numbers the twelve cells row by row: a
    cell index from 0 to 11 gives a row from 1 to 3 and a column from 1
    to 4, and the index is recovered from them, so different cells get
    different grid positions. *)
Theorem cellToGridPosition_grid (cellIndex : Z) :
  0 <= cellIndex < TOTAL_CELLS ->
  let p := cellToGridPosition cellIndex in
  1 <= GridPosition.row p <= GRID_ROWS /\
  1 <= GridPosition.column p <= GRID_COLUMNS /\
  (GridPosition.row p - 1) * GRID_COLUMNS + (GridPosition.column p - 1) = cellIndex.
Proof.
  unfold cellToGridPosition, TOTAL_CELLS, GRID_ROWS, GRID_COLUMNS.
  intros H. cbn [GridPosition.row GridPosition.column].
  rewrite Z.rem_mod_nonneg by lia.
  assert (Hd := Z.div_mod cellIndex 4 ltac:(lia)).
  assert (Hm := Z.mod_pos_bound cellIndex 4 ltac:(lia)).
  lia.
Qed.

Lemma cellToGridPosition_grid_witness :
  let p := cellToGridPosition 7 in
  1 <= GridPosition.row p <= GRID_ROWS /\
  1 <= GridPosition.column p <= GRID_COLUMNS /\
  (GridPosition.row p - 1) * GRID_COLUMNS + (GridPosition.column p - 1) = 7.
Proof. apply (cellToGridPosition_grid 7). cbn. lia. Defined.

Lemma overlapFactor_range (c : nat) : (0 <= overlapFactor c <= 1)%R.
Proof.
  unfold overlapFactor. assert (H := pos_INR c).
  unfold Rmin. destruct (Rle_dec 1 (INR c / 8)); lra.
Qed.

Lemma overlapFactor_mono (c c' : nat) :
  (c <= c')%nat -> (overlapFactor c <= overlapFactor c')%R.
Proof.
  intros H. apply le_INR in H. unfold overlapFactor, Rmin.
  destruct (Rle_dec 1 (INR c / 8)), (Rle_dec 1 (INR c' / 8)); lra.
Qed.

Lemma scaledByOverlap_between (lo hi : Z) (c : nat) :
  lo <= hi -> lo <= scaledByOverlap lo hi c <= hi.
Proof.
  intros Hlh. apply IZR_le in Hlh. unfold scaledByOverlap.
  destruct (overlapFactor_range c) as [H0 H1].
  set (x := (IZR hi - overlapFactor c * (IZR hi - IZR lo))%R).
  assert (Hx : (IZR lo <= x <= IZR hi)%R) by (unfold x; split; nra).
  destruct (Zfloor_bound (x + / 2)) as [F1 F2]. split.
  - apply Zfloor_lub. lra.
  - assert (H : (IZR (Zfloor (x + / 2)) < IZR (hi + 1))%R)
      by (rewrite plus_IZR; lra).
    apply lt_IZR in H. lia.
Qed.

(** X22.  The lead time and the scroll range computed from the overlap
    count stay between their two constants, shrink as the count grows,
    take the upper constant without overlap and the lower one from eight
    overlaps on. *)
Theorem scaledByOverlap_range (lo hi : Z) (c c' : nat) :
  lo <= hi ->
  lo <= scaledByOverlap lo hi c <= hi /\
  ((c <= c')%nat -> scaledByOverlap lo hi c' <= scaledByOverlap lo hi c) /\
  scaledByOverlap lo hi 0 = hi /\
  ((8 <= c)%nat -> scaledByOverlap lo hi c = lo).
Proof.
  intros Hlh. split; [now apply scaledByOverlap_between|].
  apply IZR_le in Hlh. unfold scaledByOverlap.
  split; [|split].
  - intros Hc. apply Zfloor_le. assert (Hm := overlapFactor_mono c c' Hc). nra.
  - unfold overlapFactor. cbn [INR].
    replace (Rmin 1 (0 / 8)) with 0%R
      by (unfold Rmin; destruct (Rle_dec 1 (0 / 8)); lra).
    apply Zfloor_eq. lra.
  - intros Hc. apply le_INR in Hc. unfold overlapFactor.
    replace (Rmin 1 (INR c / 8)) with 1%R.
    + apply Zfloor_eq. lra.
    + unfold Rmin. change (INR 8) with 8%R in Hc || idtac.
      destruct (Rle_dec 1 (INR c / 8)); [reflexivity|].
      exfalso. cbn [INR] in Hc. lra.
Qed.

Lemma scaledByOverlap_range_witness :
  LEAD_YEARS_MIN <= scaledByOverlap LEAD_YEARS_MIN LEAD_YEARS_MAX 3 <= LEAD_YEARS_MAX /\
  ((3 <= 5)%nat ->
   scaledByOverlap LEAD_YEARS_MIN LEAD_YEARS_MAX 5
   <= scaledByOverlap LEAD_YEARS_MIN LEAD_YEARS_MAX 3) /\
  scaledByOverlap LEAD_YEARS_MIN LEAD_YEARS_MAX 0 = LEAD_YEARS_MAX /\
  ((8 <= 3)%nat -> scaledByOverlap LEAD_YEARS_MIN LEAD_YEARS_MAX 3 = LEAD_YEARS_MIN).
Proof.
  apply (scaledByOverlap_range LEAD_YEARS_MIN LEAD_YEARS_MAX 3 5).
  unfold LEAD_YEARS_MIN, LEAD_YEARS_MAX. lia.
Defined.

Lemma processBook_entry (CURRENT_YEAR : Z) (bookRanges : list DatedBook.t)
    (d : DatedBook.t) :
  let e := processBook CURRENT_YEAR bookRanges d in
  BookEntry.book e = DatedBook.book d /\
  BookEntry.start e = DatedBook.start d /\
  BookEntry.end_ e = DatedBook.end_ d /\
  LEAD_YEARS_MIN <= BookEntry.leadYears e <= LEAD_YEARS_MAX /\
  SCROLL_RANGE_MIN <= BookEntry.scrollRange e <= SCROLL_RANGE_MAX /\
  BookEntry.entryStart e = BookEntry.start e - BookEntry.leadYears e /\
  BookEntry.exitEnd e = toNumber (BookEntry.end_ e) + BookEntry.leadYears e.
Proof.
  unfold processBook.
  cbn [BookEntry.book BookEntry.start BookEntry.end_ BookEntry.leadYears
       BookEntry.scrollRange BookEntry.entryStart BookEntry.exitEnd].
  repeat split; try reflexivity;
    apply scaledByOverlap_between;
    unfold LEAD_YEARS_MIN, LEAD_YEARS_MAX, SCROLL_RANGE_MIN, SCROLL_RANGE_MAX; lia.
Qed.

Lemma datedBook_In (books : list IdBook.t) (d : DatedBook.t) :
  In d (flat_map datedBook books) ->
  In (DatedBook.book d) books /\
  DisplayDate.start (getDisplayDate (IdBook.dates (DatedBook.book d)))
  = Some (DatedBook.start d) /\
  DisplayDate.end_ (getDisplayDate (IdBook.dates (DatedBook.book d)))
  = DatedBook.end_ d.
Proof.
  intros H. apply in_flat_map in H. destruct H as [b [Hb Hd]].
  unfold datedBook in Hd.
  destruct (DisplayDate.start (getDisplayDate (IdBook.dates b))) as [s|] eqn:E;
    [|contradiction].
  destruct Hd as [<-|[]]. cbn [DatedBook.book DatedBook.start DatedBook.end_].
  auto.
Qed.

(** X23.  [preprocessBooks] returns the entries in the order of their
    start years; every entry is a book of the list whose display date has
    a start year, its lead time is between 1 and 20 years and its scroll
    range between 30 and 120, and its extended range begins strictly
    before its start and ends strictly after its end; and no dated book
    is lost: every book of the list with a start year has an entry. *)
Theorem preprocessBooks_entries (CURRENT_YEAR : Z) (books : list IdBook.t) :
  StronglySorted (fun a b => BookEntry.start a <= BookEntry.start b)
    (preprocessBooks CURRENT_YEAR books) /\
  (forall e, In e (preprocessBooks CURRENT_YEAR books) ->
    In (BookEntry.book e) books /\
    DisplayDate.start (getDisplayDate (IdBook.dates (BookEntry.book e)))
    = Some (BookEntry.start e) /\
    DisplayDate.end_ (getDisplayDate (IdBook.dates (BookEntry.book e)))
    = BookEntry.end_ e /\
    1 <= BookEntry.leadYears e <= 20 /\
    30 <= BookEntry.scrollRange e <= 120 /\
    BookEntry.entryStart e < BookEntry.start e /\
    toNumber (BookEntry.end_ e) < BookEntry.exitEnd e) /\
  (forall b s, In b books ->
    DisplayDate.start (getDisplayDate (IdBook.dates b)) = Some s ->
    exists e, In e (preprocessBooks CURRENT_YEAR books) /\
              BookEntry.book e = b /\ BookEntry.start e = s).
Proof.
  unfold preprocessBooks. split; [apply js_sort_key_sorted|].
  split; [|intros b s Hb Hs;
    set (d := DatedBook.mk b s (DisplayDate.end_ (getDisplayDate (IdBook.dates b)))
                (DisplayDate.isWritingDate (getDisplayDate (IdBook.dates b))));
    assert (Hd : In d (flat_map datedBook books))
      by (apply in_flat_map; exists b; split; [exact Hb|];
          unfold datedBook; rewrite Hs; now left);
    exists (processBook CURRENT_YEAR (flat_map datedBook books) d); split;
    [apply (Permutation_in _ (Permutation_sym (js_sort_perm _ _)));
     now apply in_map | split; reflexivity]].
  intros e He.
  apply (Permutation_in _ (js_sort_perm _ _)) in He.
  apply in_map_iff in He. destruct He as [d [<- Hd]].
  destruct (datedBook_In _ _ Hd) as [Hb [Hs Hn]].
  destruct (processBook_entry CURRENT_YEAR (flat_map datedBook books) d)
    as [E1 [E2 [E3 [HL [HS [E4 E5]]]]]].
  unfold LEAD_YEARS_MIN, LEAD_YEARS_MAX, SCROLL_RANGE_MIN, SCROLL_RANGE_MAX in *.
  rewrite E1, E2, E3 in *.
  repeat split; try assumption; try lia.
Qed.

Lemma calculatePosition_range (year : Z) (entry : BookEntry.t) :
  1 <= BookEntry.leadYears entry ->
  0 <= BookEntry.scrollRange entry ->
  BookEntry.start entry - BookEntry.leadYears entry <= year
    <= toNumber (BookEntry.end_ entry) + BookEntry.leadYears entry ->
  exists translateY opacity : R,
    Position.translateY (calculatePosition year entry) = Num translateY /\
    Position.opacity (calculatePosition year entry) = Num opacity /\
    (0 <= opacity <= 1)%R /\
    (- IZR (BookEntry.scrollRange entry) <= translateY
       <= IZR (BookEntry.scrollRange entry))%R /\
    (Position.phase_ (calculatePosition year entry) = entering
       <-> year < BookEntry.start entry) /\
    (Position.phase_ (calculatePosition year entry) = exiting
       <-> BookEntry.start entry <= year /\
           toNumber (BookEntry.end_ entry) < year) /\
    (Position.phase_ (calculatePosition year entry) = visible
       -> translateY = 0%R /\ opacity = 1%R).
Proof.
  intros HL HS [Hlo Hhi]. unfold calculatePosition.
  set (start := BookEntry.start entry) in *.
  set (end_ := toNumber (BookEntry.end_ entry)) in *.
  set (lead := BookEntry.leadYears entry) in *.
  set (range := BookEntry.scrollRange entry) in *.
  assert (HLr : (1 <= IZR lead)%R) by (apply IZR_le in HL; exact HL).
  assert (HSr : (0 <= IZR range)%R) by (apply IZR_le in HS; exact HS).
  destruct (Z.ltb_spec year start) as [Hlt|Hge].
  - unfold of_year. rewrite js_div_finite by lra.
    set (p := (IZR (year - (start - lead)) / IZR lead)%R).
    assert (Hp : (0 <= p < 1)%R).
    { unfold p. rewrite minus_IZR, minus_IZR.
      apply IZR_le in Hlo. apply IZR_lt in Hlt.
      rewrite minus_IZR in Hlo. split.
      - apply Rmult_le_pos; [lra|]. left. apply Rinv_0_lt_compat. lra.
      - apply (Rmult_lt_reg_r (IZR lead)); [lra|].
        unfold Rdiv. rewrite Rmult_assoc, Rinv_l by lra. lra. }
    cbn [Position.translateY Position.opacity Position.phase_
         js_sub js_neg js_add js_mul js_min js_le].
    destruct (Rleb_spec 1 (p * 1.5)) as [H1|H1].
    + exists ((1 + - p) * IZR range)%R, 1%R.
      repeat split; try reflexivity; try lra; try nra; try lia; try discriminate.
    + exists ((1 + - p) * IZR range)%R, (p * 1.5)%R.
      repeat split; try reflexivity; try lra; try nra; try lia; try discriminate.
  - cbn [andb].
    replace (year >=? start) with true by (symmetry; apply Z.geb_le; lia).
    cbn [andb].
    destruct (Z.leb_spec year end_) as [Hle|Hgt].
    + exists 0%R, 1%R.
      cbn [Position.translateY Position.opacity Position.phase_].
      repeat split; try reflexivity; try lra; try lia; try discriminate.
    + replace (year >? end_) with true by (symmetry; apply Z.gtb_lt; lia).
      unfold of_year. rewrite js_div_finite by lra.
      set (p := (IZR (year - end_) / IZR lead)%R).
      assert (Hp : (0 < p <= 1)%R).
      { unfold p. rewrite minus_IZR.
        apply IZR_le in Hhi. apply IZR_lt in Hgt.
        rewrite plus_IZR in Hhi. split.
        - apply Rmult_lt_0_compat; [lra|]. apply Rinv_0_lt_compat. lra.
        - apply (Rmult_le_reg_r (IZR lead)); [lra|].
          unfold Rdiv. rewrite Rmult_assoc, Rinv_l by lra. lra. }
      cbn [Position.translateY Position.opacity Position.phase_
           js_sub js_neg js_add js_mul js_max js_le].
      destruct (Rleb_spec 0 (1 + - (p * 1.5))) as [H1|H1].
      * exists (- p * IZR range)%R, (1 + - (p * 1.5))%R.
        repeat split; try reflexivity; try lra; try nra; try lia; try discriminate.
      * exists (- p * IZR range)%R, 0%R.
        repeat split; try reflexivity; try lra; try nra; try lia; try discriminate.
Qed.

(** X24.  While the year lies in the extended range of a preprocessed
    book, [calculatePosition] gives it a finite offset of at most its
    scroll range in either direction and an opacity between 0 and 1; the
    phase is entering before the start year and exiting after the end
    year, and in the visible phase the book is parked (offset 0, opacity
    1). *)
Theorem calculatePosition_of_preprocessed (CURRENT_YEAR year : Z)
    (books : list IdBook.t) (entry : BookEntry.t) :
  In entry (preprocessBooks CURRENT_YEAR books) ->
  BookEntry.entryStart entry <= year <= BookEntry.exitEnd entry ->
  exists translateY opacity : R,
    Position.translateY (calculatePosition year entry) = Num translateY /\
    Position.opacity (calculatePosition year entry) = Num opacity /\
    (0 <= opacity <= 1)%R /\
    (- IZR (BookEntry.scrollRange entry) <= translateY
       <= IZR (BookEntry.scrollRange entry))%R /\
    (Position.phase_ (calculatePosition year entry) = entering
       <-> year < BookEntry.start entry) /\
    (Position.phase_ (calculatePosition year entry) = exiting
       <-> BookEntry.start entry <= year /\
           toNumber (BookEntry.end_ entry) < year) /\
    (Position.phase_ (calculatePosition year entry) = visible
       -> translateY = 0%R /\ opacity = 1%R).
Proof.
  intros He Hy. unfold preprocessBooks in He.
  apply (Permutation_in _ (js_sort_perm _ _)) in He.
  apply in_map_iff in He. destruct He as [d [<- Hd]].
  destruct (processBook_entry CURRENT_YEAR (flat_map datedBook books) d)
    as [_ [_ [_ [HL [HS [E4 E5]]]]]].
  unfold LEAD_YEARS_MIN, LEAD_YEARS_MAX, SCROLL_RANGE_MIN, SCROLL_RANGE_MAX in *.
  apply calculatePosition_range; lia.
Qed.

Lemma calculatePosition_of_preprocessed_witness :
  let books :=
    [IdBook.mk "gen"%string (Book.mk (Some (-4000)) (Some (-1800)) None None)] in
  let entry :=
    processBook 2025 (flat_map datedBook books)
      (DatedBook.mk
         (IdBook.mk "gen"%string (Book.mk (Some (-4000)) (Some (-1800)) None None))
         (-4000) (Some (-1800)) false) in
  exists translateY opacity : R,
    Position.translateY (calculatePosition (-3000) entry) = Num translateY /\
    Position.opacity (calculatePosition (-3000) entry) = Num opacity /\
    (0 <= opacity <= 1)%R /\
    (- IZR (BookEntry.scrollRange entry) <= translateY
       <= IZR (BookEntry.scrollRange entry))%R /\
    (Position.phase_ (calculatePosition (-3000) entry) = entering
       <-> -3000 < BookEntry.start entry) /\
    (Position.phase_ (calculatePosition (-3000) entry) = exiting
       <-> BookEntry.start entry <= -3000 /\
           toNumber (BookEntry.end_ entry) < -3000) /\
    (Position.phase_ (calculatePosition (-3000) entry) = visible
       -> translateY = 0%R /\ opacity = 1%R).
Proof.
  intros books entry.
  apply (calculatePosition_of_preprocessed 2025 (-3000) books entry).
  - unfold preprocessBooks. left. reflexivity.
  - destruct (processBook_entry 2025 (flat_map datedBook books)
                (DatedBook.mk
                   (IdBook.mk "gen"%string
                      (Book.mk (Some (-4000)) (Some (-1800)) None None))
                   (-4000) (Some (-1800)) false))
      as [_ [E2 [E3 [HL [_ [E4 E5]]]]]].
    fold entry in E2, E3, HL, E4, E5. clearbody entry.
    rewrite E4, E5, E2, E3.
    unfold LEAD_YEARS_MIN, LEAD_YEARS_MAX in HL.
    cbn [DatedBook.start DatedBook.end_ toNumber]. lia.
Defined.

(** ** Scroll positions of the groups *)

Lemma js_min_Num (x y : R) : js_min (Num x) (Num y) = Num (Rmin x y).
Proof.
  cbn [js_min js_le]. unfold Rleb, Rmin. destruct (Rle_dec x y); reflexivity.
Qed.

Lemma js_max_Num (x y : R) : js_max (Num x) (Num y) = Num (Rmax x y).
Proof.
  cbn [js_max js_le]. unfold Rleb, Rmax. destruct (Rle_dec x y); reflexivity.
Qed.

Lemma js_max_NaN_r (a : number) : js_max a NaN = NaN.
Proof. destruct a; reflexivity. Qed.

Lemma fold_js_max_NaN (l : list number) : fold_left js_max l NaN = NaN.
Proof. induction l as [|x l IH]; [reflexivity|exact IH]. Qed.

Lemma fold_js_max_In_NaN (l : list number) (a : number) :
  In NaN l -> fold_left js_max l a = NaN.
Proof.
  revert a. induction l as [|x l IH]; intros a; [intros []|].
  intros [->|H]; cbn [fold_left].
  - rewrite js_max_NaN_r. apply fold_js_max_NaN.
  - now apply IH.
Qed.

Lemma fold_js_max_Num (l : list R) (m : R) :
  exists M : R,
    fold_left js_max (map Num l) (Num m) = Num M /\
    (m <= M)%R /\ Forall (fun p => (p <= M)%R) l /\ (M = m \/ In M l).
Proof.
  revert m. induction l as [|x l IH]; intros m; cbn [map fold_left].
  - exists m. repeat split; [lra|constructor|now left].
  - rewrite js_max_Num. destruct (IH (Rmax m x)) as [M [E [H1 [H2 H3]]]].
    exists M. split; [exact E|].
    assert (Hm := Rmax_l m x). assert (Hx := Rmax_r m x).
    split; [lra|]. split; [constructor; [lra|exact H2]|].
    destruct H3 as [->|H3]; [|right; now right].
    unfold Rmax. destruct (Rle_dec m x); [right; now left|now left].
Qed.

Lemma compressedGap_finite (gap years : Z) :
  years <> 0 -> exists c : R, compressedGap gap years = Num c.
Proof.
  intros H. unfold compressedGap, of_year.
  rewrite js_div_finite by (now apply not_0_IZR).
  cbn [Math_abs Math_sqrt Math_sign].
  replace (Rltb (Rabs (IZR gap / IZR years)) 0) with false
    by (symmetry; apply Rltb_false; apply Rabs_pos).
  destruct (Rltb 0 (IZR gap / IZR years)), (Rltb (IZR gap / IZR years) 0);
    cbn [js_mul]; eexists; reflexivity.
Qed.

Lemma compressedGap_zero_zero : compressedGap 0 0 = NaN.
Proof.
  unfold compressedGap, of_year. rewrite js_div_zero_zero. reflexivity.
Qed.

Lemma positionsFrom_finite (years : Z) (gs : list Group.t) :
  years <> 0 ->
  forall (prev : Group.t) (a : R),
  exists ps : list R,
    map Placed.scrollPosition (positionsFrom years prev (Num a) gs) = map Num ps /\
    StronglySorted Rle ps /\
    Forall (fun p => (Rmin 0.85 (0.05 + a + 0.02) <= p <= 0.85)%R) ps.
Proof.
  intros Hy. induction gs as [|g gs IH]; intros prev a; cbn [positionsFrom map].
  - exists []. repeat split; constructor.
  - destruct (compressedGap_finite
                (toNumber (Group.centerDate g) - toNumber (Group.centerDate prev))
                years Hy) as [c ->].
    rewrite js_max_Num. cbn [js_add]. rewrite js_min_Num.
    cbn [Placed.scrollPosition].
    assert (Hm := Rmax_l 0.02 c).
    destruct (IH g (a + Rmax 0.02 c)%R) as [ps [E [Hs Hb]]].
    exists (Rmin 0.85 (0.05 + (a + Rmax 0.02 c)) :: ps).
    split; [cbn [map]; now rewrite E|]. split.
    + constructor; [exact Hs|].
      eapply Forall_impl; [|exact Hb]. cbv beta. intros p [Hp _].
      revert Hp. unfold Rmin.
      destruct (Rle_dec 0.85 (0.05 + (a + Rmax 0.02 c) + 0.02)),
               (Rle_dec 0.85 (0.05 + (a + Rmax 0.02 c))); lra.
    + constructor.
      * unfold Rmin.
        destruct (Rle_dec 0.85 (0.05 + a + 0.02)),
                 (Rle_dec 0.85 (0.05 + (a + Rmax 0.02 c))); lra.
      * eapply Forall_impl; [|exact Hb]. cbv beta. intros p [Hp Hq].
        split; [|exact Hq]. revert Hp. unfold Rmin.
        destruct (Rle_dec 0.85 (0.05 + (a + Rmax 0.02 c) + 0.02)),
                 (Rle_dec 0.85 (0.05 + a + 0.02)); lra.
Qed.

Lemma positionsFrom_groups (years : Z) (gs : list Group.t) :
  forall (prev : Group.t) (a : number),
  map Placed.group (positionsFrom years prev a gs) = gs.
Proof.
  induction gs as [|g gs IH]; intros prev a; cbn [positionsFrom map]; [reflexivity|].
  now rewrite IH.
Qed.

Lemma mapi_from_groups (f : nat -> number) (l : list Group.t) (i : nat) :
  map Placed.group (mapi_from (fun g i => Placed.mk g (f i)) i l) = l.
Proof.
  revert i. induction l as [|g l IH]; intros i; cbn [mapi_from map]; [reflexivity|].
  now rewrite IH.
Qed.

Lemma mapi_from_positions (f : nat -> number) (l : list Group.t) (i : nat) :
  map Placed.scrollPosition (mapi_from (fun g i => Placed.mk g (f i)) i l)
  = map f (seq i (length l)).
Proof.
  revert i. induction l as [|g l IH]; intros i; cbn [mapi_from map length seq];
    [reflexivity|].
  now rewrite IH.
Qed.

Lemma rescale_groups (scale : number) (l : list Placed.t) :
  map Placed.group (map (rescale scale) l) = map Placed.group l.
Proof. rewrite map_map. reflexivity. Qed.

(** X25.  With at least one dated group and a date range that is not
    zero, [calculateScrollPositions] returns the dated groups in their
    order followed by the undated ones; the first dated group is at 0.05,
    the positions of the dated groups never decrease and stay strictly
    between 0.05 and 0.85 after the first, and the undated groups are at
    0.88, 0.91, 0.94, ... *)
Theorem calculateScrollPositions_dated (groups : list Group.t)
    (first : Group.t) (rest : list Group.t) :
  filter isDated groups = first :: rest ->
  totalYears first rest <> 0 ->
  exists ps : list R,
    map Placed.group (calculateScrollPositions groups)
    = filter isDated groups ++ filter (fun g => negb (isDated g)) groups /\
    map Placed.scrollPosition (calculateScrollPositions groups)
    = map Num (0.05%R :: ps)
      ++ map (fun i => Num (0.88 + INR i * 0.03))
           (seq 0 (length (filter (fun g => negb (isDated g)) groups))) /\
    length ps = length rest /\
    StronglySorted Rle (0.05%R :: ps) /\
    Forall (fun p => (0.05 < p < 0.85)%R) ps.
Proof.
  intros Hd Hy. unfold calculateScrollPositions. rewrite Hd.
  destruct (positionsFrom_finite (totalYears first rest) rest Hy first 0)
    as [qs [Eq [Hs Hb]]].
  set (positions := Placed.mk first (Num 0.05)
                    :: positionsFrom (totalYears first rest) first (Num 0) rest).
  assert (Ep : map Placed.scrollPosition positions = map Num (0.05%R :: qs))
    by (unfold positions; cbn [map Placed.scrollPosition]; now rewrite Eq).
  assert (Hb' : Forall (fun p => (0.07 <= p <= 0.85)%R) qs).
  { eapply Forall_impl; [|exact Hb]. cbv beta. intros p [Hp Hq].
    split; [|exact Hq]. revert Hp. unfold Rmin.
    destruct (Rle_dec 0.85 (0.05 + 0 + 0.02)); lra. }
  unfold Math_max. rewrite Ep. cbn [map fold_left js_max js_le].
  destruct (fold_js_max_Num qs 0.05) as [M [EM [HM1 [HM2 HM3]]]].
  rewrite EM.
  assert (HM : (0.05 <= M <= 0.85)%R).
  { split; [exact HM1|]. destruct HM3 as [->|HM3]; [lra|].
    rewrite Forall_forall in Hb'. apply (Hb' M HM3). }
  rewrite js_div_finite by lra.
  set (k := (0.8 / M)%R).
  assert (Hk : (k * M = 0.8)%R) by (unfold k; field; lra).
  assert (Hk0 : (0 < k)%R) by (unfold k; apply Rdiv_lt_0_compat; lra).
  exists (map (fun p => (0.05 + (p + - 0.05) * k)%R) qs).
  split; [|split; [|split; [|split]]].
  - rewrite map_app, rescale_groups. unfold mapi. rewrite mapi_from_groups.
    unfold positions. cbn [map Placed.group]. now rewrite positionsFrom_groups.
  - rewrite map_app. unfold mapi. rewrite mapi_from_positions. f_equal.
    rewrite map_map.
    change (map (fun x => Placed.scrollPosition (rescale (Num k) x)) positions)
      with (map (fun x => js_add (Num 0.05)
                            (js_mul (js_sub (Placed.scrollPosition x) (Num 0.05))
                               (Num k))) positions).
    rewrite <- (map_map Placed.scrollPosition
                  (fun x => js_add (Num 0.05) (js_mul (js_sub x (Num 0.05)) (Num k)))).
    rewrite Ep. cbn [map js_add js_mul js_sub js_neg]. f_equal.
    + f_equal. lra.
    + rewrite !map_map. apply map_ext. intros x.
      cbn [js_add js_mul js_sub js_neg]. f_equal. lra.
  - rewrite length_map.
    assert (El := f_equal (@length _) Eq). rewrite !length_map in El.
    rewrite <- El.
    assert (Eg := f_equal (@length _)
                    (positionsFrom_groups (totalYears first rest) rest first (Num 0))).
    now rewrite length_map in Eg.
  - constructor.
    + clear - Hs Hk0. induction Hs as [|p ps Hs IH Hp]; cbn [map]; constructor.
      * exact IH.
      * rewrite Forall_map. eapply Forall_impl; [|exact Hp]. cbv beta.
        intros q Hq. nra.
    + rewrite Forall_map. eapply Forall_impl; [|exact Hb']. cbv beta.
      intros q Hq. nra.
  - rewrite Forall_map. rewrite Forall_forall in Hb', HM2. apply Forall_forall.
    intros q Hq. specialize (Hb' q Hq). specialize (HM2 q Hq). split; nra.
Qed.

Lemma calculateScrollPositions_dated_witness :
  let g1 := Group.mk [] (Some (-1000)) (Some (-900)) (Some (-950)) PRIMEVAL in
  let g2 := Group.mk [] (Some (-500)) (Some (-400)) (Some (-450)) PRIMEVAL in
  let u := Group.mk [] None None None WISDOM in
  let groups := [g1; u; g2] in
  exists ps : list R,
    map Placed.group (calculateScrollPositions groups)
    = filter isDated groups ++ filter (fun g => negb (isDated g)) groups /\
    map Placed.scrollPosition (calculateScrollPositions groups)
    = map Num (0.05%R :: ps)
      ++ map (fun i => Num (0.88 + INR i * 0.03))
           (seq 0 (length (filter (fun g => negb (isDated g)) groups))) /\
    length ps = length [g2] /\
    StronglySorted Rle (0.05%R :: ps) /\
    Forall (fun p => (0.05 < p < 0.85)%R) ps.
Proof.
  intros g1 g2 u groups.
  apply (calculateScrollPositions_dated groups g1 [g2]).
  - reflexivity.
  - vm_compute. discriminate.
Defined.

Lemma rescale_NaN (p : Placed.t) : Placed.scrollPosition (rescale NaN p) = NaN.
Proof.
  unfold rescale. cbn [Placed.scrollPosition].
  destruct (js_sub (Placed.scrollPosition p) (Num 0.05)); reflexivity.
Qed.

Lemma mapi_from_In (f : nat -> number) (l : list Group.t) (i : nat) (p : Placed.t) :
  In p (mapi_from (fun g i => Placed.mk g (f i)) i l) -> In (Placed.group p) l.
Proof.
  intros H. rewrite <- (mapi_from_groups f l i). now apply in_map.
Qed.

(** X26.  When the date range of the dated groups is zero and the second
    dated group has the centre date of the first, the gap [0 / 0] is not
    a number, and every dated group of the result gets the position
    [NaN], the first one included. *)
Theorem calculateScrollPositions_zero_range (groups : list Group.t)
    (first second : Group.t) (rest : list Group.t) :
  filter isDated groups = first :: second :: rest ->
  totalYears first (second :: rest) = 0 ->
  Group.centerDate second = Group.centerDate first ->
  Forall (fun p => isDated (Placed.group p) = true ->
                   Placed.scrollPosition p = NaN)
    (calculateScrollPositions groups).
Proof.
  intros Hd Hy Hc. apply Forall_forall. intros p Hp Hg.
  unfold calculateScrollPositions in Hp.
  rewrite Hd in Hp. rewrite Hy in Hp.
  apply in_app_iff in Hp. destruct Hp as [Hp|Hp].
  - cbn [positionsFrom] in Hp. rewrite Hc, Z.sub_diag in Hp.
    rewrite compressedGap_zero_zero in Hp.
    cbn [js_max js_add js_min] in Hp.
    unfold Math_max in Hp.
    rewrite fold_js_max_In_NaN in Hp
      by (cbn [map Placed.scrollPosition]; right; now left).
    cbn [js_div] in Hp.
    apply in_map_iff in Hp. destruct Hp as [q [<- _]]. apply rescale_NaN.
  - apply mapi_from_In in Hp. apply filter_In in Hp. destruct Hp as [_ Hn].
    rewrite Hg in Hn. discriminate.
Qed.

Lemma calculateScrollPositions_zero_range_witness :
  let g := Group.mk [] (Some 30) (Some 30) (Some 30) PRIMEVAL in
  Forall (fun p => isDated (Placed.group p) = true ->
                   Placed.scrollPosition p = NaN)
    (calculateScrollPositions [g; g]).
Proof.
  intros g.
  apply (calculateScrollPositions_zero_range [g; g] g g []); reflexivity.
Defined.

(** X27.  Without any dated group, [calculateScrollPositions] keeps the
    groups in their order and spreads them evenly: the group of index [i]
    is at [i / n] for [n] groups, a position from 0 up to but not
    reaching 1. *)
Theorem calculateScrollPositions_undated (groups : list Group.t) :
  filter isDated groups = [] ->
  map Placed.group (calculateScrollPositions groups) = groups /\
  map Placed.scrollPosition (calculateScrollPositions groups)
  = map (fun i => Num (INR i / INR (length groups))) (seq 0 (length groups)) /\
  Forall (fun i => (0 <= INR i / INR (length groups) < 1)%R)
    (seq 0 (length groups)).
Proof.
  intros Hd. unfold calculateScrollPositions. rewrite Hd. unfold mapi.
  split; [apply mapi_from_groups|].
  assert (Hi : Forall (fun i => (0 <= INR i / INR (length groups) < 1)%R)
                 (seq 0 (length groups))).
  { apply Forall_forall. intros i Hi. apply in_seq in Hi.
    assert (H0 := pos_INR i).
    assert (Hlt : (INR i < INR (length groups))%R) by (apply lt_INR; lia).
    split.
    - apply Rmult_le_pos; [exact H0|]. left. apply Rinv_0_lt_compat. lra.
    - apply (Rmult_lt_reg_r (INR (length groups))); [lra|].
      unfold Rdiv. rewrite Rmult_assoc, Rinv_l by lra. lra. }
  split; [|exact Hi].
  rewrite mapi_from_positions. apply map_ext_in. intros i Hi'.
  apply in_seq in Hi'. apply js_div_finite.
  assert (Hlt : (INR 0 < INR (length groups))%R) by (apply lt_INR; lia).
  cbn [INR] in Hlt. lra.
Qed.

Lemma calculateScrollPositions_undated_witness :
  let u := Group.mk [] None None None WISDOM in
  map Placed.group (calculateScrollPositions [u; u; u]) = [u; u; u] /\
  map Placed.scrollPosition (calculateScrollPositions [u; u; u])
  = map (fun i => Num (INR i / INR (length [u; u; u]))) (seq 0 (length [u; u; u])) /\
  Forall (fun i => (0 <= INR i / INR (length [u; u; u]) < 1)%R)
    (seq 0 (length [u; u; u])).
Proof.
  intros u. apply (calculateScrollPositions_undated [u; u; u]). reflexivity.
Defined.

(** ** The timeline dot *)

(** X28.  With a year range that is not empty, [updateDotPosition] puts
    the dot between 15 and 85 percent for every year, never lower for a
    later year, at 15 percent up to [minYear] and at 85 percent from
    [maxYear] on. *)
Theorem updateDotPosition_range (minYear maxYear y y' : Z) :
  minYear < maxYear -> y <= y' ->
  exists t t' : R,
    TimelineRenderer.updateDotPosition minYear maxYear (of_year y) = Num t /\
    TimelineRenderer.updateDotPosition minYear maxYear (of_year y') = Num t' /\
    (15 <= t <= t')%R /\ (t' <= 85)%R /\
    (y <= minYear -> t = 15%R) /\
    (maxYear <= y' -> t' = 85%R).
Proof.
  intros Hr Hy. unfold TimelineRenderer.updateDotPosition, of_year.
  cbn [js_sub js_neg js_add].
  apply IZR_lt in Hr. 
  rewrite !js_div_finite by lra.
  rewrite !js_min_Num, !js_max_Num. cbn [js_mul js_add].
  set (d := (IZR maxYear + - IZR minYear)%R).
  assert (Hd : (0 < d)%R) by (unfold d; lra).
  assert (Hi : (0 < / d)%R) by now apply Rinv_0_lt_compat.
  set (p := ((IZR y + - IZR minYear) / d)%R).
  set (p' := ((IZR y' + - IZR minYear) / d)%R).
  assert (Hpp : (p <= p')%R).
  { unfold p, p', Rdiv. apply Rmult_le_compat_r; [lra|].
    apply IZR_le in Hy. lra. }
  exists (15 + Rmax 0 (Rmin 1 p) * 70)%R, (15 + Rmax 0 (Rmin 1 p') * 70)%R.
  split; [reflexivity|]. split; [reflexivity|].
  assert (Hc : forall q, (0 <= Rmax 0 (Rmin 1 q) <= 1)%R).
  { intros q. unfold Rmax, Rmin.
    destruct (Rle_dec 1 q); destruct (Rle_dec 0 _); lra. }
  assert (Hm : (Rmax 0 (Rmin 1 p) <= Rmax 0 (Rmin 1 p'))%R).
  { unfold Rmax, Rmin.
    destruct (Rle_dec 1 p), (Rle_dec 1 p');
      repeat match goal with |- context [Rle_dec ?a ?b] => destruct (Rle_dec a b) end;
      lra. }
  assert (H0 := Hc p). assert (H1 := Hc p').
  split; [lra|]. split; [lra|]. split.
  - intros Hle. apply IZR_le in Hle.
    assert (Hp : (p <= 0)%R).
    { unfold p, Rdiv. 
      replace 0%R with (0 * / d)%R by ring.
      apply Rmult_le_compat_r; lra. }
    unfold Rmax, Rmin.
    destruct (Rle_dec 1 p); destruct (Rle_dec 0 _); lra.
  - intros Hle. apply IZR_le in Hle.
    assert (Hp : (1 <= p')%R).
    { unfold p', Rdiv. replace 1%R with (d * / d)%R by (field; lra).
      apply Rmult_le_compat_r; [lra|]. unfold d. lra. }
    unfold Rmax, Rmin.
    destruct (Rle_dec 1 p'); destruct (Rle_dec 0 _); lra.
Qed.

Lemma updateDotPosition_range_witness :
  exists t t' : R,
    TimelineRenderer.updateDotPosition (-4000) 2025 (of_year (-1000)) = Num t /\
    TimelineRenderer.updateDotPosition (-4000) 2025 (of_year 2025) = Num t' /\
    (15 <= t <= t')%R /\ (t' <= 85)%R /\
    (-1000 <= -4000 -> t = 15%R) /\
    (2025 <= 2025 -> t' = 85%R).
Proof.
  apply (updateDotPosition_range (-4000) 2025 (-1000) 2025); lia.
Defined.

(** X29.  When the year range is a single year, the progress of the dot
    is a division by zero: the dot is at 15 percent before that year, at
    85 percent after it, and at that year itself its position is [NaN];
    a year that is [NaN] gives [NaN] for every range. *)
Theorem updateDotPosition_single_year (minYear y : Z) :
  TimelineRenderer.updateDotPosition minYear minYear (of_year y)
  = (if y <? minYear then Num 15
     else if minYear <? y then Num 85
     else NaN) /\
  forall maxYear, TimelineRenderer.updateDotPosition minYear maxYear NaN = NaN.
Proof.
  split; [|reflexivity].
  unfold TimelineRenderer.updateDotPosition, of_year.
  cbn [js_sub js_neg js_add].
  replace (IZR minYear + - IZR minYear)%R with 0%R by ring.
  unfold js_div.
  replace (Reqb 0 0) with true by (symmetry; now apply Reqb_true).
  destruct (Z.ltb_spec y minYear) as [Hlt|Hge].
  - apply IZR_lt in Hlt.
    replace (Rltb 0 (IZR y + - IZR minYear)) with false
      by (symmetry; apply Rltb_false; lra).
    replace (Rltb (IZR y + - IZR minYear) 0) with true
      by (symmetry; apply Rltb_true; lra).
    cbn [js_min js_le js_max js_mul js_add]. f_equal. lra.
  - destruct (Z.ltb_spec minYear y) as [Hlt|Hle].
    + apply IZR_lt in Hlt.
      replace (Rltb 0 (IZR y + - IZR minYear)) with true
        by (symmetry; apply Rltb_true; lra).
      cbn [js_min js_le]. rewrite js_max_Num. cbn [js_mul js_add].
      f_equal. unfold Rmax. destruct (Rle_dec 0 1); lra.
    + assert (y = minYear) as -> by lia.
      replace (Rltb 0 (IZR minYear + - IZR minYear)) with false
        by (symmetry; apply Rltb_false; lra).
      replace (Rltb (IZR minYear + - IZR minYear) 0) with false
        by (symmetry; apply Rltb_false; lra).
      reflexivity.
Qed.

(** ** The milestone cards *)

Lemma MILESTONE_CARDS_milestones :
  map IdMilestone.milestone MILESTONE_CARDS = MILESTONES.
Proof. reflexivity. Qed.

Lemma checkMilestone_has (year : Z) (visible : MilestoneCardManager.cards)
    (m : IdMilestone.t) (i : nat) :
  assoc_has String.eqb (IdMilestone.id m)
    (MilestoneCardManager.checkMilestone year visible m i)
  = (year >=? Milestone.year (IdMilestone.milestone m)
              - MilestoneCardManager.LEAD_YEARS).
Proof.
  unfold MilestoneCardManager.checkMilestone.
  destruct (year >=? _) eqn:Ey; cbn [andb negb].
  - destruct (assoc_has String.eqb (IdMilestone.id m) visible) eqn:Eh;
      cbn [negb]; [exact Eh|].
    unfold MilestoneCardManager.addMilestoneCard, assoc_has.
    now rewrite (assoc_get_set_same _ String.eqb_spec).
  - destruct (assoc_has String.eqb (IdMilestone.id m) visible) eqn:Eh;
      [|exact Eh].
    unfold MilestoneCardManager.removeMilestoneCard.
    unfold assoc_has in Eh.
    destruct (assoc_get String.eqb (IdMilestone.id m) visible) eqn:Eg;
      [|discriminate].
    unfold assoc_has. now rewrite (assoc_get_delete_same _ String.eqb_spec).
Qed.

Lemma checkMilestone_other (year : Z) (visible : MilestoneCardManager.cards)
    (m : IdMilestone.t) (i : nat) (k : String.string) :
  IdMilestone.id m <> k ->
  assoc_get String.eqb k (MilestoneCardManager.checkMilestone year visible m i)
  = assoc_get String.eqb k visible.
Proof.
  intros Hne. unfold MilestoneCardManager.checkMilestone.
  destruct (_ && _).
  - unfold MilestoneCardManager.addMilestoneCard.
    now apply (assoc_get_set_other _ String.eqb_spec).
  - destruct (_ && _); [|reflexivity].
    unfold MilestoneCardManager.removeMilestoneCard.
    destruct (assoc_get String.eqb (IdMilestone.id m) visible); [|reflexivity].
    now apply (assoc_get_delete_other _ String.eqb_spec).
Qed.

Lemma checkFrom_other (year : Z) (ms : list IdMilestone.t) (k : String.string) :
  ~ In k (map IdMilestone.id ms) ->
  forall (i : nat) (visible : MilestoneCardManager.cards),
  assoc_get String.eqb k (MilestoneCardManager.checkFrom year i ms visible)
  = assoc_get String.eqb k visible.
Proof.
  induction ms as [|m ms IH]; intros Hk i visible;
    cbn [MilestoneCardManager.checkFrom]; [reflexivity|].
  cbn [map In] in Hk. rewrite IH by tauto.
  apply checkMilestone_other. tauto.
Qed.

(** X30.  With milestones of distinct identifiers, after [updateForYear]
    a milestone has a card exactly when the year has reached fifteen
    years before the milestone's year, whatever cards were shown before;
    so a card that is shown for a year is shown for every later year.
    Entries under other identifiers are left as they were. *)
Theorem milestone_cards_visible (milestones : list IdMilestone.t) (year : Z)
    (visibleMilestones : MilestoneCardManager.cards) :
  NoDup (map IdMilestone.id milestones) ->
  (forall m, In m milestones ->
     assoc_has String.eqb (IdMilestone.id m)
       (MilestoneCardManager.updateForYear milestones year visibleMilestones)
     = (Milestone.year (IdMilestone.milestone m) - 15 <=? year)) /\
  (forall k, ~ In k (map IdMilestone.id milestones) ->
     assoc_get String.eqb k
       (MilestoneCardManager.updateForYear milestones year visibleMilestones)
     = assoc_get String.eqb k visibleMilestones).
Proof.
  intros Hnd. unfold MilestoneCardManager.updateForYear. split.
  - generalize 0%nat. revert visibleMilestones.
    induction milestones as [|m0 ms IH]; intros visible i m Hm; [destruct Hm|].
    cbn [map] in Hnd. apply NoDup_cons_iff in Hnd. destruct Hnd as [Hn Hnd].
    cbn [MilestoneCardManager.checkFrom]. destruct Hm as [->|Hm].
    + unfold assoc_has. rewrite checkFrom_other by exact Hn.
      fold (assoc_has String.eqb (IdMilestone.id m)
              (MilestoneCardManager.checkMilestone year visible m i)).
      rewrite checkMilestone_has. unfold MilestoneCardManager.LEAD_YEARS.
      apply Z.geb_leb.
    + now apply IH.
  - intros k Hk. now apply checkFrom_other.
Qed.

Lemma milestone_cards_visible_witness :
  (forall m, In m MILESTONE_CARDS ->
     assoc_has String.eqb (IdMilestone.id m)
       (MilestoneCardManager.updateForYear MILESTONE_CARDS 380 [])
     = (Milestone.year (IdMilestone.milestone m) - 15 <=? 380)) /\
  (forall k, ~ In k (map IdMilestone.id MILESTONE_CARDS) ->
     assoc_get String.eqb k
       (MilestoneCardManager.updateForYear MILESTONE_CARDS 380 [])
     = assoc_get String.eqb k []).
Proof.
  apply (milestone_cards_visible MILESTONE_CARDS 380 []).
  repeat (apply NoDup_cons;
          [cbn; intros H;
           repeat (destruct H as [H|H]; [discriminate H|]); exact H|]).
  apply NoDup_nil.
Defined.

